(** * spacy/_ml.py: layers, batching helpers and combinators

    A shallow embedding of the hand-written forward/backward layers of
    [spacy/_ml.py] and of the part of numpy's array model they rely on.

    Arrays are numpy arrays: a shape and a flat, row-major (C order) data
    buffer.  The buffers of the two tensor-contraction layers, their inputs
    and their gradients hold float32 numbers: IEEE 754 binary32, every
    operation rounded to nearest even, with infinities, signed zeros and NaN.
    Index arrays, and arrays whose entries are only moved, selected or
    compared with zero, hold integers. *)

From Stdlib Require Import List ZArith Lia Bool Arith PeanoNat.
From Stdlib Require Import Floats.SpecFloat.
Import ListNotations.

Open Scope Z_scope.

(** ** Error-propagating sequencing

    Python exceptions (numpy's ValueError / IndexError on a shape mismatch,
    a failed [assert]) are modelled by [None]. *)

Definition bind {A B : Type} (m : option A) (k : A -> option B) : option B :=
  match m with
  | Some a => k a
  | None => None
  end.

Notation "x <- m ;; k" := (bind m (fun x => k))
  (at level 61, m at next level, right associativity).

(** ** A model of numpy's ndarray *)

Module Numpy.

Record ndarray : Type := mk_ndarray {
  shape : list nat;
  data : list Z
}.

(** Number of entries of an array of shape [sh]. *)
Definition size (sh : list nat) : nat := fold_right Nat.mul 1%nat sh.

Definition ndim (A : ndarray) : nat := length (shape A).

(** The buffer of a well-formed array has one entry per index. *)
Definition wf (A : ndarray) : Prop := length (data A) = size (shape A).

Definition wfb (A : ndarray) : bool := (length (data A) =? size (shape A))%nat.

(** Row-major offset of a multi-index. *)
Fixpoint ravel (sh idx : list nat) : nat :=
  match sh, idx with
  | _ :: sh', i :: idx' => (i * size sh' + ravel sh' idx')%nat
  | _, _ => 0%nat
  end.

(** [in_range sh idx]: [idx] is a valid multi-index into shape [sh]. *)
Fixpoint in_range (sh idx : list nat) : Prop :=
  match sh, idx with
  | [], [] => True
  | n :: sh', i :: idx' => (i < n)%nat /\ in_range sh' idx'
  | _, _ => False
  end.

(** [A[idx]] for a valid multi-index. *)
Definition get (A : ndarray) (idx : list nat) : Z :=
  nth (ravel (shape A) idx) (data A) 0.

(** All multi-indices of a shape, in row-major order. *)
Fixpoint indices (sh : list nat) : list (list nat) :=
  match sh with
  | [] => [[]]
  | n :: sh' => flat_map (fun i => map (cons i) (indices sh')) (seq 0 n)
  end.

(** The array of shape [sh] whose entry at [idx] is [g idx]. *)
Definition tabulate (sh : list nat) (g : list nat -> Z) : ndarray :=
  mk_ndarray sh (map g (indices sh)).

Definition zeros (sh : list nat) : ndarray := tabulate sh (fun _ => 0).

(** Sum of a list of integers. *)
Definition sumZ (l : list Z) : Z := fold_right Z.add 0 l.

(** [sum_upto n f] is [f 0 + ... + f (n-1)]. *)
Definition sum_upto (n : nat) (f : nat -> Z) : Z := sumZ (map f (seq 0 n)).

(** *** Axis bookkeeping *)

(** Position of [j] in [l]. *)
Fixpoint index_of (j : nat) (l : list nat) : option nat :=
  match l with
  | [] => None
  | x :: l' => if (x =? j)%nat then Some 0%nat
               else option_map S (index_of j l')
  end.

Definition mem (j : nat) (l : list nat) : bool := existsb (Nat.eqb j) l.

Fixpoint nodupb (l : list nat) : bool :=
  match l with
  | [] => true
  | x :: l' => negb (mem x l') && nodupb l'
  end.

Definition dims_at (sh : list nat) (axes : list nat) : list nat :=
  map (fun j => nth j sh 0%nat) axes.

(** Axes of an [n]-dimensional array that are not in [axes], in order. *)
Definition free_axes (n : nat) (axes : list nat) : list nat :=
  filter (fun j => negb (mem j axes)) (seq 0 n).

(** The index into an [n]-dimensional operand whose components at [axes]
    come from [k] and whose components at [free] come from [ifree]. *)
Definition assemble (n : nat) (free ifree axes k : list nat) : list nat :=
  map (fun j =>
         match index_of j axes with
         | Some t => nth t k 0%nat
         | None =>
             match index_of j free with
             | Some t => nth t ifree 0%nat
             | None => 0%nat
             end
         end) (seq 0 n).

Fixpoint list_eqb (l1 l2 : list nat) : bool :=
  match l1, l2 with
  | [], [] => true
  | x :: l1', y :: l2' => (x =? y)%nat && list_eqb l1' l2'
  | _, _ => false
  end.

(** *** Broadcasting for the in-place [A += B]

    [B] is aligned with the trailing axes of [A]; each of its extents must
    equal that of [A] or be 1.  The shape of [A] never changes. *)
Fixpoint bcast_okb (shB shA : list nat) : bool :=
  match shB, shA with
  | [], [] => true
  | d :: shB', a :: shA' => ((d =? a)%nat || (d =? 1)%nat) && bcast_okb shB' shA'
  | _, _ => false
  end.

Fixpoint bcast_index (shB idx : list nat) : list nat :=
  match shB, idx with
  | d :: shB', i :: idx' =>
      (if (d =? 1)%nat then 0%nat else i) :: bcast_index shB' idx'
  | _, _ => []
  end.

Definition iadd (A B : ndarray) : option ndarray :=
  let shA := shape A in
  let shB := shape B in
  let lead := (length shA - length shB)%nat in
  if negb (wfb A && wfb B) then None
  else if negb ((length shB <=? length shA)%nat
                && bcast_okb shB (skipn lead shA))
  then None
  else
    Some (tabulate shA
            (fun idx => get A idx + get B (bcast_index shB (skipn lead idx)))).

(** *** Integer-array indexing [X[ids]]

    [ids] holds row numbers of [X]; a negative entry [k] counts from the end.
    numpy raises IndexError for an entry outside [-n, n). *)
Definition norm_index (n : nat) (k : Z) : option nat :=
  if (0 <=? k) && (k <? Z.of_nat n) then Some (Z.to_nat k)
  else if (- Z.of_nat n <=? k) && (k <? 0) then Some (Z.to_nat (k + Z.of_nat n))
  else None.

Definition take (X ids : ndarray) : option ndarray :=
  match shape X with
  | [] => None
  | n :: sh' =>
      if negb (wfb X && wfb ids) then None
      else if negb (forallb (fun k => match norm_index n k with
                                      | Some _ => true
                                      | None => false
                                      end) (data ids))
      then None
      else
        let r := ndim ids in
        Some (tabulate (shape ids ++ sh')
                (fun idx =>
                   match norm_index n (get ids (firstn r idx)) with
                   | Some row => get X (row :: skipn r idx)
                   | None => 0
                   end))
  end.

(** Sum of the squares of all entries: [(W**2).sum()]. *)
Definition sumsq (A : ndarray) : Z := sumZ (map (fun x => x * x) (data A)).

(** [A.reshape(sh)]: same buffer, new shape; ValueError when the sizes differ. *)
Definition reshape (A : ndarray) (sh : list nat) : option ndarray :=
  if (size sh =? length (data A))%nat then Some (mk_ndarray sh (data A))
  else None.

End Numpy.

Arguments Numpy.sumZ : simpl never.
Arguments Numpy.get : simpl never.
Arguments Numpy.tabulate : simpl never.
Arguments Numpy.size : simpl never.
Arguments Numpy.sum_upto : simpl never.

Import Numpy.

(** The row of [X] that entry [k] of [ids] selects. *)
Definition row_of (n : nat) (k : Z) : nat :=
  match norm_index n k with
  | Some r => r
  | None => 0%nat
  end.

(** An entry of [ids] is a valid row number of an array with [n] rows. *)
Definition valid_row (n : nat) (k : Z) : Prop :=
  - Z.of_nat n <= k < Z.of_nat n.

(** ** float32

    The numbers of a float32 array: IEEE 754 binary32, that is 24 bits of
    precision and exponents up to 128, as the Standard Library specifies
    them.  Every operation rounds to nearest, ties to even. *)

Module Float32.

Definition prec : Z := 24.
Definition emax : Z := 128.

Definition float32 : Type := spec_float.

Definition zero : float32 := S754_zero false.
Definition inf : float32 := S754_infinity false.
Definition nan : float32 := S754_nan.

Definition add (x y : float32) : float32 := SFadd prec emax x y.
Definition mul (x y : float32) : float32 := SFmul prec emax x y.

(** The float32 nearest to an integer. *)
Definition of_Z (z : Z) : float32 := binary_normalize prec emax z 0 false.

Definition is_zero (x : float32) : bool :=
  match x with
  | S754_zero _ => true
  | _ => false
  end.

(** Neither an infinity nor NaN. *)
Definition is_finite (x : float32) : bool :=
  match x with
  | S754_zero _ | S754_finite _ _ _ => true
  | _ => false
  end.

(** Two floats are the same number: the same float, or two zeros, whose
    signs may differ. *)
Definition same (x y : float32) : Prop :=
  x = y \/ (is_zero x = true /\ is_zero y = true).

(** The inner product as a contraction accumulates it: starting from 0,
    each product is rounded and added to the accumulator, in index order. *)
Definition dot (xs ys : list float32) : float32 :=
  fold_left (fun acc xy => add acc (mul (fst xy) (snd xy)))
    (combine xs ys) zero.

(** The sum along an axis: starting from 0, the entries are added in index
    order. *)
Definition sum (xs : list float32) : float32 := fold_left add xs zero.

(** [dot_upto n x y] accumulates [x 0 * y 0], ..., [x (n-1) * y (n-1)]. *)
Definition dot_upto (n : nat) (x y : nat -> float32) : float32 :=
  dot (map x (seq 0 n)) (map y (seq 0 n)).

(** [sum_upto n x] accumulates [x 0], ..., [x (n-1)]. *)
Definition sum_upto (n : nat) (x : nat -> float32) : float32 :=
  sum (map x (seq 0 n)).

(** [dot_pairs n m x y] accumulates the products [x o p * y o p] over all
    pairs with [o < n] and [p < m], in row-major order: [o] is the outer
    index, [p] the inner one. *)
Definition dot_pairs (n m : nat) (x y : nat -> nat -> float32) : float32 :=
  dot (map (fun op => x (fst op) (snd op)) (list_prod (seq 0 n) (seq 0 m)))
      (map (fun op => y (fst op) (snd op)) (list_prod (seq 0 n) (seq 0 m))).

End Float32.

Arguments Float32.add : simpl never.
Arguments Float32.mul : simpl never.
Arguments Float32.dot : simpl never.
Arguments Float32.sum : simpl never.
Arguments Float32.dot_upto : simpl never.
Arguments Float32.sum_upto : simpl never.
Arguments Float32.dot_pairs : simpl never.

Local Abbreviation float32 := Float32.float32.

(** ** float32 arrays

    The same array model with float32 entries, and the numpy operations the
    two tensor-contraction layers use on them. *)

Record farray : Type := mk_farray {
  fshape : list nat;
  fdata : list float32
}.

Definition fndim (A : farray) : nat := length (fshape A).

Definition fwf (A : farray) : Prop := length (fdata A) = size (fshape A).

Definition fwfb (A : farray) : bool :=
  (length (fdata A) =? size (fshape A))%nat.

(** [A[idx]] for a valid multi-index. *)
Definition fget (A : farray) (idx : list nat) : float32 :=
  nth (ravel (fshape A) idx) (fdata A) Float32.zero.

(** The array of shape [sh] whose entry at [idx] is [g idx]. *)
Definition ftabulate (sh : list nat) (g : list nat -> float32) : farray :=
  mk_farray sh (map g (indices sh)).

Definition fzeros (sh : list nat) : farray :=
  ftabulate sh (fun _ => Float32.zero).


(** *** numpy.tensordot(A, B, axes=[axA, axB])

    Contracts the axes [axA] of [A] against the axes [axB] of [B]; the result
    has the remaining axes of [A] followed by the remaining axes of [B].
    numpy raises ValueError when the contracted extents differ.  Each entry
    is the inner product over the contracted axes, taken in row-major order
    of their indices. *)
Definition ftensordot (A B : farray) (axA axB : list nat) : option farray :=
  let nA := fndim A in
  let nB := fndim B in
  if negb (fwfb A && fwfb B) then None
  else if negb ((length axA =? length axB)%nat
                && forallb (fun j => (j <? nA)%nat) axA
                && forallb (fun j => (j <? nB)%nat) axB
                && nodupb axA && nodupb axB
                && list_eqb (dims_at (fshape A) axA) (dims_at (fshape B) axB))
  then None
  else
    let fA := free_axes nA axA in
    let fB := free_axes nB axB in
    let contracted := dims_at (fshape A) axA in
    Some (ftabulate (dims_at (fshape A) fA ++ dims_at (fshape B) fB)
            (fun idx =>
               let ia := firstn (length fA) idx in
               let ib := skipn (length fA) idx in
               Float32.dot
                 (map (fun k => fget A (assemble nA fA ia axA k))
                    (indices contracted))
                 (map (fun k => fget B (assemble nB fB ib axB k))
                    (indices contracted)))).

(** *** A.transpose(perm) *)
Definition ftranspose (A : farray) (perm : list nat) : option farray :=
  let n := fndim A in
  if negb (fwfb A) then None
  else if negb ((length perm =? n)%nat
                && forallb (fun j => mem j perm) (seq 0 n))
  then None
  else
    Some (ftabulate (dims_at (fshape A) perm)
            (fun idx =>
               fget A (map (fun k =>
                              match index_of k perm with
                              | Some t => nth t idx 0%nat
                              | None => 0%nat
                              end) (seq 0 n)))).

(** *** The in-place [A += B], with [B] broadcast against the trailing axes
    of [A]; every entry of [A] becomes the rounded sum. *)
Definition fiadd (A B : farray) : option farray :=
  let shA := fshape A in
  let shB := fshape B in
  let lead := (length shA - length shB)%nat in
  if negb (fwfb A && fwfb B) then None
  else if negb ((length shB <=? length shA)%nat
                && bcast_okb shB (skipn lead shA))
  then None
  else
    Some (ftabulate shA
            (fun idx =>
               Float32.add (fget A idx)
                 (fget B (bcast_index shB (skipn lead idx))))).

(** *** A.sum(axis=0) *)
Definition fsum_axis0 (A : farray) : option farray :=
  match fshape A with
  | [] => None
  | n :: sh' =>
      if fwfb A then
        Some (ftabulate sh'
                (fun idx => Float32.sum_upto n (fun b => fget A (b :: idx))))
      else None
  end.

(** *** Integer-array indexing [X[ids]] of a float32 array: [ids] holds row
    numbers of [X], as in [take]. *)
Definition ftake (X : farray) (ids : ndarray) : option farray :=
  match fshape X with
  | [] => None
  | n :: sh' =>
      if negb (fwfb X && wfb ids) then None
      else if negb (forallb (fun k => match norm_index n k with
                                      | Some _ => true
                                      | None => false
                                      end) (data ids))
      then None
      else
        let r := ndim ids in
        Some (ftabulate (shape ids ++ sh')
                (fun idx =>
                   match norm_index n (get ids (firstn r idx)) with
                   | Some row => fget X (row :: skipn r idx)
                   | None => Float32.zero
                   end))
  end.

Arguments fget : simpl never.
Arguments ftabulate : simpl never.

(** ** Parameter memory and the optimizer callback

    A layer keeps its parameters in a memory pool [_mem]: [_mem.weights]
    holds the parameters and [_mem.gradient] their gradients, both float32;
    [W], [b], [d_W] and [d_b] are views into the two buffers.  Each buffer
    is modelled by the pair of its views.  The inputs and the gradients that
    reach a layer are float32 arrays as well. *)

Record Params : Type := mk_Params {
  p_W : farray;
  p_b : farray
}.

Record Memory : Type := mk_Memory {
  weights : Params;
  gradient : Params
}.

(** The optimizer [sgd(weights, gradient, key=...)] updates both buffers in
    place; it is modelled by the contents it leaves behind. *)
Definition Optimizer : Type := Params -> Params -> Z -> Params * Params.

(** One recorded invocation of the optimizer: the two buffers and the key. *)
Definition SgdCall : Type := (Params * Params * Z)%type.

(** Number of backward calls, in a run of calls, that were given an
    optimizer. *)
Definition sgd_supplied {T : Type} (calls : list (T * option Optimizer)) : nat :=
  length (filter (fun c => match snd c with
                           | Some _ => true
                           | None => false
                           end) calls).

(** ** PrecomputableAffine *)

Module PrecomputableAffine.

Record Model : Type := mk_Model {
  id : Z;
  nO : nat;
  nI : nat;
  nF : nat;
  _mem : Memory
}.

Definition W (self : Model) : farray := p_W (weights (_mem self)).
Definition b (self : Model) : farray := p_b (weights (_mem self)).
Definition d_W (self : Model) : farray := p_W (gradient (_mem self)).
Definition d_b (self : Model) : farray := p_b (gradient (_mem self)).

Definition set_mem (self : Model) (m : Memory) : Model :=
  mk_Model (id self) (nO self) (nI self) (nF self) m.

(** The layer's dimensions are resolved: every buffer has its declared
    shape, [W : (nF, nO, nI)] and [b : (nO,)], gradients alike. *)
Definition resolved (self : Model) : Prop :=
  fshape (W self) = [nF self; nO self; nI self] /\ fwf (W self) /\
  fshape (b self) = [nO self] /\ fwf (b self) /\
  fshape (d_W self) = [nF self; nO self; nI self] /\ fwf (d_W self) /\
  fshape (d_b self) = [nO self] /\ fwf (d_b self).

(** The closure [backward] of [begin_update]; it captures the forward input
    [X] and reads the layer's buffers when it is called. *)
Definition backward (X : farray) (dY_ids : farray * ndarray)
    (sgd : option Optimizer) (self : Model)
  : option (farray * Model * list SgdCall) :=
  let (dY, ids) := dY_ids in
  Xf <- ftake X ids ;;
  dXf <- ftensordot dY (W self) [1%nat] [1%nat] ;;
  dW <- ftensordot dY Xf [0%nat] [0%nat] ;;
  dWt <- ftranspose dW [1%nat; 0%nat; 2%nat] ;;
  d_W' <- fiadd (d_W self) dWt ;;
  s <- fsum_axis0 dY ;;
  d_b' <- fiadd (d_b self) s ;;
  let self1 :=
    set_mem self (mk_Memory (weights (_mem self)) (mk_Params d_W' d_b')) in
  match sgd with
  | None => Some (dXf, self1, [])
  | Some update =>
      let w := weights (_mem self1) in
      let g := gradient (_mem self1) in
      let (w', g') := update w g (id self1) in
      Some (dXf, set_mem self1 (mk_Memory w' g'), [(w, g, id self1)])
  end.

Definition Backward : Type :=
  farray * ndarray -> option Optimizer -> Model ->
  option (farray * Model * list SgdCall).

(** [begin_update(self, X, drop=0.)]; the layer does not use [drop]. *)
Definition begin_update (self : Model) (X : farray)
  : option (farray * Backward) :=
  Yf <- ftensordot X (W self) [1%nat] [2%nat] ;;
  Yf' <- fiadd Yf (b self) ;;
  Some (Yf', backward X).

(** A run of backward calls on one layer instance, each with its own
    forward input, gradient, ids and optimizer; the optimizer invocations are
    collected in order. *)
Fixpoint run_backward
    (calls : list (farray * (farray * ndarray) * option Optimizer))
    (self : Model) : option (Model * list SgdCall) :=
  match calls with
  | [] => Some (self, [])
  | (X, dY_ids, sgd) :: rest =>
      r <- backward X dY_ids sgd self ;;
      let '(_, self', log) := r in
      r' <- run_backward rest self' ;;
      let (self'', log') := r' in
      Some (self'', log ++ log')
  end.

End PrecomputableAffine.

(** ** PrecomputableMaxouts *)

Module PrecomputableMaxouts.

Record Model : Type := mk_Model {
  id : Z;
  nO : nat;
  nP : nat;
  nI : nat;
  nF : nat;
  _mem : Memory
}.

Definition W (self : Model) : farray := p_W (weights (_mem self)).
Definition b (self : Model) : farray := p_b (weights (_mem self)).
Definition d_W (self : Model) : farray := p_W (gradient (_mem self)).
Definition d_b (self : Model) : farray := p_b (gradient (_mem self)).

Definition set_mem (self : Model) (m : Memory) : Model :=
  mk_Model (id self) (nO self) (nP self) (nI self) (nF self) m.

Definition backward (X : farray) (dYp_ids : farray * ndarray)
    (sgd : option Optimizer) (self : Model)
  : option (farray * Model * list SgdCall) :=
  let (dYp, ids) := dYp_ids in
  Xf <- ftake X ids ;;
  dXf <- ftensordot dYp (W self) [1%nat; 2%nat] [1%nat; 2%nat] ;;
  dW <- ftensordot dYp Xf [0%nat] [0%nat] ;;
  dWt <- ftranspose dW [2%nat; 0%nat; 1%nat; 3%nat] ;;
  d_W' <- fiadd (d_W self) dWt ;;
  s <- fsum_axis0 dYp ;;
  d_b' <- fiadd (d_b self) s ;;
  let self1 :=
    set_mem self (mk_Memory (weights (_mem self)) (mk_Params d_W' d_b')) in
  match sgd with
  | None => Some (dXf, self1, [])
  | Some update =>
      let w := weights (_mem self1) in
      let g := gradient (_mem self1) in
      let (w', g') := update w g (id self1) in
      Some (dXf, set_mem self1 (mk_Memory w' g'), [(w, g, id self1)])
  end.

Definition Backward : Type :=
  farray * ndarray -> option Optimizer -> Model ->
  option (farray * Model * list SgdCall).

(** [begin_update(self, X, drop=0.)]; the layer does not use [drop]. *)
Definition begin_update (self : Model) (X : farray)
  : option (farray * Backward) :=
  Yfp <- ftensordot X (W self) [1%nat] [3%nat] ;;
  Yfp' <- fiadd Yfp (b self) ;;
  Some (Yfp', backward X).

Fixpoint run_backward
    (calls : list (farray * (farray * ndarray) * option Optimizer))
    (self : Model) : option (Model * list SgdCall) :=
  match calls with
  | [] => Some (self, [])
  | (X, dYp_ids, sgd) :: rest =>
      r <- backward X dYp_ids sgd self ;;
      let '(_, self', log) := r in
      r' <- run_backward rest self' ;;
      let (self'', log') := r' in
      Some (self'', log ++ log')
  end.

End PrecomputableMaxouts.

(** ** Weight initializers

    [ops] is the numeric backend.  Its routine [xavier_uniform_init] fills the
    array it is given in place; the backend is not part of this module, so
    the routine is a field of the backend, given by the contents it leaves in
    its argument.  Each initializer returns the new contents of [W] and the
    list of arrays on which the backend routine was run. *)

Record Ops : Type := mk_Ops {
  xavier_uniform_init : ndarray -> ndarray
}.

(** Modelled from the spec: [ops.xavier_uniform_init(W)] is a routine of the
    numeric backend, which is not part of this module.  Spec 4.1 and 7: a
    weight buffer is initialized by the Xavier-uniform scheme the first time
    its sum of squares is exactly zero; on a buffer that is already non-zero
    the routine is an idempotent no-op and never raises.  [draw] stands for
    the random values the scheme writes. *)
Definition guarded_xavier (draw : ndarray -> ndarray) : Ops :=
  mk_Ops (fun W => if sumsq W =? 0 then draw W else W).

Definition _init_for_precomputed (W : ndarray) (ops : Ops)
  : option (ndarray * list ndarray) :=
  if negb (sumsq W =? 0) then Some (W, [])
  else
    match shape W with
    | s0 :: s1 :: s2 :: _ =>
        reshaped <- reshape W [s1; (s0 * s2)%nat] ;;
        let filled := xavier_uniform_init ops reshaped in
        W' <- reshape filled (shape W) ;;
        Some (W', [reshaped])
    | _ => None
    end.



(** ** Flattening ragged batches

    A batch is a list of sequences; a sequence is a list of rows.  The rows
    themselves are not inspected, so their type is left open; [zero_row] is
    the all-zero row used for padding. *)

Section Flatten.

Context {Row : Type}.
Variable zero_row : Row.

(** Modelled from the spec: [ops.flatten(seqs, pad=pad)] is a routine of the
    numeric backend, which is not part of this module.  Spec 4.3: all
    sub-sequences are concatenated into one buffer in original order, with
    [pad] all-zero rows inserted at the start and at the end of the entire
    buffer (not between sequences) when [pad > 0].  Spec 3 speaks instead of
    padding rows at each sequence boundary; with [pad = 0], the value that
    [flatten] and [rebatch] use, the two descriptions agree. *)
Definition ops_flatten (seqs : list (list Row)) (pad : nat) : list Row :=
  repeat zero_row pad ++ concat seqs ++ repeat zero_row pad.

(** Successive chunks of [X] of the given lengths. *)
Fixpoint split_lengths (X : list Row) (lengths : list nat) : list (list Row) :=
  match lengths with
  | [] => []
  | n :: rest => firstn n X :: split_lengths (skipn n X) rest
  end.

(** Modelled from the spec: [ops.unflatten(X, lengths, pad=pad)] is a routine
    of the numeric backend, which is not part of this module.  Spec 4.3: given
    a flat buffer of identical total length, it is split back into
    per-sequence chunks honoring the captured lengths and the same edge
    padding, preserving the original order.  [None] stands for a buffer of
    another total length. *)
Definition ops_unflatten (X : list Row) (lengths : list nat) (pad : nat)
  : option (list (list Row)) :=
  if (length X =? pad + fold_right Nat.add 0 lengths + pad)%nat
  then Some (split_lengths (skipn pad X) lengths)
  else None.

(** [_flatten_add_lengths(seqs, pad=0, drop=0.)] returns
    [(X, lengths), finish_update]. *)
Definition _flatten_add_lengths (seqs : list (list Row)) (pad : nat)
  : (list Row * list nat) * (list Row -> option (list (list Row))) :=
  let lengths := map (@length Row) seqs in
  let finish_update := fun d_X => ops_unflatten d_X lengths pad in
  let X := ops_flatten seqs pad in
  ((X, lengths), finish_update).

(** [flatten(seqs, drop=0.)] returns [X, finish_update]. *)
Definition flatten (seqs : list (list Row))
  : list Row * (list Row -> option (list (list Row))) :=
  let lengths := map (@length Row) seqs in
  let finish_update := fun d_X => ops_unflatten d_X lengths 0 in
  let X := ops_flatten seqs 0 in
  (X, finish_update).

End Flatten.

(** ** Splitting an array into chunks *)

Section DivideArray.

Context {T : Type}.

(** The [while index < len(X)] loop of [_divide_array]; [fuel] bounds the
    number of iterations and [None] means that it was used up. *)
Fixpoint _divide_array_loop (fuel : nat) (X : list T) (size index : nat)
    (parts : list (list T)) : option (list (list T)) :=
  match fuel with
  | O => None
  | S fuel' =>
      if (index <? length X)%nat then
        _divide_array_loop fuel' X size (index + size)%nat
          (parts ++ [firstn size (skipn index X)])
      else Some parts
  end.

(** [_divide_array(X, size)].  With [size >= 1] the loop body runs at most
    [len(X)] times; with [size = 0] and a non-empty [X] the Python loop does
    not terminate, and the result is [None]. *)
Definition _divide_array (X : list T) (size : nat) : option (list (list T)) :=
  _divide_array_loop (S (length X)) X size 0 [].

End DivideArray.

(** [parts] is a division of [X] into contiguous chunks of [size] items, the
    last one possibly shorter. *)
Definition chunking {T : Type} (size : nat) (X : list T)
    (parts : list (list T)) : Prop :=
  concat parts = X /\
  Forall (fun c => (1 <= length c <= size)%nat) parts /\
  Forall (fun c => length c = size) (removelast parts).

(** ** rebatch *)

(** Python exceptions that matter to [rebatch]; [OtherError] is any other. *)
Inductive exn : Type := TypeError | ValueError | OtherError.

(** What a call of a backward closure does: it returns a value, raises, or
    does not terminate. *)
Inductive outcome (V : Type) : Type :=
| Returns (v : V)
| Raises (e : exn)
| Diverges.

Arguments Returns {V} v.
Arguments Raises {V} e.
Arguments Diverges {V}.

Section Rebatch.

(** [A]: rows of the layer's input, [B]: rows of its output, [St]: whatever
    state the wrapped layer reads and updates, [Drop]: the dropout rate,
    [Sgd]: the optimizer. *)
Context {A B St Drop Sgd : Type}.
Variable zero_B : B.
Variable drop_default : Drop.

(** An input gradient; [None] is Python's [None]. *)
Definition Gradient : Type := option (list A).

Definition Backprop : Type :=
  list B -> option Sgd -> St -> outcome Gradient * St.

Record Layer : Type := mk_Layer {
  begin_update : list A -> Drop -> St -> (list B * Backprop) * St
}.

(** [ops.flatten(d_parts)] on the gradient chunks, some of which may be
    Python's [None]: the backend routine either returns the flat buffer or
    raises.  The backend is not part of this module, so the routine is a
    parameter of [rebatch]. *)
Variable ops_flatten_grads : list Gradient -> exn + list A.

(** [[layer.begin_update(p, drop=drop) for p in parts]], in order. *)
Fixpoint begin_update_parts (layer : Layer) (parts : list (list A))
    (drop : Drop) (st : St) : list (list B * Backprop) * St :=
  match parts with
  | [] => ([], st)
  | p :: rest =>
      let (r, st') := begin_update layer p drop st in
      let (rs, st'') := begin_update_parts layer rest drop st' in
      (r :: rs, st'')
  end.

(** [[bp(y, sgd=sgd) for bp, y in pairs]], in order; an exception raised by
    one of the closures ends the comprehension. *)
Fixpoint call_backprops (pairs : list (Backprop * list B))
    (sgd : option Sgd) (st : St) : outcome (list Gradient) * St :=
  match pairs with
  | [] => (Returns [], st)
  | (bp, y) :: rest =>
      match bp y sgd st with
      | (Returns g, st') =>
          match call_backprops rest sgd st' with
          | (Returns gs, st'') => (Returns (g :: gs), st'')
          | other => other
          end
      | (Raises e, st') => (Raises e, st')
      | (Diverges, st') => (Diverges, st')
      end
  end.

(** The closure [backward] of [rebatch]'s [forward]. *)
Definition rebatch_backward (size : nat) (bp_results : list Backprop)
  : Backprop :=
  fun dy sgd st =>
    match _divide_array dy size with
    | None => (Diverges, st)
    | Some dy_parts =>
        match call_backprops (combine bp_results dy_parts) sgd st with
        | (Returns d_parts, st') =>
            match ops_flatten_grads d_parts with
            | inr dX => (Returns (Some dX), st')
            | inl TypeError => (Returns None, st')
            | inl ValueError => (Returns None, st')
            | inl e => (Raises e, st')
            end
        | (Raises e, st') => (Raises e, st')
        | (Diverges, st') => (Diverges, st')
        end
    end.

(** The [forward] of [rebatch(size, layer)].  On a batch shorter than [size]
    it is [layer.begin_update(X)], called without [drop], hence with the
    default rate.  The result is [None] when the forward produces no
    result: [_divide_array] does not terminate, or there is no part and the
    zipped results cannot be unpacked. *)
Definition rebatch_forward (size : nat) (layer : Layer) (X : list A)
    (drop : Drop) (st : St) : option ((list B * Backprop) * St) :=
  if (length X <? size)%nat then Some (begin_update layer X drop_default st)
  else
    parts <- _divide_array X size ;;
    match parts with
    | [] => None
    | _ :: _ =>
        let (rs, st') := begin_update_parts layer parts drop st in
        let results := map fst rs in
        let bp_results := map snd rs in
        let y := ops_flatten zero_B results 0 in
        Some ((y, rebatch_backward size bp_results), st')
    end.

End Rebatch.

(** Modelled from the spec: [ops.flatten(d_parts)] on gradient chunks some of
    which may be absent; the backend routine is not part of this module.
    Spec 4.4: concatenation of gradient chunks fails when any chunk produced
    no gradient; otherwise the chunks are concatenated in order. *)
Definition ops_flatten_optional {A : Type} (zero_A : A)
    (d_parts : list (option (list A))) : exn + list A :=
  if forallb (fun g => match g with Some _ => true | None => false end) d_parts
  then inr (ops_flatten zero_A
              (flat_map (fun g => match g with Some c => [c] | None => [] end)
                 d_parts) 0)
  else inl ValueError.

(** ** reapply

    Gradients are numpy arrays that are passed by reference and updated in
    place ([dX += dY]), so the arrays live in a heap and values are
    references into it. *)

Definition loc : Type := nat.
Definition Heap : Type := list ndarray.

(** A Python value: [None] or a reference to an array. *)
Definition PyVal : Type := option loc.

Fixpoint heap_set (h : Heap) (l : loc) (v : ndarray) : Heap :=
  match h, l with
  | [], _ => []
  | _ :: h', O => v :: h'
  | a :: h', S l' => a :: heap_set h' l' v
  end.

(** Allocation of a new array object. *)
Definition heap_alloc (h : Heap) (v : ndarray) : loc * Heap :=
  (length h, h ++ [v]).

Section Reapply.

Context {Drop Sgd : Type}.

(** A backward closure takes a reference, may update the heap and returns a
    reference (or Python's [None]); the outer [None] stands for an exception. *)
Definition HBackprop : Type :=
  PyVal -> option Sgd -> Heap -> option (PyVal * Heap).

Record HLayer : Type := mk_HLayer {
  h_begin_update : PyVal -> Drop -> Heap -> option ((PyVal * HBackprop) * Heap)
}.

(** The in-place [dX += dY]. *)
Definition iadd_inplace (dX dY : PyVal) (h : Heap) : option Heap :=
  match dX, dY with
  | Some lx, Some ly =>
      a <- nth_error h lx ;;
      c <- nth_error h ly ;;
      r <- iadd a c ;;
      Some (heap_set h lx r)
  | _, _ => None
  end.

(** The loop of [reapply_bwd] over the closures still to be replayed. *)
Fixpoint reapply_bwd_loop (bps : list HBackprop) (dX dY : PyVal)
    (sgd : option Sgd) (h : Heap) : option (PyVal * Heap) :=
  match bps with
  | [] => Some (dX, h)
  | backprop :: rest =>
      r <- backprop dY sgd h ;;
      let (dY', h') := r in
      match dX with
      | None => reapply_bwd_loop rest dY' dY' sgd h'
      | Some _ =>
          h'' <- iadd_inplace dX dY' h' ;;
          reapply_bwd_loop rest dX dY' sgd h''
      end
  end.

Definition reapply_bwd (backprops : list HBackprop) : HBackprop :=
  fun dY sgd h => reapply_bwd_loop (rev backprops) None dY sgd h.

(** The [for i in range(n_times)] loop of [reapply_fwd]; [Y] is [None] as
    long as the local variable is unbound. *)
Fixpoint reapply_fwd_loop (n : nat) (layer : HLayer) (X : PyVal)
    (Y : option PyVal) (backprops : list HBackprop) (drop : Drop) (h : Heap)
  : option (option PyVal * list HBackprop * Heap) :=
  match n with
  | O => Some (Y, backprops, h)
  | S n' =>
      r <- h_begin_update layer X drop h ;;
      let '((Y', backprop), h') := r in
      reapply_fwd_loop n' layer Y' (Some Y') (backprops ++ [backprop]) drop h'
  end.

(** [reapply(layer, n_times)]'s [reapply_fwd]. *)
Definition reapply_fwd (layer : HLayer) (n_times : nat) (X : PyVal)
    (drop : Drop) (h : Heap) : option ((PyVal * HBackprop) * Heap) :=
  r <- reapply_fwd_loop n_times layer X None [] drop h ;;
  let '(Y, backprops, h') := r in
  match Y with
  | None => None
  | Some y => Some ((y, reapply_bwd backprops), h')
  end.

End Reapply.

(** [print_shape(prefix)]: the forward returns its input, and the backward
    closure [lambda dX, **kwargs: dX] returns the very array it is given. *)
Definition print_shape {Drop Sgd : Type} : @HLayer Drop Sgd :=
  mk_HLayer
    (fun X _ h => Some ((X, (fun dX _ h' => Some (dX, h')) : HBackprop), h)).

(** A backward closure that computes [g] of the gradient it is given into a
    newly allocated array, as a layer does that builds its input gradient
    with array arithmetic. *)
Definition fresh_backprop {Sgd : Type} (g : ndarray -> ndarray)
  : @HBackprop Sgd :=
  fun dY _ h =>
    match dY with
    | Some l =>
        a <- nth_error h l ;;
        let (l', h') := heap_alloc h (g a) in
        Some (Some l', h')
    | None => None
    end.

(** *** [reapply_fwd] as the specification words it

    The layer is applied [n] times in sequence, each application on the
    output of the one before; the backward closures are collected in the
    order of application. *)
Fixpoint apply_in_sequence {Drop Sgd : Type} (n : nat)
    (layer : @HLayer Drop Sgd) (X : PyVal) (drop : Drop) (h : Heap)
  : option (PyVal * list (@HBackprop Sgd) * Heap) :=
  match n with
  | O => Some (X, [], h)
  | S n' =>
      r <- h_begin_update layer X drop h ;;
      let '((Y, backprop), h') := r in
      r' <- apply_in_sequence n' layer Y drop h' ;;
      let '(Z, backprops, h'') := r' in
      Some (Z, backprop :: backprops, h'')
  end.

(** *** [reapply_bwd] on array values, as the specification words it

    The closures are replayed in reverse order, each on the result of the one
    before, and the partial gradients of all replay steps are added up. *)

(** The partial gradients, for closures already in replay order. *)
Fixpoint replay (bps : list (ndarray -> ndarray)) (dY : ndarray)
  : list ndarray :=
  match bps with
  | [] => []
  | bp :: rest => let d := bp dY in d :: replay rest d
  end.

(** Elementwise sum of an accumulator and further partial gradients. *)
Definition accumulate (acc : option ndarray) (ds : list ndarray)
  : option ndarray :=
  fold_left (fun acc d => a <- acc ;; iadd a d) ds acc.

Definition reapply_bwd_spec (bps : list (ndarray -> ndarray)) (dY : ndarray)
  : option ndarray :=
  match replay (rev bps) dY with
  | [] => None
  | d :: rest => accumulate (Some d) rest
  end.

(** ** get_col *)

(** [X[:, idx]] for an array with at least two axes. *)
Definition column (X : ndarray) (idx : nat) : option ndarray :=
  match shape X with
  | r :: c :: rest =>
      if wfb X && (idx <? c)%nat then
        Some (tabulate (r :: rest)
                (fun i => match i with
                          | i0 :: more => get X (i0 :: idx :: more)
                          | [] => 0
                          end))
      else None
  | _ => None
  end.

(** [X[:, idx] += y], the update of the column view written back to [X]. *)
Definition column_iadd (X : ndarray) (idx : nat) (y : ndarray)
  : option ndarray :=
  col <- column X idx ;;
  col' <- iadd col y ;;
  Some (tabulate (shape X)
          (fun i => match i with
                    | i0 :: j :: more =>
                        if (j =? idx)%nat then get col' (i0 :: more)
                        else get X i
                    | _ => 0
                    end)).

Definition get_col_backward (idx : Z) (X : ndarray) (y : ndarray)
  : option ndarray :=
  if negb (0 <=? idx) then None
  else
    let dX := zeros (shape X) in
    column_iadd dX (Z.to_nat idx) y.

Definition get_col_forward (idx : Z) (X : ndarray)
  : option (ndarray * (ndarray -> option ndarray)) :=
  if negb (0 <=? idx) then None
  else
    output <- column X (Z.to_nat idx) ;;
    Some (output, get_col_backward idx X).

(** [get_col(idx)] asserts [idx >= 0] and returns the layer. *)
Definition get_col (idx : Z)
  : option (ndarray -> option (ndarray * (ndarray -> option ndarray))) :=
  if negb (0 <=? idx) then None
  else Some (get_col_forward idx).


(** ** Runs of backward calls without an optimizer *)

(** A backward call, given as forward input, output gradient, [ids] and
    optimizer, fits a layer of dimensions [nI], [nO], [nF], and comes without
    an optimizer. *)
Definition affine_call_ok (nI nO nF : nat)
    (call : farray * (farray * ndarray) * option Optimizer) : Prop :=
  let '(X, (dY, ids), sgd) := call in
  let N := nth 0 (fshape X) 0%nat in
  let B := nth 0 (fshape dY) 0%nat in
  fshape X = [N; nI] /\ fwf X /\
  fshape dY = [B; nO] /\ fwf dY /\
  shape ids = [B; nF] /\ wf ids /\
  Forall (valid_row N) (data ids) /\
  sgd = None.

(** What one backward call adds to [d_b[o]]: [dY[:, o]] summed over the
    batch. *)
Definition call_d_b
    (call : farray * (farray * ndarray) * option Optimizer) (o : nat)
  : float32 :=
  let '(_, (dY, _), _) := call in
  Float32.sum_upto (nth 0 (fshape dY) 0%nat) (fun b => fget dY [b; o]).

(** What one backward call adds to [d_W[f,o,i]]: the inner product over the
    batch of [dY[:, o]] and [X[ids[:, f], i]]. *)
Definition call_d_W
    (call : farray * (farray * ndarray) * option Optimizer)
    (f o i : nat) : float32 :=
  let '(X, (dY, ids), _) := call in
  Float32.dot_upto (nth 0 (fshape dY) 0%nat)
    (fun b => fget dY [b; o])
    (fun b => fget X [row_of (nth 0 (fshape X) 0%nat) (get ids [b; f]); i]).

(** ** PrecomputableMaxouts with resolved dimensions

    Every buffer has its declared shape: [W : (nF, nO, nP, nI)] and
    [b : (nO, nP)], gradients alike. *)
Definition maxouts_resolved (self : PrecomputableMaxouts.Model) : Prop :=
  let nF := PrecomputableMaxouts.nF self in
  let nO := PrecomputableMaxouts.nO self in
  let nP := PrecomputableMaxouts.nP self in
  let nI := PrecomputableMaxouts.nI self in
  fshape (PrecomputableMaxouts.W self) = [nF; nO; nP; nI] /\
  fwf (PrecomputableMaxouts.W self) /\
  fshape (PrecomputableMaxouts.b self) = [nO; nP] /\
  fwf (PrecomputableMaxouts.b self) /\
  fshape (PrecomputableMaxouts.d_W self) = [nF; nO; nP; nI] /\
  fwf (PrecomputableMaxouts.d_W self) /\
  fshape (PrecomputableMaxouts.d_b self) = [nO; nP] /\
  fwf (PrecomputableMaxouts.d_b self).

(** ** Zero initialization *)

Module ZeroInit.

(** [A.fill(v)]: every entry of the array becomes [v]. *)
Definition fill (A : ndarray) (v : Z) : ndarray :=
  mk_ndarray (shape A) (map (fun _ => v) (data A)).

(** A data hook is called as [hook(self, X, y)].  The hooks of this module
    only touch [self.W], so a hook is given by what it does to [W], which is
    [None] as long as the weights are not allocated; the outer [None] stands
    for an exception. *)
Definition Hook : Type := option ndarray -> option (option ndarray).

Record Model : Type := mk_Model {
  W : option ndarray;
  on_data_hooks : list Hook
}.

(** [_zero_init_impl(self, X, y)]: [self.W.fill(0)]. *)
Definition _zero_init_impl : Hook :=
  fun W =>
    match W with
    | Some A => Some (Some (fill A 0))
    | None => None
    end.

(** [_zero_init(model)] registers the hook and zeroes the weights at once
    when they are allocated. *)
Definition _zero_init (model : Model) : Model :=
  let hooks := on_data_hooks model ++ [_zero_init_impl] in
  match W model with
  | Some A => mk_Model (Some (fill A 0)) hooks
  | None => mk_Model None hooks
  end.

(** [zero_init(model)] only registers the hook. *)
Definition zero_init (model : Model) : Model :=
  mk_Model (W model) (on_data_hooks model ++ [_zero_init_impl]).

End ZeroInit.

(** ** numpy.concatenate along the first axis

    The arrays need at least one axis and must agree on all other axes;
    numpy raises ValueError otherwise, and on an empty list of arrays. *)
Definition xp_concatenate (arrs : list ndarray) : option ndarray :=
  match arrs with
  | [] => None
  | first :: _ =>
      match shape first with
      | [] => None
      | _ :: rest =>
          if forallb (fun A => wfb A &&
                               match shape A with
                               | [] => false
                               | _ :: r => list_eqb r rest
                               end) arrs
          then Some (mk_ndarray
                       (fold_right Nat.add 0%nat
                          (map (fun A => hd 0%nat (shape A)) arrs) :: rest)
                       (concat (map data arrs)))
          else None
      end
  end.

(** [[f(x) for x in xs]] for an [f] that may raise. *)
Fixpoint map_option {S T : Type} (f : S -> option T) (xs : list S)
  : option (list T) :=
  match xs with
  | [] => Some []
  | x :: rest =>
      y <- f x ;;
      ys <- map_option f rest ;;
      Some (y :: ys)
  end.

(** ** _preprocess_doc and preprocess_doc *)

Section PreprocessDoc.

(** Documents belong to another module: [to_array doc attrs] is
    [doc.to_array(attrs)], and [LOWER] is the attribute number imported from
    [.attrs]. *)
Context {Doc : Type}.
Variable to_array : Doc -> list Z -> ndarray.
Variable LOWER : Z.

(** [_preprocess_doc(docs, drop=0.)] returns [(keys, vals, lengths), None]. *)
Definition _preprocess_doc (docs : list Doc)
  : option ((ndarray * ndarray * ndarray) * option (ndarray -> ndarray)) :=
  let keys := map (fun doc => to_array doc [LOWER]) docs in
  lengths <- map_option (fun arr => hd_error (shape arr)) keys ;;
  keys' <- xp_concatenate keys ;;
  n <- hd_error (shape keys') ;;
  let vals := mk_ndarray [n] (map (fun x => x + 1) (data (zeros [n]))) in
  Some ((keys', vals,
         mk_ndarray [length lengths] (map Z.of_nat lengths)), None).

(** [preprocess_doc] has the same body. *)
Definition preprocess_doc (docs : list Doc)
  : option ((ndarray * ndarray * ndarray) * option (ndarray -> ndarray)) :=
  let keys := map (fun doc => to_array doc [LOWER]) docs in
  lengths <- map_option (fun arr => hd_error (shape arr)) keys ;;
  keys' <- xp_concatenate keys ;;
  n <- hd_error (shape keys') ;;
  let vals := mk_ndarray [n] (map (fun x => x + 1) (data (zeros [n]))) in
  Some ((keys', vals,
         mk_ndarray [length lengths] (map Z.of_nat lengths)), None).

End PreprocessDoc.

(** ** Vocabulary, vector table, and the layers that read them *)

From Stdlib Require String.

(** A Python dict as the list of its items, with lookup and item
    assignment; [eqb] compares keys. *)
Section Dict.

Context {K V : Type}.
Variable eqb : K -> K -> bool.

Fixpoint dict_get (k : K) (d : list (K * V)) : option V :=
  match d with
  | [] => None
  | (k', v) :: rest => if eqb k' k then Some v else dict_get k rest
  end.

(** [d[k] = v]: the value of an existing key is replaced, a new key is
    added at the end. *)
Fixpoint dict_set (k : K) (v : V) (d : list (K * V)) : list (K * V) :=
  match d with
  | [] => [(k, v)]
  | (k', v') :: rest =>
      if eqb k' k then (k', v) :: rest else (k', v') :: dict_set k v rest
  end.

End Dict.

Module Vocabulary.

Record Lexeme : Type := mk_Lexeme {
  orth : Z;
  rank : nat
}.

(** [vectors.key2row] maps the hash of a word to its row in
    [vectors.data]. *)
Record Vectors : Type := mk_Vectors {
  key2row : list (Z * nat);
  data : ndarray
}.

Record Vocab : Type := mk_Vocab {
  lexemes : list Lexeme;
  vectors : Vectors
}.

(** A document: the [orth] of each of its words, and its vocabulary. *)
Record Doc : Type := mk_Doc {
  words : list Z;
  vocab : Vocab
}.

End Vocabulary.

Section VectorsKey.

Import String.

Definition VECTORS_KEY : String.string := "spacy_pretrained_vectors"%string.

End VectorsKey.

(** Keys of [thinc.extra.load_nlp.VECTORS]: device and name. *)
Definition vkey_eqb (a b : String.string * String.string) : bool :=
  String.eqb (fst a) (fst b) && String.eqb (snd a) (snd b).

(** [link_vectors_to_models(vocab)]: every word's [rank] becomes its row in
    the vector table, 0 for a word without a row, and the table is stored in
    the global [VECTORS] under the backend's device.  Returns the vocabulary
    and [VECTORS] as the call leaves them. *)
Definition link_vectors_to_models (ops_device : String.string)
    (vocab : Vocabulary.Vocab)
    (VECTORS : list ((String.string * String.string) * ndarray))
  : Vocabulary.Vocab * list ((String.string * String.string) * ndarray) :=
  let vectors := Vocabulary.vectors vocab in
  let lexemes :=
    map (fun word =>
           match dict_get Z.eqb (Vocabulary.orth word)
                   (Vocabulary.key2row vectors) with
           | Some row => Vocabulary.mk_Lexeme (Vocabulary.orth word) row
           | None => Vocabulary.mk_Lexeme (Vocabulary.orth word) 0
           end) (Vocabulary.lexemes vocab) in
  let data := Vocabulary.data vectors in
  (Vocabulary.mk_Vocab lexemes vectors,
   dict_set vkey_eqb (ops_device, VECTORS_KEY) data VECTORS).

(** [SpacyVectors(docs, drop=0.)] returns [batch, None]: for every document
    the rows of its vector table that its words select, row 0 for a word
    without a row.  The index array has 32-bit entries; row numbers are
    taken to fit. *)
Definition SpacyVectors (docs : list Vocabulary.Doc)
  : option (list ndarray * option (list ndarray -> list ndarray)) :=
  batch <- map_option
             (fun doc =>
                let vectors := Vocabulary.vectors (Vocabulary.vocab doc) in
                let indices :=
                  mk_ndarray [length (Vocabulary.words doc)]
                    (map (fun orth =>
                            match dict_get Z.eqb orth
                                    (Vocabulary.key2row vectors) with
                            | Some row => Z.of_nat row
                            | None => 0
                            end) (Vocabulary.words doc)) in
                take (Vocabulary.data vectors) indices)
             docs ;;
  Some (batch, None).

(** The row of the vector table that stands for a word: its row in
    [key2row], row 0 for a word without one. *)
Definition row_of_word (vectors : Vocabulary.Vectors) (orth : Z) : nat :=
  match dict_get Z.eqb orth (Vocabulary.key2row vectors) with
  | Some row => row
  | None => 0%nat
  end.

(** A vector table with [R >= 1] rows of width [w] whose [key2row] only
    names rows of the table. *)
Definition table_ok (vectors : Vocabulary.Vectors) (R w : nat) : Prop :=
  shape (Vocabulary.data vectors) = [R; w] /\
  wf (Vocabulary.data vectors) /\
  (1 <= R)%nat /\
  Forall (fun item => (snd item < R)%nat) (Vocabulary.key2row vectors).

(** ** Concrete layers and inputs *)

Module Examples.

(** The float32 array of the given shape that holds the given integers. *)
Definition f32 (sh : list nat) (l : list Z) : farray :=
  mk_farray sh (map Float32.of_Z l).

(** A layer with [feature_count = 4], [output_width = 6], [input_width = 3],
    an all-zero weight buffer and bias [10, 20, ..., 60]. *)
Definition affine_zero : PrecomputableAffine.Model :=
  PrecomputableAffine.mk_Model 7 6 3 4
    (mk_Memory
       (mk_Params (fzeros [4; 6; 3]%nat)
                  (f32 [6%nat] [10; 20; 30; 40; 50; 60]))
       (mk_Params (fzeros [4; 6; 3]%nat) (fzeros [6%nat]))).

Definition X_2x3 : ndarray := mk_ndarray [2; 3]%nat [1; 2; 3; 4; 5; 6].

(** The same input as a float32 array. *)
Definition X32_2x3 : farray := f32 [2; 3]%nat [1; 2; 3; 4; 5; 6].

(** An input with an infinite entry. *)
Definition X_inf : farray :=
  mk_farray [1; 3]%nat [Float32.inf; Float32.zero; Float32.zero].

(** A layer with [nF = 2], [nO = 2], [nI = 3] and non-zero buffers. *)
Definition affine_small : PrecomputableAffine.Model :=
  PrecomputableAffine.mk_Model 11 2 3 2
    (mk_Memory
       (mk_Params (f32 [2; 2; 3]%nat [1; 0; 0; 0; 1; 0; 0; 0; 1; 1; 1; 1])
                  (f32 [2%nat] [10; 20]))
       (mk_Params (f32 [2; 2; 3]%nat [1; 1; 1; 1; 1; 1; 1; 1; 1; 1; 1; 1])
                  (f32 [2%nat] [5; 5]))).

Definition dY32_2x2 : farray := f32 [2; 2]%nat [1; 2; 3; 4].

Definition ids_2x2 : ndarray := mk_ndarray [2; 2]%nat [0; 1; -1; 0].

(** A layer with one feature, one output and one input whose bias gradient
    has reached [2^24 = 16777216], where float32 numbers are 2 apart. *)
Definition affine_large_gradient : PrecomputableAffine.Model :=
  PrecomputableAffine.mk_Model 13 1 1 1
    (mk_Memory
       (mk_Params (f32 [1; 1; 1]%nat [1]) (f32 [1%nat] [0]))
       (mk_Params (f32 [1; 1; 1]%nat [0]) (f32 [1%nat] [16777216]))).

(** A maxout layer with [nF = 2], [nO = 2], [nP = 2], [nI = 3]. *)
Definition maxouts_small : PrecomputableMaxouts.Model :=
  PrecomputableMaxouts.mk_Model 12 2 2 3 2
    (mk_Memory
       (mk_Params (ftabulate [2; 2; 2; 3]%nat
                     (fun idx =>
                        Float32.of_Z
                          (Z.of_nat (nth 0 idx 0 + nth 3 idx 0)%nat)))
                  (f32 [2; 2]%nat [1; 2; 3; 4]))
       (mk_Params (fzeros [2; 2; 2; 3]%nat) (fzeros [2; 2]%nat))).

Definition dYp32_2x2x2 : farray :=
  f32 [2; 2; 2]%nat [1; 2; 3; 4; 5; 6; 7; 8].

(** An optimizer that adds the gradient to the weights and clears the
    gradient buffer. *)
Definition sgd_step : Optimizer :=
  fun w g _ =>
    let upd := fun A G =>
      mk_farray (fshape A)
        (map (fun p => Float32.add (fst p) (snd p))
           (combine (fdata A) (fdata G))) in
    (mk_Params (upd (p_W w) (p_W g)) (upd (p_b w) (p_b g)),
     mk_Params (fzeros (fshape (p_W g))) (fzeros (fshape (p_b g)))).

(** A backend whose Xavier routine, under the guard the spec gives it,
    overwrites a buffer whose sum of squares is zero with samples from
    [-1, 1]. *)
Definition ops_sampling : Ops :=
  guarded_xavier
    (fun A =>
       mk_ndarray (shape A)
         (map (fun i => Z.of_nat (i mod 3) - 1) (seq 1 (length (data A))))).

(** Weight buffers that have been trained: not all zero. *)
Definition W_trained_3d : ndarray := mk_ndarray [1; 2; 1]%nat [5; 7].

(** A layer without parameters that doubles every item; its state counts
    the forward calls, and its backward doubles the gradient. *)
Definition doubling_layer : @Layer Z Z nat unit unit :=
  mk_Layer
    (fun X _ calls =>
       ((map (Z.mul 2) X,
         fun dY _ st => (Returns (Some (map (Z.mul 2) dY)), st)),
        S calls)).

(** A layer with no trainable input path: its backward returns [None]. *)
Definition no_gradient_layer : @Layer Z Z nat unit unit :=
  mk_Layer
    (fun X _ calls =>
       ((map (Z.mul 2) X, fun _ _ st => (Returns None, st)), S calls)).

(** The forward input and the output gradient of a repeated layer. *)
Definition X_vec : ndarray := mk_ndarray [2%nat] [9; 9].
Definition dY_vec : ndarray := mk_ndarray [2%nat] [1; 1].

End Examples.

(** ** More concrete layers and inputs *)

Module MoreExamples.

(** Doubling of every entry of an array. *)
Definition double (a : ndarray) : ndarray :=
  mk_ndarray (shape a) (map (Z.mul 2) (data a)).

(** A layer on heap arrays that writes the double of its input into a new
    array; its backward does the same with the gradient. *)
Definition doubling_hlayer : @HLayer unit unit :=
  mk_HLayer
    (fun X _ h =>
       match X with
       | Some l =>
           a <- nth_error h l ;;
           let (l', h') := heap_alloc h (double a) in
           Some ((Some l', fresh_backprop double), h')
       | None => None
       end).

End MoreExamples.

Module TableExamples.

(** A vector table with three rows of width 2; the words 100 and 200 have
    rows 1 and 2, row 0 belongs to the word 50. *)
Definition vectors3 : Vocabulary.Vectors :=
  Vocabulary.mk_Vectors [(50, 0%nat); (100, 1%nat); (200, 2%nat)]
    (mk_ndarray [3; 2]%nat [1; 2; 3; 4; 5; 6]).

Definition vocab3 : Vocabulary.Vocab :=
  Vocabulary.mk_Vocab
    [Vocabulary.mk_Lexeme 200 7; Vocabulary.mk_Lexeme 999 7;
     Vocabulary.mk_Lexeme 50 7]
    vectors3.

(** A document of three words, the second one without a row. *)
Definition doc3 : Vocabulary.Doc := Vocabulary.mk_Doc [200; 999; 100] vocab3.


(** Documents given by the column of their [LOWER] values. *)
Definition lower_column (doc : list Z) (attrs : list Z) : ndarray :=
  mk_ndarray [length doc; length attrs] doc.

End TableExamples.
(** * Properties *)

(** ** The array model *)

Lemma length_indices (sh : list nat) : length (indices sh) = size sh.
Proof.
  induction sh as [|n sh IH]; simpl; [reflexivity|].
  generalize 0%nat as start.
  induction n as [|n IHn]; intros start; simpl; [reflexivity|].
  rewrite length_app, length_map, IH, IHn. reflexivity.
Qed.

Lemma nth_flat_map_seq {T : Type} (h : nat -> list T) (m : nat) (d : T) :
  (forall k, length (h k) = m) ->
  forall n start i j, (i < n)%nat -> (j < m)%nat ->
    nth (i * m + j) (flat_map h (seq start n)) d = nth j (h (start + i)%nat) d.
Proof.
  intros Hlen n.
  induction n as [|n IH]; intros start i j Hi Hj; [lia|].
  simpl. destruct i as [|i].
  - simpl. rewrite app_nth1 by (rewrite Hlen; exact Hj).
    rewrite Nat.add_0_r. reflexivity.
  - rewrite app_nth2 by (rewrite Hlen; simpl; lia).
    rewrite Hlen.
    replace (S i * m + j - m)%nat with (i * m + j)%nat by (simpl; lia).
    rewrite IH by lia.
    replace (S start + i)%nat with (start + S i)%nat by lia. reflexivity.
Qed.

Lemma ravel_lt (sh idx : list nat) :
  in_range sh idx -> (ravel sh idx < size sh)%nat.
Proof.
  revert idx.
  induction sh as [|n sh IH]; intros [|i idx] H; simpl in *; try tauto.
  - unfold size. simpl. lia.
  - destruct H as [Hi H]. specialize (IH idx H).
    change (size (n :: sh)) with (n * size sh)%nat. nia.
Qed.

Lemma nth_indices (sh idx d : list nat) :
  in_range sh idx -> nth (ravel sh idx) (indices sh) d = idx.
Proof.
  revert idx.
  induction sh as [|n sh IH]; intros [|i idx] H; simpl in *; try tauto.
  destruct H as [Hi H].
  rewrite (nth_flat_map_seq _ (size sh)).
  - simpl.
    rewrite (nth_indep _ d (i :: d)) by
      (rewrite length_map, length_indices; apply ravel_lt; exact H).
    rewrite (map_nth (cons i)). rewrite IH by exact H. reflexivity.
  - intros k. rewrite length_map. apply length_indices.
  - exact Hi.
  - apply ravel_lt. exact H.
Qed.

Lemma shape_tabulate (sh : list nat) (g : list nat -> Z) :
  shape (tabulate sh g) = sh.
Proof. reflexivity. Qed.

Lemma wf_tabulate (sh : list nat) (g : list nat -> Z) : wf (tabulate sh g).
Proof.
  unfold wf, tabulate. simpl. rewrite length_map. apply length_indices.
Qed.

Lemma get_tabulate (sh : list nat) (g : list nat -> Z) (idx : list nat) :
  in_range sh idx -> get (tabulate sh g) idx = g idx.
Proof.
  intros H. unfold get, tabulate. simpl.
  rewrite (nth_indep _ 0 (g idx)) by
    (rewrite length_map, length_indices; apply ravel_lt; exact H).
  rewrite (map_nth g). rewrite nth_indices by exact H. reflexivity.
Qed.

Lemma wfb_wf (A : ndarray) : wf A -> wfb A = true.
Proof. intros H. unfold wfb. apply Nat.eqb_eq. exact H. Qed.

Lemma wfb_tabulate (sh : list nat) (g : list nat -> Z) :
  wfb (tabulate sh g) = true.
Proof. apply wfb_wf, wf_tabulate. Qed.

Lemma list_eqb_refl (l : list nat) : list_eqb l l = true.
Proof.
  induction l as [|x l IH]; simpl; [reflexivity|].
  rewrite Nat.eqb_refl. exact IH.
Qed.

Lemma indices_1 (n : nat) : indices [n] = map (fun i => [i]) (seq 0 n).
Proof.
  simpl. generalize 0%nat as start.
  induction n as [|n IH]; intros start; simpl; [reflexivity|].
  rewrite IH. reflexivity.
Qed.

Lemma sum_upto_ext (n : nat) (f g : nat -> Z) :
  (forall i, (i < n)%nat -> f i = g i) -> sum_upto n f = sum_upto n g.
Proof.
  intros H. unfold sum_upto. f_equal. apply map_ext_in.
  intros i Hi. apply in_seq in Hi. apply H. lia.
Qed.

Lemma sum_upto_zero (n : nat) : sum_upto n (fun _ => 0) = 0.
Proof.
  unfold sum_upto, sumZ. generalize 0%nat as start.
  induction n as [|n IH]; intros start; simpl; [reflexivity|].
  rewrite IH. reflexivity.
Qed.

(** *** Broadcasting and row numbers *)

Lemma bcast_okb_refl (sh : list nat) : bcast_okb sh sh = true.
Proof.
  induction sh as [|d sh IH]; simpl; [reflexivity|].
  rewrite Nat.eqb_refl. exact IH.
Qed.

Lemma bcast_index_same (sh idx : list nat) :
  in_range sh idx -> bcast_index sh idx = idx.
Proof.
  revert idx.
  induction sh as [|d sh IH]; intros [|i idx] H; simpl in *; try tauto.
  destruct H as [Hi H]. rewrite IH by exact H.
  destruct (d =? 1)%nat eqn:E; [|reflexivity].
  apply Nat.eqb_eq in E. f_equal. lia.
Qed.

(** [A += B] for two arrays of the same shape. *)
Lemma iadd_same_shape (A B : ndarray) :
  shape B = shape A -> wf A -> wf B ->
  exists C, iadd A B = Some C /\ shape C = shape A /\ wf C /\
    forall idx, in_range (shape A) idx -> get C idx = get A idx + get B idx.
Proof.
  intros HB HwA HwB.
  unfold iadd. rewrite (wfb_wf _ HwA), (wfb_wf _ HwB), HB.
  rewrite Nat.sub_diag, Nat.leb_refl. simpl.
  rewrite bcast_okb_refl. simpl.
  eexists. split; [reflexivity|].
  split; [reflexivity|]. split; [apply wf_tabulate|].
  intros idx Hidx.
  rewrite get_tabulate by exact Hidx.
  rewrite bcast_index_same by exact Hidx. reflexivity.
Qed.

Lemma norm_index_valid (n : nat) (k : Z) :
  valid_row n k -> exists r, norm_index n k = Some r /\ (r < n)%nat.
Proof.
  unfold valid_row, norm_index. intros H.
  destruct (0 <=? k) eqn:E0; simpl.
  - apply Z.leb_le in E0.
    assert (E1 : (k <? Z.of_nat n) = true) by (apply Z.ltb_lt; lia).
    rewrite E1. eexists. split; [reflexivity|]. lia.
  - apply Z.leb_gt in E0.
    assert (E1 : (- Z.of_nat n <=? k) = true) by (apply Z.leb_le; lia).
    assert (E2 : (k <? 0) = true) by (apply Z.ltb_lt; lia).
    rewrite E1, E2. simpl. eexists. split; [reflexivity|]. lia.
Qed.

(** ** float32 *)

(** A product with a zero is a zero, unless the other factor is an infinity
    or NaN. *)
Lemma mul_finite_zero (x w : float32) :
  Float32.is_finite x = true -> Float32.is_zero w = true ->
  Float32.is_zero (Float32.mul x w) = true.
Proof.
  destruct x as [sx|sx| |sx mx ex], w as [sw|sw| |sw mw ew];
    simpl; intros Hx Hw; try discriminate; reflexivity.
Qed.

(** Adding a zero to the zero of an accumulator leaves it. *)
Lemma add_zero_is_zero (z : float32) :
  Float32.is_zero z = true -> Float32.add Float32.zero z = Float32.zero.
Proof.
  destruct z as [[|]|s| |s m e]; simpl; intros H; try discriminate;
    reflexivity.
Qed.

(** Adding to zero gives the same number. *)
Lemma add_zero_same (y : float32) :
  Float32.same (Float32.add Float32.zero y) y.
Proof.
  destruct y as [[|]|s| |s m e]; unfold Float32.same.
  - right. split; reflexivity.
  - left. reflexivity.
  - left. reflexivity.
  - left. reflexivity.
  - left. reflexivity.
Qed.

(** The inner product of finite numbers with zeros is zero. *)
Lemma dot_zero_weights (xs ws : list float32) :
  Forall (fun x => Float32.is_finite x = true) xs ->
  Forall (fun w => Float32.is_zero w = true) ws ->
  Float32.dot xs ws = Float32.zero.
Proof.
  unfold Float32.dot. revert ws.
  induction xs as [|x xs IH]; intros ws Hx Hw; [reflexivity|].
  destruct ws as [|w ws]; [reflexivity|].
  simpl.
  rewrite add_zero_is_zero.
  - apply IH; [exact (Forall_inv_tail Hx) | exact (Forall_inv_tail Hw)].
  - apply mul_finite_zero; [exact (Forall_inv Hx) | exact (Forall_inv Hw)].
Qed.

Lemma dot_upto_ext (n : nat) (x x' y y' : nat -> float32) :
  (forall i, (i < n)%nat -> x i = x' i) ->
  (forall i, (i < n)%nat -> y i = y' i) ->
  Float32.dot_upto n x y = Float32.dot_upto n x' y'.
Proof.
  intros Hx Hy. unfold Float32.dot_upto. f_equal.
  - apply map_ext_in. intros i Hi. apply in_seq in Hi. apply Hx. lia.
  - apply map_ext_in. intros i Hi. apply in_seq in Hi. apply Hy. lia.
Qed.

Lemma dot_indices_1 (n : nat) (x y : list nat -> float32) :
  Float32.dot (map x (indices [n])) (map y (indices [n]))
  = Float32.dot_upto n (fun i => x [i]) (fun i => y [i]).
Proof.
  unfold Float32.dot_upto. rewrite indices_1, !map_map. reflexivity.
Qed.

(** ** float32 arrays *)

Lemma fwf_ftabulate (sh : list nat) (g : list nat -> float32) :
  fwf (ftabulate sh g).
Proof.
  unfold fwf, ftabulate. simpl. rewrite length_map. apply length_indices.
Qed.

Lemma fget_ftabulate (sh : list nat) (g : list nat -> float32)
    (idx : list nat) :
  in_range sh idx -> fget (ftabulate sh g) idx = g idx.
Proof.
  intros H. unfold fget, ftabulate. simpl.
  rewrite (nth_indep _ Float32.zero (g idx)) by
    (rewrite length_map, length_indices; apply ravel_lt; exact H).
  rewrite (map_nth g). rewrite nth_indices by exact H. reflexivity.
Qed.

Lemma fwfb_fwf (A : farray) : fwf A -> fwfb A = true.
Proof. intros H. unfold fwfb. apply Nat.eqb_eq. exact H. Qed.

(** Reading an array of finite numbers gives a finite number, and reading
    an array of zeros a zero. *)
Lemma fget_finite (A : farray) (idx : list nat) :
  Forall (fun x => Float32.is_finite x = true) (fdata A) ->
  Float32.is_finite (fget A idx) = true.
Proof.
  intros H. unfold fget.
  destruct (nth_in_or_default (ravel (fshape A) idx) (fdata A) Float32.zero)
    as [Hin|Hd]; [|rewrite Hd; reflexivity].
  rewrite Forall_forall in H. apply H. exact Hin.
Qed.

Lemma fget_zero (A : farray) (idx : list nat) :
  Forall (fun x => Float32.is_zero x = true) (fdata A) ->
  Float32.is_zero (fget A idx) = true.
Proof.
  intros H. unfold fget.
  destruct (nth_in_or_default (ravel (fshape A) idx) (fdata A) Float32.zero)
    as [Hin|Hd]; [|rewrite Hd; reflexivity].
  rewrite Forall_forall in H. apply H. exact Hin.
Qed.

(** *** The contractions and updates used by the layers *)

(** [tensordot(X, W, axes=[[1], [2]])] with [X : (B, nI)], [W : (nF, nO, nI)]. *)
Lemma tensordot_bi_foi (X W : farray) (B nF nO nI : nat) :
  fshape X = [B; nI] -> fwf X -> fshape W = [nF; nO; nI] -> fwf W ->
  exists Y, ftensordot X W [1%nat] [2%nat] = Some Y /\
    fshape Y = [B; nF; nO] /\ fwf Y /\
    forall b f o, (b < B)%nat -> (f < nF)%nat -> (o < nO)%nat ->
      fget Y [b; f; o]
      = Float32.dot_upto nI (fun i => fget X [b; i])
          (fun i => fget W [f; o; i]).
Proof.
  intros HX HwX HW HwW.
  unfold ftensordot, fndim.
  rewrite (fwfb_fwf _ HwX), (fwfb_fwf _ HwW), HX, HW.
  cbn. rewrite Nat.eqb_refl. cbn.
  eexists. split; [reflexivity|].
  split; [reflexivity|]. split; [apply fwf_ftabulate|].
  intros b f o Hb Hf Ho.
  rewrite fget_ftabulate by (simpl; auto).
  cbn.
  apply (dot_indices_1 nI
           (fun k => fget X [b; nth 0 k 0%nat])
           (fun k => fget W [f; o; nth 0 k 0%nat])).
Qed.

(** [Yf += b] with [Yf : (B, nF, nO)] and [b : (nO,)]. *)
Lemma iadd_bias (A b : farray) (B nF nO : nat) :
  fshape A = [B; nF; nO] -> fwf A -> fshape b = [nO] -> fwf b ->
  exists C, fiadd A b = Some C /\ fshape C = [B; nF; nO] /\ fwf C /\
    forall x f o, (x < B)%nat -> (f < nF)%nat -> (o < nO)%nat ->
      fget C [x; f; o] = Float32.add (fget A [x; f; o]) (fget b [o]).
Proof.
  intros HA HwA Hb Hwb.
  unfold fiadd. rewrite (fwfb_fwf _ HwA), (fwfb_fwf _ Hwb), HA, Hb.
  cbn. rewrite Nat.eqb_refl. cbn.
  eexists. split; [reflexivity|].
  split; [reflexivity|]. split; [apply fwf_ftabulate|].
  intros x f o Hx Hf Ho.
  rewrite fget_ftabulate by (simpl; auto).
  cbn. destruct (nO =? 1)%nat eqn:E; [|reflexivity].
  apply Nat.eqb_eq in E. replace o with 0%nat by lia. reflexivity.
Qed.

(** ** PrecomputableAffine: forward *)

(** The forward pass, entry by entry. *)
Lemma affine_forward_entries (self : PrecomputableAffine.Model)
    (X : farray) (B : nat) :
  PrecomputableAffine.resolved self ->
  fshape X = [B; PrecomputableAffine.nI self] -> fwf X ->
  exists Y,
    PrecomputableAffine.begin_update self X
    = Some (Y, PrecomputableAffine.backward X) /\
    fshape Y = [B; PrecomputableAffine.nF self; PrecomputableAffine.nO self] /\
    fwf Y /\
    forall b f o,
      (b < B)%nat -> (f < PrecomputableAffine.nF self)%nat ->
      (o < PrecomputableAffine.nO self)%nat ->
      fget Y [b; f; o] =
      Float32.add
        (Float32.dot_upto (PrecomputableAffine.nI self)
           (fun i => fget X [b; i])
           (fun i => fget (PrecomputableAffine.W self) [f; o; i]))
        (fget (PrecomputableAffine.b self) [o]).
Proof.
  intros (HW & HwW & Hb & Hwb & _) HX HwX.
  destruct (tensordot_bi_foi X (PrecomputableAffine.W self) B _ _ _
              HX HwX HW HwW)
    as (Yf & HYf & HsYf & HwYf & HgYf).
  destruct (iadd_bias Yf (PrecomputableAffine.b self) B _ _ HsYf HwYf Hb Hwb)
    as (Y & HY & HsY & HwY & HgY).
  exists Y.
  split.
  { unfold PrecomputableAffine.begin_update. rewrite HYf. simpl.
    rewrite HY. reflexivity. }
  split; [exact HsY|]. split; [exact HwY|].
  intros b f o Hb' Hf Ho.
  rewrite HgY, HgYf by assumption. reflexivity.
Qed.

(** C1, as the code has it.  For a layer with resolved dimensions and a
    float32 input [X] of shape [(B, nI)], [begin_update] returns [Y] of shape
    [(B, nF, nO)] whose entry [Y[b,f,o]] is the inner product of [X[b,:]] and
    [W[f,o,:]], accumulated in float32, plus [bias[o]], the addition rounded
    to float32.  When the weight buffer is all zero and every entry of [X] is
    finite, [Y[b,f,o]] is the number [bias[o]]. *)
Theorem affine_forward_contraction (self : PrecomputableAffine.Model)
    (X : farray) (B : nat) :
  PrecomputableAffine.resolved self ->
  fshape X = [B; PrecomputableAffine.nI self] -> fwf X ->
  exists Y bwd,
    PrecomputableAffine.begin_update self X = Some (Y, bwd) /\
    fshape Y = [B; PrecomputableAffine.nF self; PrecomputableAffine.nO self] /\
    fwf Y /\
    (forall b f o,
        (b < B)%nat -> (f < PrecomputableAffine.nF self)%nat ->
        (o < PrecomputableAffine.nO self)%nat ->
        fget Y [b; f; o] =
        Float32.add
          (Float32.dot_upto (PrecomputableAffine.nI self)
             (fun i => fget X [b; i])
             (fun i => fget (PrecomputableAffine.W self) [f; o; i]))
          (fget (PrecomputableAffine.b self) [o])) /\
    (Forall (fun w => Float32.is_zero w = true)
       (fdata (PrecomputableAffine.W self)) ->
     Forall (fun x => Float32.is_finite x = true) (fdata X) ->
     forall b f o,
        (b < B)%nat -> (f < PrecomputableAffine.nF self)%nat ->
        (o < PrecomputableAffine.nO self)%nat ->
        Float32.same (fget Y [b; f; o])
          (fget (PrecomputableAffine.b self) [o])).
Proof.
  intros Hres HX HwX.
  destruct (affine_forward_entries self X B Hres HX HwX)
    as (Y & HY & HsY & HwY & Hget).
  exists Y, (PrecomputableAffine.backward X).
  split; [exact HY|].
  split; [exact HsY|]. split; [exact HwY|]. split; [exact Hget|].
  intros Hzero Hfin b f o Hb' Hf Ho.
  rewrite Hget by assumption.
  unfold Float32.dot_upto. rewrite dot_zero_weights.
  - apply add_zero_same.
  - apply Forall_forall. intros x Hx. apply in_map_iff in Hx.
    destruct Hx as (i & <- & _). apply fget_finite. exact Hfin.
  - apply Forall_forall. intros w Hw'. apply in_map_iff in Hw'.
    destruct Hw' as (i & <- & _). apply fget_zero. exact Hzero.
Qed.

Lemma affine_forward_contraction_witness :
  PrecomputableAffine.resolved Examples.affine_zero /\
  fshape Examples.X32_2x3 = [2%nat; PrecomputableAffine.nI Examples.affine_zero] /\
  fwf Examples.X32_2x3 /\
  exists Y bwd,
    PrecomputableAffine.begin_update Examples.affine_zero Examples.X32_2x3
    = Some (Y, bwd) /\
    fshape Y = [2%nat; 4%nat; 6%nat] /\ fwf Y /\
    (forall b f o,
        (b < 2)%nat -> (f < 4)%nat -> (o < 6)%nat ->
        fget Y [b; f; o] =
        Float32.add
          (Float32.dot_upto 3
             (fun i => fget Examples.X32_2x3 [b; i])
             (fun i => fget (PrecomputableAffine.W Examples.affine_zero)
                         [f; o; i]))
          (fget (PrecomputableAffine.b Examples.affine_zero) [o])) /\
    (Forall (fun w => Float32.is_zero w = true)
       (fdata (PrecomputableAffine.W Examples.affine_zero)) ->
     Forall (fun x => Float32.is_finite x = true) (fdata Examples.X32_2x3) ->
     forall b f o,
        (b < 2)%nat -> (f < 4)%nat -> (o < 6)%nat ->
        Float32.same (fget Y [b; f; o])
          (fget (PrecomputableAffine.b Examples.affine_zero) [o])).
Proof.
  assert (Hr : PrecomputableAffine.resolved Examples.affine_zero)
    by (repeat split; reflexivity).
  assert (Hs : fshape Examples.X32_2x3
               = [2%nat; PrecomputableAffine.nI Examples.affine_zero])
    by reflexivity.
  assert (Hw : fwf Examples.X32_2x3) by reflexivity.
  split; [exact Hr|]. split; [exact Hs|]. split; [exact Hw|].
  exact (affine_forward_contraction Examples.affine_zero Examples.X32_2x3 2
           Hr Hs Hw).
Defined.

(** The claim as the spec states it, with an all-zero weight buffer and any
    input, fails on an input with an infinite entry: the layer
    [affine_zero] has resolved dimensions and zero weights, the input
    [[inf, 0, 0]] has the shape the layer expects, and the output entry
    [Y[0,0,0]] is NaN where the bias is 10. *)
Lemma affine_zero_weights_infinite_input :
  PrecomputableAffine.resolved Examples.affine_zero /\
  fshape Examples.X_inf = [1%nat; PrecomputableAffine.nI Examples.affine_zero] /\
  fwf Examples.X_inf /\
  Forall (fun w => Float32.is_zero w = true)
    (fdata (PrecomputableAffine.W Examples.affine_zero)) /\
  exists Y bwd,
    PrecomputableAffine.begin_update Examples.affine_zero Examples.X_inf
    = Some (Y, bwd) /\
    fget Y [0; 0; 0]%nat = Float32.nan /\
    fget (PrecomputableAffine.b Examples.affine_zero) [0%nat]
    = Float32.of_Z 10 /\
    ~ Float32.same (fget Y [0; 0; 0]%nat)
        (fget (PrecomputableAffine.b Examples.affine_zero) [0%nat]).
Proof.
  assert (Hr : PrecomputableAffine.resolved Examples.affine_zero)
    by (repeat split; reflexivity).
  split; [exact Hr|].
  split; [reflexivity|]. split; [reflexivity|].
  split; [vm_compute; repeat constructor|].
  destruct (affine_forward_entries Examples.affine_zero Examples.X_inf 1
              Hr eq_refl eq_refl)
    as (Y & HY & _ & _ & Hget).
  exists Y, (PrecomputableAffine.backward Examples.X_inf).
  split; [exact HY|].
  assert (HY0 : fget Y [0; 0; 0]%nat = Float32.nan).
  { rewrite Hget by (simpl; lia). vm_compute. reflexivity. }
  split; [exact HY0|]. split; [reflexivity|].
  rewrite HY0. intros [H|[H _]]; vm_compute in H; discriminate H.
Qed.

(** ** PrecomputableAffine: backward *)

(** [tensordot(dY, W, axes=[[1], [1]])] with [dY : (B, nO)],
    [W : (nF, nO, nI)]. *)
Lemma tensordot_bo_foi (dY W : farray) (B nF nO nI : nat) :
  fshape dY = [B; nO] -> fwf dY -> fshape W = [nF; nO; nI] -> fwf W ->
  exists D, ftensordot dY W [1%nat] [1%nat] = Some D /\
    fshape D = [B; nF; nI] /\ fwf D /\
    forall b f i, (b < B)%nat -> (f < nF)%nat -> (i < nI)%nat ->
      fget D [b; f; i]
      = Float32.dot_upto nO (fun o => fget dY [b; o])
          (fun o => fget W [f; o; i]).
Proof.
  intros HX HwX HW HwW.
  unfold ftensordot, fndim.
  rewrite (fwfb_fwf _ HwX), (fwfb_fwf _ HwW), HX, HW.
  cbn. rewrite Nat.eqb_refl. cbn.
  eexists. split; [reflexivity|].
  split; [reflexivity|]. split; [apply fwf_ftabulate|].
  intros b f i Hb Hf Hi.
  rewrite fget_ftabulate by (simpl; auto).
  cbn.
  apply (dot_indices_1 nO
           (fun k => fget dY [b; nth 0 k 0%nat])
           (fun k => fget W [f; nth 0 k 0%nat; i])).
Qed.

(** [tensordot(dY, Xf, axes=[[0], [0]])] with [dY : (B, nO)],
    [Xf : (B, nF, nI)]. *)
Lemma tensordot_bo_bfi (dY Xf : farray) (B nF nO nI : nat) :
  fshape dY = [B; nO] -> fwf dY -> fshape Xf = [B; nF; nI] -> fwf Xf ->
  exists D, ftensordot dY Xf [0%nat] [0%nat] = Some D /\
    fshape D = [nO; nF; nI] /\ fwf D /\
    forall o f i, (o < nO)%nat -> (f < nF)%nat -> (i < nI)%nat ->
      fget D [o; f; i]
      = Float32.dot_upto B (fun b => fget dY [b; o])
          (fun b => fget Xf [b; f; i]).
Proof.
  intros HX HwX HW HwW.
  unfold ftensordot, fndim.
  rewrite (fwfb_fwf _ HwX), (fwfb_fwf _ HwW), HX, HW.
  cbn. rewrite Nat.eqb_refl. cbn.
  eexists. split; [reflexivity|].
  split; [reflexivity|]. split; [apply fwf_ftabulate|].
  intros o f i Ho Hf Hi.
  rewrite fget_ftabulate by (simpl; auto).
  cbn.
  apply (dot_indices_1 B
           (fun k => fget dY [nth 0 k 0%nat; o])
           (fun k => fget Xf [nth 0 k 0%nat; f; i])).
Qed.

(** [dW.transpose((1, 0, 2))]. *)
Lemma transpose_102 (A : farray) (n0 n1 n2 : nat) :
  fshape A = [n0; n1; n2] -> fwf A ->
  exists T, ftranspose A [1; 0; 2]%nat = Some T /\
    fshape T = [n1; n0; n2] /\ fwf T /\
    forall j i k, (j < n1)%nat -> (i < n0)%nat -> (k < n2)%nat ->
      fget T [j; i; k] = fget A [i; j; k].
Proof.
  intros HA HwA.
  unfold ftranspose, fndim. rewrite (fwfb_fwf _ HwA), HA. cbn.
  eexists. split; [reflexivity|].
  split; [reflexivity|]. split; [apply fwf_ftabulate|].
  intros j i k Hj Hi Hk.
  rewrite fget_ftabulate by (simpl; auto). reflexivity.
Qed.

(** [A += B] for two float32 arrays of the same shape. *)
Lemma fiadd_same_shape (A B : farray) :
  fshape B = fshape A -> fwf A -> fwf B ->
  exists C, fiadd A B = Some C /\ fshape C = fshape A /\ fwf C /\
    forall idx, in_range (fshape A) idx ->
      fget C idx = Float32.add (fget A idx) (fget B idx).
Proof.
  intros HB HwA HwB.
  unfold fiadd. rewrite (fwfb_fwf _ HwA), (fwfb_fwf _ HwB), HB.
  rewrite Nat.sub_diag, Nat.leb_refl. simpl.
  rewrite bcast_okb_refl. simpl.
  eexists. split; [reflexivity|].
  split; [reflexivity|]. split; [apply fwf_ftabulate|].
  intros idx Hidx.
  rewrite fget_ftabulate by exact Hidx.
  rewrite bcast_index_same by exact Hidx. reflexivity.
Qed.

(** [dY.sum(axis=0)] with [dY : (B, nO)]. *)
Lemma sum_axis0_bo (dY : farray) (B nO : nat) :
  fshape dY = [B; nO] -> fwf dY ->
  exists S, fsum_axis0 dY = Some S /\ fshape S = [nO] /\ fwf S /\
    forall o, (o < nO)%nat ->
      fget S [o] = Float32.sum_upto B (fun b => fget dY [b; o]).
Proof.
  intros HA HwA.
  unfold fsum_axis0. rewrite HA, (fwfb_fwf _ HwA).
  eexists. split; [reflexivity|].
  split; [reflexivity|]. split; [apply fwf_ftabulate|].
  intros o Ho. rewrite fget_ftabulate by (simpl; auto). reflexivity.
Qed.

(** [X[ids]] with [X : (N, nI)] and [ids : (B, nF)]. *)
Lemma take_rows (X : farray) (ids : ndarray) (N nI B nF : nat) :
  fshape X = [N; nI] -> fwf X -> shape ids = [B; nF] -> wf ids ->
  Forall (valid_row N) (data ids) ->
  exists Xf, ftake X ids = Some Xf /\
    fshape Xf = [B; nF; nI] /\ fwf Xf /\
    forall b f i, (b < B)%nat -> (f < nF)%nat -> (i < nI)%nat ->
      fget Xf [b; f; i] = fget X [row_of N (get ids [b; f]); i].
Proof.
  intros HX HwX Hids Hwids Hvalid.
  unfold ftake, ndim. rewrite HX, (fwfb_fwf _ HwX), (wfb_wf _ Hwids), Hids.
  assert (Hall : forallb (fun k => match norm_index N k with
                                   | Some _ => true
                                   | None => false
                                   end) (data ids) = true).
  { apply forallb_forall. intros k Hk.
    rewrite Forall_forall in Hvalid.
    destruct (norm_index_valid N k (Hvalid k Hk)) as (r & Hr & _).
    rewrite Hr. reflexivity. }
  rewrite Hall. simpl.
  eexists. split; [reflexivity|].
  split; [reflexivity|]. split; [apply fwf_ftabulate|].
  intros b f i Hb Hf Hi.
  rewrite fget_ftabulate by (simpl; auto).
  cbn. unfold row_of.
  assert (Hin : In (get ids [b; f]) (data ids)).
  { unfold get. apply nth_In. rewrite Hwids, Hids.
    apply (ravel_lt [B; nF] [b; f]). simpl. auto. }
  rewrite Forall_forall in Hvalid.
  destruct (norm_index_valid N _ (Hvalid _ Hin)) as (r & Hr & _).
  rewrite Hr. reflexivity.
Qed.

(** C2.  With resolved dimensions, a forward input [X : (N, nI)], an output
    gradient [dY : (B, nO)] and row numbers [ids : (B, nF)], the backward
    closure returns [dXf : (B, nF, nI)] whose entry [dXf[b,f,i]] is the
    inner product over [o] of [dY[b,o]] and [W[f,o,i]]; it adds to
    [d_W[f,o,i]] the inner product over [b] of [dY[b,o]] and
    [X[ids][b,f,i]], and to [d_b[o]] the sum over [b] of [dY[b,o]]: the new
    gradient buffers are the old ones plus these sums, every operation in
    float32.  The weights are left as they were. *)
Theorem affine_backward_accumulates
    (self : PrecomputableAffine.Model) (X dY : farray) (ids : ndarray)
    (N B : nat) :
  PrecomputableAffine.resolved self ->
  fshape X = [N; PrecomputableAffine.nI self] -> fwf X ->
  fshape dY = [B; PrecomputableAffine.nO self] -> fwf dY ->
  shape ids = [B; PrecomputableAffine.nF self] -> wf ids ->
  Forall (valid_row N) (data ids) ->
  exists dXf self',
    PrecomputableAffine.backward X (dY, ids) None self = Some (dXf, self', []) /\
    fshape dXf = [B; PrecomputableAffine.nF self; PrecomputableAffine.nI self] /\
    fwf dXf /\
    (forall b f i,
        (b < B)%nat -> (f < PrecomputableAffine.nF self)%nat ->
        (i < PrecomputableAffine.nI self)%nat ->
        fget dXf [b; f; i] =
        Float32.dot_upto (PrecomputableAffine.nO self)
          (fun o => fget dY [b; o])
          (fun o => fget (PrecomputableAffine.W self) [f; o; i])) /\
    (forall f o i,
        (f < PrecomputableAffine.nF self)%nat ->
        (o < PrecomputableAffine.nO self)%nat ->
        (i < PrecomputableAffine.nI self)%nat ->
        fget (PrecomputableAffine.d_W self') [f; o; i] =
        Float32.add (fget (PrecomputableAffine.d_W self) [f; o; i])
          (Float32.dot_upto B
             (fun b => fget dY [b; o])
             (fun b => fget X [row_of N (get ids [b; f]); i]))) /\
    (forall o,
        (o < PrecomputableAffine.nO self)%nat ->
        fget (PrecomputableAffine.d_b self') [o] =
        Float32.add (fget (PrecomputableAffine.d_b self) [o])
          (Float32.sum_upto B (fun b => fget dY [b; o]))) /\
    PrecomputableAffine.W self' = PrecomputableAffine.W self /\
    PrecomputableAffine.b self' = PrecomputableAffine.b self /\
    PrecomputableAffine.resolved self'.
Proof.
  intros (HW & HwW & Hb & Hwb & HdW & HwdW & Hdb & Hwdb)
         HX HwX HdY HwdY Hids Hwids Hvalid.
  destruct (take_rows X ids N _ B _ HX HwX Hids Hwids Hvalid)
    as (Xf & HXf & HsXf & HwXf & HgXf).
  destruct (tensordot_bo_foi dY (PrecomputableAffine.W self) B _ _ _
              HdY HwdY HW HwW)
    as (dXf & HdXf & HsdXf & HwdXf & HgdXf).
  destruct (tensordot_bo_bfi dY Xf B _ _ _ HdY HwdY HsXf HwXf)
    as (dW & HdWe & HsdW & HwdW' & HgdW).
  destruct (transpose_102 dW _ _ _ HsdW HwdW')
    as (dWt & HdWt & HsdWt & HwdWt & HgdWt).
  destruct (fiadd_same_shape (PrecomputableAffine.d_W self) dWt)
    as (d_W' & Hd_W' & Hsd_W' & Hwd_W' & Hgd_W');
    [rewrite HsdWt, HdW; reflexivity | exact HwdW | exact HwdWt |].
  destruct (sum_axis0_bo dY B _ HdY HwdY) as (s & Hs & Hss & Hws & Hgs).
  destruct (fiadd_same_shape (PrecomputableAffine.d_b self) s)
    as (d_b' & Hd_b' & Hsd_b' & Hwd_b' & Hgd_b');
    [rewrite Hss, Hdb; reflexivity | exact Hwdb | exact Hws |].
  eexists dXf, _.
  split.
  { unfold PrecomputableAffine.backward.
    rewrite HXf. simpl. rewrite HdXf. simpl. rewrite HdWe. simpl.
    rewrite HdWt. simpl. rewrite Hd_W'. simpl. rewrite Hs. simpl.
    rewrite Hd_b'. simpl. reflexivity. }
  split; [exact HsdXf|]. split; [exact HwdXf|].
  split; [exact HgdXf|].
  split.
  { intros f o i Hf Ho Hi. cbn.
    rewrite Hgd_W' by (rewrite HdW; simpl; auto).
    rewrite HgdWt, HgdW by assumption.
    f_equal. apply dot_upto_ext; [reflexivity|]. intros b' Hb'.
    rewrite HgXf by assumption. reflexivity. }
  split.
  { intros o Ho. cbn.
    rewrite Hgd_b' by (rewrite Hdb; simpl; auto).
    rewrite Hgs by assumption. reflexivity. }
  split; [reflexivity|]. split; [reflexivity|].
  unfold PrecomputableAffine.resolved. cbn.
  rewrite Hsd_W', Hsd_b'.
  repeat split; assumption.
Qed.

Lemma affine_backward_accumulates_witness :
  PrecomputableAffine.resolved Examples.affine_small /\
  fshape Examples.X32_2x3 = [2%nat; PrecomputableAffine.nI Examples.affine_small] /\
  fwf Examples.X32_2x3 /\
  fshape Examples.dY32_2x2 = [2%nat; PrecomputableAffine.nO Examples.affine_small] /\
  fwf Examples.dY32_2x2 /\
  shape Examples.ids_2x2 = [2%nat; PrecomputableAffine.nF Examples.affine_small] /\
  wf Examples.ids_2x2 /\
  Forall (valid_row 2) (data Examples.ids_2x2) /\
  exists dXf self',
    PrecomputableAffine.backward Examples.X32_2x3
      (Examples.dY32_2x2, Examples.ids_2x2) None Examples.affine_small
    = Some (dXf, self', []) /\
    fget dXf [0; 0; 1]%nat = Float32.of_Z 2 /\
    fget (PrecomputableAffine.d_W self') [0; 0; 0]%nat = Float32.of_Z 14 /\
    fget (PrecomputableAffine.d_b self') [1%nat] = Float32.of_Z 11.
Proof.
  assert (Hr : PrecomputableAffine.resolved Examples.affine_small)
    by (repeat split; reflexivity).
  assert (Hv : Forall (valid_row 2) (data Examples.ids_2x2))
    by (repeat constructor; unfold valid_row; simpl; lia).
  repeat (split; [first [exact Hr | exact Hv | reflexivity]|]).
  destruct (affine_backward_accumulates Examples.affine_small Examples.X32_2x3
              Examples.dY32_2x2 Examples.ids_2x2 2 2 Hr eq_refl eq_refl
              eq_refl eq_refl eq_refl eq_refl Hv)
    as (dXf & self' & Hrun & _ & _ & HdXf & HdW & Hdb & _).
  exists dXf, self'.
  split; [exact Hrun|].
  split; [rewrite HdXf by (simpl; lia); reflexivity|].
  split; [rewrite HdW by (simpl; lia); reflexivity|].
  rewrite Hdb by (simpl; lia). reflexivity.
Defined.

(** The accumulation is a float32 addition: a bias gradient that has
    reached [2^24], where float32 numbers are 2 apart, is left at [2^24] by
    a backward call whose gradient sums to 1. *)
Lemma affine_backward_rounds :
  exists dXf self',
    PrecomputableAffine.backward (Examples.f32 [1; 1]%nat [1])
      (Examples.f32 [1; 1]%nat [1], mk_ndarray [1; 1]%nat [0]) None
      Examples.affine_large_gradient = Some (dXf, self', []) /\
    fget (PrecomputableAffine.d_b Examples.affine_large_gradient) [0%nat]
    = Float32.of_Z 16777216 /\
    fget (PrecomputableAffine.d_b self') [0%nat] = Float32.of_Z 16777216.
Proof.
  eexists _, _. split; [vm_compute; reflexivity|].
  split; reflexivity.
Qed.

(** ** The optimizer callback *)

Ltac bind_cases H :=
  repeat match type of H with
         | bind ?m _ = Some _ =>
             let E := fresh "E" in
             destruct m eqn:E; simpl in H |- *; [|discriminate H]
         end.

(** One backward call of the affine layer: the accumulation is the same with
    or without an optimizer, and the optimizer, when there is one, is called
    once, after the accumulation, on the layer's two buffers and its [id];
    the layer's buffers afterwards are the ones the optimizer leaves. *)
Lemma affine_backward_sgd (X : farray) (dY_ids : farray * ndarray)
    (sgd : option Optimizer) (self self' : PrecomputableAffine.Model)
    (dXf : farray) (log : list SgdCall) :
  PrecomputableAffine.backward X dY_ids sgd self = Some (dXf, self', log) ->
  exists self1,
    PrecomputableAffine.backward X dY_ids None self = Some (dXf, self1, []) /\
    weights (PrecomputableAffine._mem self1) = weights (PrecomputableAffine._mem self) /\
    PrecomputableAffine.id self1 = PrecomputableAffine.id self /\
    PrecomputableAffine.id self' = PrecomputableAffine.id self /\
    match sgd with
    | None => self' = self1 /\ log = []
    | Some update =>
        log = [(weights (PrecomputableAffine._mem self1), gradient (PrecomputableAffine._mem self1),
                PrecomputableAffine.id self)] /\
        weights (PrecomputableAffine._mem self') =
          fst (update (weights (PrecomputableAffine._mem self1))
                 (gradient (PrecomputableAffine._mem self1)) (PrecomputableAffine.id self)) /\
        gradient (PrecomputableAffine._mem self') =
          snd (update (weights (PrecomputableAffine._mem self1))
                 (gradient (PrecomputableAffine._mem self1)) (PrecomputableAffine.id self))
    end.
Proof.
  intros H. unfold PrecomputableAffine.backward in *. destruct dY_ids as [dY ids].
  bind_cases H. simpl.
  destruct sgd as [update|].
  - cbn in H.
    destruct (update _ _ _) as [w' g'] eqn:Eu.
    injection H as <- <- <-.
    eexists. split; [reflexivity|]. cbn. rewrite Eu. auto 6.
  - injection H as <- <- <-.
    eexists. split; [reflexivity|]. cbn. auto 6.
Qed.

Lemma affine_run_backward_keys
    (calls : list (farray * (farray * ndarray) * option Optimizer))
    (self self' : PrecomputableAffine.Model) (log : list SgdCall) :
  PrecomputableAffine.run_backward calls self = Some (self', log) ->
  PrecomputableAffine.id self' = PrecomputableAffine.id self /\
  length log = sgd_supplied calls /\
  Forall (fun c => snd c = PrecomputableAffine.id self) log.
Proof.
  revert self self' log.
  induction calls as [|[[X dY_ids] sgd] rest IH]; intros self self' log H.
  - injection H as <- <-. repeat split. constructor.
  - simpl in H.
    destruct (PrecomputableAffine.backward X dY_ids sgd self) as [[[dXf s1] l1]|] eqn:E1;
      simpl in H; [|discriminate H].
    destruct (PrecomputableAffine.run_backward rest s1) as [[s2 l2]|] eqn:E2;
      simpl in H; [|discriminate H].
    injection H as <- <-.
    destruct (affine_backward_sgd _ _ _ _ _ _ _ E1)
      as (s0 & _ & _ & _ & Hid & Hlog).
    destruct (IH _ _ _ E2) as (Hid2 & Hlen & Hall).
    rewrite Hid in Hid2, Hall.
    split; [exact Hid2|].
    unfold sgd_supplied in *. simpl.
    rewrite length_app, Hlen.
    split.
    + destruct sgd as [update|].
      * destruct Hlog as (-> & _). reflexivity.
      * destruct Hlog as (_ & ->). reflexivity.
    + apply Forall_app. split; [|exact Hall].
      destruct sgd as [update|].
      * destruct Hlog as (-> & _). repeat constructor.
      * destruct Hlog as (_ & ->). constructor.
Qed.

Lemma maxouts_backward_sgd (X : farray) (dYp_ids : farray * ndarray)
    (sgd : option Optimizer) (self self' : PrecomputableMaxouts.Model)
    (dXf : farray) (log : list SgdCall) :
  PrecomputableMaxouts.backward X dYp_ids sgd self = Some (dXf, self', log) ->
  exists self1,
    PrecomputableMaxouts.backward X dYp_ids None self = Some (dXf, self1, []) /\
    weights (PrecomputableMaxouts._mem self1) = weights (PrecomputableMaxouts._mem self) /\
    PrecomputableMaxouts.id self1 = PrecomputableMaxouts.id self /\
    PrecomputableMaxouts.id self' = PrecomputableMaxouts.id self /\
    match sgd with
    | None => self' = self1 /\ log = []
    | Some update =>
        log = [(weights (PrecomputableMaxouts._mem self1), gradient (PrecomputableMaxouts._mem self1),
                PrecomputableMaxouts.id self)] /\
        weights (PrecomputableMaxouts._mem self') =
          fst (update (weights (PrecomputableMaxouts._mem self1))
                 (gradient (PrecomputableMaxouts._mem self1)) (PrecomputableMaxouts.id self)) /\
        gradient (PrecomputableMaxouts._mem self') =
          snd (update (weights (PrecomputableMaxouts._mem self1))
                 (gradient (PrecomputableMaxouts._mem self1)) (PrecomputableMaxouts.id self))
    end.
Proof.
  intros H. unfold PrecomputableMaxouts.backward in *. destruct dYp_ids as [dY ids].
  bind_cases H. simpl.
  destruct sgd as [update|].
  - cbn in H.
    destruct (update _ _ _) as [w' g'] eqn:Eu.
    injection H as <- <- <-.
    eexists. split; [reflexivity|]. cbn. rewrite Eu. auto 6.
  - injection H as <- <- <-.
    eexists. split; [reflexivity|]. cbn. auto 6.
Qed.

Lemma maxouts_run_backward_keys
    (calls : list (farray * (farray * ndarray) * option Optimizer))
    (self self' : PrecomputableMaxouts.Model) (log : list SgdCall) :
  PrecomputableMaxouts.run_backward calls self = Some (self', log) ->
  PrecomputableMaxouts.id self' = PrecomputableMaxouts.id self /\
  length log = sgd_supplied calls /\
  Forall (fun c => snd c = PrecomputableMaxouts.id self) log.
Proof.
  revert self self' log.
  induction calls as [|[[X dY_ids] sgd] rest IH]; intros self self' log H.
  - injection H as <- <-. repeat split. constructor.
  - simpl in H.
    destruct (PrecomputableMaxouts.backward X dY_ids sgd self) as [[[dXf s1] l1]|] eqn:E1;
      simpl in H; [|discriminate H].
    destruct (PrecomputableMaxouts.run_backward rest s1) as [[s2 l2]|] eqn:E2;
      simpl in H; [|discriminate H].
    injection H as <- <-.
    destruct (maxouts_backward_sgd _ _ _ _ _ _ _ E1)
      as (s0 & _ & _ & _ & Hid & Hlog).
    destruct (IH _ _ _ E2) as (Hid2 & Hlen & Hall).
    rewrite Hid in Hid2, Hall.
    split; [exact Hid2|].
    unfold sgd_supplied in *. simpl.
    rewrite length_app, Hlen.
    split.
    + destruct sgd as [update|].
      * destruct Hlog as (-> & _). reflexivity.
      * destruct Hlog as (_ & ->). reflexivity.
    + apply Forall_app. split; [|exact Hall].
      destruct sgd as [update|].
      * destruct Hlog as (-> & _). repeat constructor.
      * destruct Hlog as (_ & ->). constructor.
Qed.

(** C9.  In the backward pass of both tensor-contraction layers the optimizer
    is called exactly when one is supplied, and then once.  Without one the
    call log is empty and the layer is left as the accumulation leaves it.
    With one, the log holds a single call whose arguments are the layer's
    weight buffer, which the accumulation has not touched, its gradient
    buffer after the accumulation, and the layer's [id]; the layer's two
    buffers afterwards are exactly what that one call leaves in them.  The
    [id] of the layer never changes: over any run of backward calls on one
    layer instance there is one optimizer call per call that supplied one,
    and every one of them carries the same key, the layer's [id]. *)
Theorem backward_optimizer_protocol :
  (forall X dY_ids sgd self dXf self' log,
      PrecomputableAffine.backward X dY_ids sgd self = Some (dXf, self', log) ->
      exists self1,
        PrecomputableAffine.backward X dY_ids None self = Some (dXf, self1, []) /\
        weights (PrecomputableAffine._mem self1) = weights (PrecomputableAffine._mem self) /\
        PrecomputableAffine.id self' = PrecomputableAffine.id self /\
        match sgd with
        | None => self' = self1 /\ log = []
        | Some update =>
            log = [(weights (PrecomputableAffine._mem self1), gradient (PrecomputableAffine._mem self1),
                    PrecomputableAffine.id self)] /\
            weights (PrecomputableAffine._mem self') =
              fst (update (weights (PrecomputableAffine._mem self1))
                     (gradient (PrecomputableAffine._mem self1)) (PrecomputableAffine.id self)) /\
            gradient (PrecomputableAffine._mem self') =
              snd (update (weights (PrecomputableAffine._mem self1))
                     (gradient (PrecomputableAffine._mem self1)) (PrecomputableAffine.id self))
        end) /\
  (forall calls self self' log,
      PrecomputableAffine.run_backward calls self = Some (self', log) ->
      PrecomputableAffine.id self' = PrecomputableAffine.id self /\
      length log = sgd_supplied calls /\
      Forall (fun c => snd c = PrecomputableAffine.id self) log) /\
  (forall X dYp_ids sgd self dXf self' log,
      PrecomputableMaxouts.backward X dYp_ids sgd self = Some (dXf, self', log) ->
      exists self1,
        PrecomputableMaxouts.backward X dYp_ids None self = Some (dXf, self1, []) /\
        weights (PrecomputableMaxouts._mem self1) = weights (PrecomputableMaxouts._mem self) /\
        PrecomputableMaxouts.id self' = PrecomputableMaxouts.id self /\
        match sgd with
        | None => self' = self1 /\ log = []
        | Some update =>
            log = [(weights (PrecomputableMaxouts._mem self1), gradient (PrecomputableMaxouts._mem self1),
                    PrecomputableMaxouts.id self)] /\
            weights (PrecomputableMaxouts._mem self') =
              fst (update (weights (PrecomputableMaxouts._mem self1))
                     (gradient (PrecomputableMaxouts._mem self1)) (PrecomputableMaxouts.id self)) /\
            gradient (PrecomputableMaxouts._mem self') =
              snd (update (weights (PrecomputableMaxouts._mem self1))
                     (gradient (PrecomputableMaxouts._mem self1)) (PrecomputableMaxouts.id self))
        end) /\
  (forall calls self self' log,
      PrecomputableMaxouts.run_backward calls self = Some (self', log) ->
      PrecomputableMaxouts.id self' = PrecomputableMaxouts.id self /\
      length log = sgd_supplied calls /\
      Forall (fun c => snd c = PrecomputableMaxouts.id self) log).
Proof.
  split; [|split; [|split]].
  - intros X dY_ids sgd self dXf self' log H.
    destruct (affine_backward_sgd _ _ _ _ _ _ _ H)
      as (s1 & H1 & Hw & _ & Hid & Hlog).
    exists s1. split; [exact H1|]. split; [exact Hw|].
    split; [exact Hid|]. exact Hlog.
  - intros calls self self' log H.
    exact (affine_run_backward_keys calls self self' log H).
  - intros X dY_ids sgd self dXf self' log H.
    destruct (maxouts_backward_sgd _ _ _ _ _ _ _ H)
      as (s1 & H1 & Hw & _ & Hid & Hlog).
    exists s1. split; [exact H1|]. split; [exact Hw|].
    split; [exact Hid|]. exact Hlog.
  - intros calls self self' log H.
    exact (maxouts_run_backward_keys calls self self' log H).
Qed.

Lemma backward_optimizer_protocol_witness :
  (exists self' log,
      PrecomputableAffine.run_backward
        [(Examples.X32_2x3, (Examples.dY32_2x2, Examples.ids_2x2),
          Some Examples.sgd_step);
         (Examples.X32_2x3, (Examples.dY32_2x2, Examples.ids_2x2), None);
         (Examples.X32_2x3, (Examples.dY32_2x2, Examples.ids_2x2),
          Some Examples.sgd_step)]
        Examples.affine_small = Some (self', log) /\
      PrecomputableAffine.id self' = 11 /\
      length log = 2%nat /\
      Forall (fun c => snd c = 11) log) /\
  (exists dXf self' log,
      PrecomputableMaxouts.backward Examples.X32_2x3
        (Examples.dYp32_2x2x2, Examples.ids_2x2)
        (Some Examples.sgd_step) Examples.maxouts_small
      = Some (dXf, self', log) /\
      exists self1,
        PrecomputableMaxouts.backward Examples.X32_2x3
          (Examples.dYp32_2x2x2, Examples.ids_2x2)
          None Examples.maxouts_small = Some (dXf, self1, []) /\
        log = [(weights (PrecomputableMaxouts._mem self1),
                gradient (PrecomputableMaxouts._mem self1), 12)] /\
        weights (PrecomputableMaxouts._mem self') =
          fst (Examples.sgd_step (weights (PrecomputableMaxouts._mem self1))
                 (gradient (PrecomputableMaxouts._mem self1)) 12) /\
        gradient (PrecomputableMaxouts._mem self') =
          snd (Examples.sgd_step (weights (PrecomputableMaxouts._mem self1))
                 (gradient (PrecomputableMaxouts._mem self1)) 12)).
Proof.
  split.
  - assert (Hrun : exists r,
               PrecomputableAffine.run_backward
                 [(Examples.X32_2x3, (Examples.dY32_2x2, Examples.ids_2x2),
                   Some Examples.sgd_step);
                  (Examples.X32_2x3, (Examples.dY32_2x2, Examples.ids_2x2), None);
                  (Examples.X32_2x3, (Examples.dY32_2x2, Examples.ids_2x2),
                   Some Examples.sgd_step)]
                 Examples.affine_small = Some r)
      by (eexists; vm_compute; reflexivity).
    destruct Hrun as [[self' log] Hrun].
    exists self', log. split; [exact Hrun|].
    exact (proj1 (proj2 backward_optimizer_protocol) _ _ _ _ Hrun).
  - assert (Hrun : exists r,
               PrecomputableMaxouts.backward Examples.X32_2x3
                 (Examples.dYp32_2x2x2, Examples.ids_2x2)
                 (Some Examples.sgd_step) Examples.maxouts_small = Some r)
      by (eexists; vm_compute; reflexivity).
    destruct Hrun as [[[dXf self'] log] Hrun].
    exists dXf, self', log. split; [exact Hrun|].
    destruct (proj1 (proj2 (proj2 backward_optimizer_protocol))
                _ _ _ _ _ _ _ Hrun)
      as (self1 & H1 & _ & _ & Hlog).
    exists self1. split; [exact H1|]. exact Hlog.
Defined.

(** ** Weight initialization *)






(** ** Flatten and unflatten *)

Lemma split_lengths_concat {Row : Type} (seqs : list (list Row))
    (rest : list Row) :
  split_lengths (concat seqs ++ rest) (map (@length Row) seqs) = seqs.
Proof.
  induction seqs as [|s seqs IH]; simpl; [reflexivity|].
  rewrite <- app_assoc.
  rewrite firstn_app, firstn_all, Nat.sub_diag. simpl. rewrite app_nil_r.
  rewrite skipn_app, skipn_all, Nat.sub_diag. simpl.
  rewrite IH. reflexivity.
Qed.

Lemma length_concat_lengths {Row : Type} (seqs : list (list Row)) :
  length (concat seqs) = fold_right Nat.add 0%nat (map (@length Row) seqs).
Proof.
  induction seqs as [|s seqs IH]; simpl; [reflexivity|].
  rewrite length_app, IH. reflexivity.
Qed.

Lemma length_ops_flatten {Row : Type} (zero_row : Row)
    (seqs : list (list Row)) (pad : nat) :
  length (ops_flatten zero_row seqs pad)
  = (pad + fold_right Nat.add 0 (map (@length Row) seqs) + pad)%nat.
Proof.
  unfold ops_flatten.
  rewrite !length_app, !repeat_length, length_concat_lengths. lia.
Qed.

Lemma unflatten_flatten {Row : Type} (zero_row : Row)
    (seqs : list (list Row)) (pad : nat) :
  ops_unflatten (ops_flatten zero_row seqs pad) (map (@length Row) seqs) pad
  = Some seqs.
Proof.
  unfold ops_unflatten.
  rewrite length_ops_flatten, Nat.eqb_refl.
  unfold ops_flatten.
  rewrite skipn_app, skipn_all2 by (rewrite repeat_length; lia).
  rewrite repeat_length, Nat.sub_diag. simpl.
  rewrite split_lengths_concat. reflexivity.
Qed.

(** C3.  For every batch and every padding, the backward closure of
    [_flatten_add_lengths], applied to the flat buffer that the forward
    produced, gives back the batch itself: same sequences, same lengths, same
    contents, same order.  The same holds for [flatten], which pads by 0. *)
Theorem flatten_round_trip {Row : Type} (zero_row : Row)
    (seqs : list (list Row)) (pad : nat) :
  (let '((X, lengths), finish_update) :=
     _flatten_add_lengths zero_row seqs pad in
   lengths = map (@length Row) seqs /\ finish_update X = Some seqs) /\
  (let '(X, finish_update) := flatten zero_row seqs in
   finish_update X = Some seqs).
Proof.
  unfold _flatten_add_lengths, flatten. simpl.
  split; [split; [reflexivity|]|]; apply unflatten_flatten.
Qed.

(** ** _divide_array *)

Lemma divide_array_loop_spec {T : Type} (size : nat) (X : list T) :
  (1 <= size)%nat ->
  forall fuel index parts,
    (length X - index < fuel)%nat ->
    exists chunks,
      _divide_array_loop fuel X size index parts = Some (parts ++ chunks) /\
      chunking size (skipn index X) chunks /\
      ((length X <= index)%nat -> chunks = []).
Proof.
  intros Hsize fuel.
  induction fuel as [|fuel IH]; intros index parts Hfuel; [lia|].
  simpl. destruct (index <? length X)%nat eqn:E.
  - apply Nat.ltb_lt in E.
    destruct (IH (index + size)%nat
                (parts ++ [firstn size (skipn index X)])) as
      (chunks & Hrun & (Hcat & Hlen & Hfull) & Hnil); [lia|].
    exists (firstn size (skipn index X) :: chunks).
    split; [rewrite Hrun, <- app_assoc; reflexivity|].
    split; [|intros; lia].
    assert (Hc : length (firstn size (skipn index X))
                 = Nat.min size (length X - index))
      by (rewrite length_firstn, length_skipn; reflexivity).
    split; [|split].
    + simpl. rewrite Hcat.
      rewrite Nat.add_comm, <- skipn_skipn. apply firstn_skipn.
    + constructor; [lia | exact Hlen].
    + destruct chunks as [|c chunks]; [constructor|].
      change (removelast (firstn size (skipn index X) :: c :: chunks))
        with (firstn size (skipn index X) :: removelast (c :: chunks)).
      constructor; [|exact Hfull].
      destruct (Nat.le_gt_cases (length X) (index + size)) as [Hle|Hgt];
        [specialize (Hnil Hle); discriminate | lia].
  - apply Nat.ltb_ge in E.
    exists []. rewrite app_nil_r.
    split; [reflexivity|].
    split; [|reflexivity].
    rewrite skipn_all2 by exact E.
    repeat split; constructor.
Qed.

(** With a chunk size of at least 1, [_divide_array] terminates and divides
    its argument into chunks. *)
Lemma divide_array_spec {T : Type} (size : nat) (X : list T) :
  (1 <= size)%nat ->
  exists parts, _divide_array X size = Some parts /\ chunking size X parts.
Proof.
  intros Hsize. unfold _divide_array.
  destruct (divide_array_loop_spec size X Hsize (S (length X)) 0 [])
    as (chunks & Hrun & Hchunks & _); [lia|].
  exists chunks. split; [exact Hrun | exact Hchunks].
Qed.

(** ** rebatch *)

Section RebatchFacts.

Context {A B St Drop Sgd : Type}.
Variable zero_B : B.
Variable drop_default : Drop.
Variable ops_flatten_grads : list (@Gradient A) -> exn + list A.

Local Abbreviation layer_t := (@Layer A B St Drop Sgd).
Local Abbreviation forward := (rebatch_forward zero_B drop_default ops_flatten_grads).
Local Abbreviation backward := (@rebatch_backward A B St Sgd ops_flatten_grads).

Lemma ops_flatten_pad0 {Row : Type} (z : Row) (seqs : list (list Row)) :
  ops_flatten z seqs 0 = concat seqs.
Proof. unfold ops_flatten. simpl. apply app_nil_r. Qed.

Lemma length_begin_update_parts (layer : layer_t) (parts : list (list A))
    (drop : Drop) (st : St) :
  length (fst (begin_update_parts layer parts drop st)) = length parts.
Proof.
  revert st. induction parts as [|p parts IH]; intros st; simpl; [reflexivity|].
  destruct (begin_update layer p drop st) as [r st'].
  specialize (IH st').
  destruct (begin_update_parts layer parts drop st') as [rs st''].
  simpl in *. rewrite IH. reflexivity.
Qed.

(** The outputs of the chunks, for a layer that maps every item by [f]. *)
Lemma begin_update_parts_itemwise (layer : layer_t) (f : Drop -> A -> B) :
  (forall X drop st, fst (fst (begin_update layer X drop st)) = map (f drop) X) ->
  forall parts drop st,
    map fst (fst (begin_update_parts layer parts drop st))
    = map (map (f drop)) parts.
Proof.
  intros Hf parts drop.
  induction parts as [|p parts IH]; intros st; simpl; [reflexivity|].
  specialize (Hf p drop st).
  destruct (begin_update layer p drop st) as [r st'].
  specialize (IH st').
  destruct (begin_update_parts layer parts drop st') as [rs st''].
  simpl in *. rewrite IH, Hf. reflexivity.
Qed.

(** The chunked path of [forward]. *)
Lemma rebatch_forward_chunked (size : nat) (layer : layer_t) (X : list A)
    (drop : Drop) (st : St) :
  (1 <= size)%nat -> (size <= length X)%nat ->
  exists parts,
    _divide_array X size = Some parts /\ chunking size X parts /\
    let (rs, st') := begin_update_parts layer parts drop st in
    forward size layer X drop st
    = Some ((concat (map fst rs), backward size (map snd rs)), st').
Proof.
  intros Hsize Hlen.
  destruct (divide_array_spec size X Hsize) as (parts & Hdiv & Hchunks).
  exists parts. split; [exact Hdiv|]. split; [exact Hchunks|].
  unfold rebatch_forward.
  assert (E : (length X <? size)%nat = false) by (apply Nat.ltb_ge; lia).
  rewrite E, Hdiv. simpl.
  destruct parts as [|p parts].
  - destruct Hchunks as (Hcat & _). simpl in Hcat. subst X. simpl in Hlen. lia.
  - destruct (begin_update_parts layer (p :: parts) drop st) as [rs st'].
    rewrite ops_flatten_pad0. reflexivity.
Qed.

(** Reassembly of the chunk gradients in [backward]. *)
Lemma rebatch_backward_reassembly (size : nat) (bp_results : list Backprop)
    (dy : list B) (sgd : option Sgd) (st : St) :
  (1 <= size)%nat ->
  exists dy_parts,
    _divide_array dy size = Some dy_parts /\ chunking size dy dy_parts /\
    forall d_parts st',
      call_backprops (combine bp_results dy_parts) sgd st
      = (Returns d_parts, st') ->
      match ops_flatten_grads d_parts with
      | inr dX => backward size bp_results dy sgd st = (Returns (Some dX), st')
      | inl TypeError => backward size bp_results dy sgd st = (Returns None, st')
      | inl ValueError => backward size bp_results dy sgd st = (Returns None, st')
      | inl OtherError => backward size bp_results dy sgd st = (Raises OtherError, st')
      end.
Proof.
  intros Hsize.
  destruct (divide_array_spec size dy Hsize) as (dy_parts & Hdiv & Hchunks).
  exists dy_parts. split; [exact Hdiv|]. split; [exact Hchunks|].
  intros d_parts st' Hcall.
  unfold rebatch_backward. rewrite Hdiv, Hcall.
  destruct (ops_flatten_grads d_parts) as [[]|dX]; reflexivity.
Qed.

End RebatchFacts.

(** The gradient flatten of the spec fails exactly when a chunk is absent. *)
Lemma ops_flatten_optional_absent {A : Type} (zero_A : A)
    (d_parts : list (option (list A))) :
  In None d_parts -> ops_flatten_optional zero_A d_parts = inl ValueError.
Proof.
  intros Hin. unfold ops_flatten_optional.
  destruct (forallb _ d_parts) eqn:E; [|reflexivity].
  rewrite forallb_forall in E. specialize (E None Hin). discriminate.
Qed.

Lemma ops_flatten_optional_present {A : Type} (zero_A : A)
    (chunks : list (list A)) :
  ops_flatten_optional zero_A (map Some chunks) = inr (concat chunks).
Proof.
  unfold ops_flatten_optional.
  assert (E : forallb (fun g : option (list A) =>
                         match g with Some _ => true | None => false end)
                (map Some chunks) = true).
  { apply forallb_forall. intros g Hg. apply in_map_iff in Hg.
    destruct Hg as (c & <- & _). reflexivity. }
  rewrite E, ops_flatten_pad0.
  assert (Hsame : flat_map (fun g : option (list A) =>
                              match g with Some c => [c] | None => [] end)
                    (map Some chunks) = chunks).
  { clear E. induction chunks as [|c chunks IH]; simpl; [reflexivity|].
    rewrite IH. reflexivity. }
  rewrite Hsame. reflexivity.
Qed.

(** C5.  For a chunk size [k >= 1]: (a) on a batch shorter than [k] the
    forward is the wrapped layer's own [begin_update]; (b) otherwise the batch
    is divided into contiguous chunks of [k] items, the last one possibly
    shorter, the wrapped layer runs on each chunk in turn, and the outputs
    are concatenated in order; (c) in the backward closure, when flattening
    the chunk gradients raises TypeError or ValueError the closure returns
    [None] and does not raise; with the flatten of the spec this happens as
    soon as one chunk gradient is absent, and when all are present the
    result is their concatenation. *)
Theorem rebatch_contract {A B St Drop Sgd : Type} (zero_A : A) (zero_B : B)
    (drop_default : Drop)
    (ops_flatten_grads : list (@Gradient A) -> exn + list A)
    (k : nat) (layer : @Layer A B St Drop Sgd) :
  (1 <= k)%nat ->
  (forall X drop st,
      (length X < k)%nat ->
      rebatch_forward zero_B drop_default ops_flatten_grads k layer X drop st
      = Some (begin_update layer X drop_default st)) /\
  (forall X drop st,
      (k <= length X)%nat ->
      exists parts,
        _divide_array X k = Some parts /\ chunking k X parts /\
        let (rs, st') := begin_update_parts layer parts drop st in
        length rs = length parts /\
        rebatch_forward zero_B drop_default ops_flatten_grads k layer X drop st
        = Some ((concat (map fst rs),
                 rebatch_backward ops_flatten_grads k (map snd rs)), st')) /\
  (forall (bp_results : list (@Backprop A B St Sgd)) dy sgd st,
      exists dy_parts,
        _divide_array dy k = Some dy_parts /\ chunking k dy dy_parts /\
        forall d_parts st',
          call_backprops (combine bp_results dy_parts) sgd st
          = (Returns d_parts, st') ->
          ((ops_flatten_grads d_parts = inl TypeError \/
            ops_flatten_grads d_parts = inl ValueError) ->
           rebatch_backward ops_flatten_grads k bp_results dy sgd st
           = (Returns None, st')) /\
          (In None d_parts ->
           rebatch_backward (ops_flatten_optional zero_A) k bp_results dy sgd st
           = (Returns None, st')) /\
          (forall chunks, d_parts = map Some chunks ->
           rebatch_backward (ops_flatten_optional zero_A) k bp_results dy sgd st
           = (Returns (Some (concat chunks)), st'))).
Proof.
  intros Hk. split; [|split].
  - intros X drop st Hlen. unfold rebatch_forward.
    assert (E : (length X <? k)%nat = true) by (apply Nat.ltb_lt; exact Hlen).
    rewrite E. reflexivity.
  - intros X drop st Hlen.
    destruct (rebatch_forward_chunked zero_B drop_default ops_flatten_grads
                k layer X drop st Hk Hlen) as (parts & Hdiv & Hchunks & Hrun).
    exists parts. split; [exact Hdiv|]. split; [exact Hchunks|].
    pose proof (length_begin_update_parts layer parts drop st) as Hlenrs.
    destruct (begin_update_parts layer parts drop st) as [rs st'].
    split; [exact Hlenrs | exact Hrun].
  - intros bp_results dy sgd st.
    destruct (rebatch_backward_reassembly ops_flatten_grads k bp_results dy
                sgd st Hk) as (dy_parts & Hdiv & Hchunks & Hgen).
    destruct (rebatch_backward_reassembly (ops_flatten_optional zero_A) k
                bp_results dy sgd st Hk) as (dy_parts' & Hdiv' & _ & Hspec).
    rewrite Hdiv in Hdiv'. injection Hdiv' as <-.
    exists dy_parts. split; [exact Hdiv|]. split; [exact Hchunks|].
    intros d_parts st' Hcall.
    specialize (Hgen d_parts st' Hcall). specialize (Hspec d_parts st' Hcall).
    split; [|split].
    + intros [E|E]; rewrite E in Hgen; exact Hgen.
    + intros Hin.
      rewrite (ops_flatten_optional_absent zero_A d_parts Hin) in Hspec.
      exact Hspec.
    + intros chunks ->.
      rewrite ops_flatten_optional_present in Hspec. exact Hspec.
Qed.

Lemma rebatch_contract_witness :
  (1 <= 2)%nat /\
  (exists bwd,
      rebatch_forward 0 tt (ops_flatten_optional 0) 2 Examples.doubling_layer
        [1; 2; 3; 4; 5] tt 0%nat
      = Some (([2; 4; 6; 8; 10], bwd), 3%nat)) /\
  rebatch_forward 0 tt (ops_flatten_optional 0) 2 Examples.doubling_layer
    [7] tt 0%nat
  = Some (begin_update Examples.doubling_layer [7] tt 0%nat) /\
  rebatch_backward (ops_flatten_optional 0) 2
    (map snd (fst (begin_update_parts Examples.no_gradient_layer
                     [[1; 2]; [3]] tt 0%nat)))
    [1; 1; 1] None 3%nat
  = (Returns None, 3%nat).
Proof.
  assert (Hk : (1 <= 2)%nat) by lia.
  split; [exact Hk|].
  split; [|split].
  - destruct (proj1 (proj2 (rebatch_contract 0 0 tt (ops_flatten_optional 0) 2
                              Examples.doubling_layer Hk))
                [1; 2; 3; 4; 5] tt 0%nat) as (parts & Hdiv & _ & Hrun);
      [simpl; lia|].
    vm_compute in Hdiv. injection Hdiv as <-.
    simpl in Hrun. destruct Hrun as (_ & Hrun).
    eexists. exact Hrun.
  - apply (proj1 (rebatch_contract 0 0 tt (ops_flatten_optional 0) 2
                    Examples.doubling_layer Hk)).
    simpl. lia.
  - destruct (proj2 (proj2 (rebatch_contract 0 0 tt (ops_flatten_optional 0) 2
                              Examples.no_gradient_layer Hk))
                (map snd (fst (begin_update_parts Examples.no_gradient_layer
                                 [[1; 2]; [3]] tt 0%nat)))
                [1; 1; 1] None 3%nat) as (dy_parts & Hdiv & _ & Hbwd).
    vm_compute in Hdiv. injection Hdiv as <-.
    destruct (Hbwd [None; None] 3%nat eq_refl) as (_ & Habsent & _).
    apply Habsent. left. reflexivity.
Defined.

(** C7.  For a layer whose forward maps every batch item by one function,
    whatever the state, and every chunk size [k] between 1 and the length of
    the batch, the output of the rebatched forward is the output of the
    layer's own forward on the whole batch. *)
Theorem rebatch_chunk_invariance {A B St Drop Sgd : Type} (zero_B : B)
    (drop_default : Drop)
    (ops_flatten_grads : list (@Gradient A) -> exn + list A)
    (layer : @Layer A B St Drop Sgd) (f : Drop -> A -> B)
    (X : list A) (k : nat) (drop : Drop) (st : St) :
  (forall X drop st, fst (fst (begin_update layer X drop st)) = map (f drop) X) ->
  (1 <= k)%nat -> (k <= length X)%nat ->
  exists bwd st',
    rebatch_forward zero_B drop_default ops_flatten_grads k layer X drop st
    = Some ((fst (fst (begin_update layer X drop st)), bwd), st').
Proof.
  intros Hf Hk Hlen.
  destruct (rebatch_forward_chunked zero_B drop_default ops_flatten_grads
              k layer X drop st Hk Hlen) as (parts & _ & (Hcat & _) & Hrun).
  pose proof (begin_update_parts_itemwise layer f Hf parts drop st) as Hout.
  destruct (begin_update_parts layer parts drop st) as [rs st'].
  simpl in Hout.
  exists (rebatch_backward ops_flatten_grads k (map snd rs)), st'.
  rewrite Hrun, Hout, Hf. rewrite <- concat_map, Hcat. reflexivity.
Qed.

Lemma rebatch_chunk_invariance_witness :
  (forall X drop st,
      fst (fst (begin_update Examples.doubling_layer X drop st))
      = map (fun x => 2 * x) X) /\
  (1 <= 2)%nat /\ (2 <= length [1; 2; 3; 4; 5])%nat /\
  exists bwd st',
    rebatch_forward 0 tt (ops_flatten_optional 0) 2 Examples.doubling_layer
      [1; 2; 3; 4; 5] tt 0%nat
    = Some ((fst (fst (begin_update Examples.doubling_layer
                         [1; 2; 3; 4; 5] tt 0%nat)), bwd), st').
Proof.
  assert (Hf : forall X (drop : unit) (st : nat),
             fst (fst (begin_update Examples.doubling_layer X drop st))
             = map ((fun _ x => 2 * x) drop) X) by reflexivity.
  assert (Hk : (1 <= 2)%nat) by lia.
  assert (Hlen : (2 <= length [1; 2; 3; 4; 5])%nat) by (simpl; lia).
  split; [exact Hf|]. split; [exact Hk|]. split; [exact Hlen|].
  exact (rebatch_chunk_invariance 0 tt (ops_flatten_optional 0)
           Examples.doubling_layer (fun _ x => 2 * x) [1; 2; 3; 4; 5] 2 tt
           0%nat Hf Hk Hlen).
Defined.

(** ** get_col *)

(** [X[:, idx]] of a two-dimensional array. *)
Lemma column_2d (X : ndarray) (r c idx : nat) :
  shape X = [r; c] -> wf X -> (idx < c)%nat ->
  exists col, column X idx = Some col /\ shape col = [r] /\ wf col /\
    forall i, (i < r)%nat -> get col [i] = get X [i; idx].
Proof.
  intros HX HwX Hidx.
  unfold column. rewrite HX, (wfb_wf _ HwX).
  assert (E : (idx <? c)%nat = true) by (apply Nat.ltb_lt; exact Hidx).
  rewrite E. simpl.
  eexists. split; [reflexivity|].
  split; [reflexivity|]. split; [apply wf_tabulate|].
  intros i Hi. rewrite get_tabulate by (simpl; auto). reflexivity.
Qed.

(** C10.  For a two-dimensional [X : (r, c)] and [0 <= idx < c], the forward
    of [get_col(idx)] returns column [idx] of [X], one value per row; its
    backward, given [g] with one entry per row, returns an array of the shape
    of [X] that holds [g] in column [idx] and zero in every other column. *)
Theorem get_col_selects_column (idx : Z) (X g : ndarray) (r c : nat) :
  shape X = [r; c] -> wf X ->
  0 <= idx < Z.of_nat c ->
  shape g = [r] -> wf g ->
  exists layer output backward dX,
    get_col idx = Some layer /\
    layer X = Some (output, backward) /\
    shape output = [r] /\ wf output /\
    (forall i, (i < r)%nat -> get output [i] = get X [i; Z.to_nat idx]) /\
    backward g = Some dX /\
    shape dX = shape X /\ wf dX /\
    (forall i j, (i < r)%nat -> (j < c)%nat ->
       get dX [i; j] = if (j =? Z.to_nat idx)%nat then get g [i] else 0).
Proof.
  intros HX HwX Hidx Hg Hwg.
  assert (E0 : (0 <=? idx) = true) by (apply Z.leb_le; lia).
  assert (Hn : (Z.to_nat idx < c)%nat) by lia.
  destruct (column_2d X r c _ HX HwX Hn) as (col & Hcol & Hscol & Hwcol & Hgcol).
  destruct (column_2d (zeros (shape X)) r c (Z.to_nat idx))
    as (zcol & Hzcol & Hszcol & Hwzcol & Hgzcol);
    [rewrite HX; reflexivity | apply wf_tabulate | exact Hn |].
  destruct (iadd_same_shape zcol g) as (col' & Hcol' & Hscol' & Hwcol' & Hgcol');
    [rewrite Hg, Hszcol; reflexivity | exact Hwzcol | exact Hwg |].
  exists (get_col_forward idx), col, (get_col_backward idx X).
  eexists.
  split; [unfold get_col; rewrite E0; reflexivity|].
  split; [unfold get_col_forward; rewrite E0; simpl; rewrite Hcol; reflexivity|].
  split; [exact Hscol|]. split; [exact Hwcol|]. split; [exact Hgcol|].
  split.
  { unfold get_col_backward, column_iadd. rewrite E0. simpl.
    rewrite Hzcol. simpl. rewrite Hcol'. simpl. reflexivity. }
  split; [reflexivity|]. split; [apply wf_tabulate|].
  intros i j Hi Hj.
  rewrite get_tabulate by (cbn; rewrite HX; simpl; auto).
  destruct (j =? Z.to_nat idx)%nat eqn:E.
  - rewrite Hgcol' by (rewrite Hszcol; simpl; auto).
    rewrite Hgzcol by exact Hi.
    unfold zeros at 1. rewrite get_tabulate by (rewrite HX; simpl; auto).
    reflexivity.
  - unfold zeros. rewrite get_tabulate by (rewrite HX; simpl; auto).
    reflexivity.
Qed.

Lemma get_col_selects_column_witness :
  shape Examples.X_2x3 = [2; 3]%nat /\ wf Examples.X_2x3 /\
  0 <= 1 < Z.of_nat 3 /\
  shape (mk_ndarray [2%nat] [7; 8]) = [2%nat] /\
  wf (mk_ndarray [2%nat] [7; 8]) /\
  exists layer output backward dX,
    get_col 1 = Some layer /\
    layer Examples.X_2x3 = Some (output, backward) /\
    data output = [2; 5] /\
    backward (mk_ndarray [2%nat] [7; 8]) = Some dX /\
    data dX = [0; 7; 0; 0; 8; 0].
Proof.
  assert (Hi : 0 <= 1 < Z.of_nat 3) by (simpl; lia).
  repeat (split; [first [exact Hi | reflexivity]|]).
  destruct (get_col_selects_column 1 Examples.X_2x3 (mk_ndarray [2%nat] [7; 8])
              2 3 eq_refl eq_refl Hi eq_refl eq_refl)
    as (layer & output & backward & dX & Hl & Hf & _ & _ & _ & Hb & _).
  exists layer, output, backward, dX.
  injection Hl as <-.
  vm_compute in Hf. injection Hf as <- <-.
  vm_compute in Hb. injection Hb as <-.
  repeat split; reflexivity.
Defined.

(** ** reapply *)

(** *** The heap *)

Lemma nth_error_heap_set_same (h : Heap) (l : loc) (v : ndarray) :
  (l < length h)%nat -> nth_error (heap_set h l v) l = Some v.
Proof.
  revert l. induction h as [|a h IH]; intros [|l] Hl; simpl in *; try lia.
  - reflexivity.
  - apply IH. lia.
Qed.

Lemma nth_error_heap_set_other (h : Heap) (l l' : loc) (v : ndarray) :
  l <> l' -> nth_error (heap_set h l v) l' = nth_error h l'.
Proof.
  revert l l'.
  induction h as [|a h IH]; intros [|l] [|l'] Hne; simpl; try reflexivity.
  - contradiction.
  - apply IH. intros ->. apply Hne. reflexivity.
Qed.

Lemma length_heap_set (h : Heap) (l : loc) (v : ndarray) :
  length (heap_set h l v) = length h.
Proof.
  revert l. induction h as [|a h IH]; intros [|l]; simpl; try reflexivity.
  rewrite IH. reflexivity.
Qed.

Lemma nth_error_alloc_old (h : Heap) (v : ndarray) (l : loc) :
  (l < length h)%nat -> nth_error (h ++ [v]) l = nth_error h l.
Proof. intros Hl. apply nth_error_app1. exact Hl. Qed.

Lemma nth_error_alloc_new (h : Heap) (v : ndarray) :
  nth_error (h ++ [v]) (length h) = Some v.
Proof.
  rewrite nth_error_app2 by lia. rewrite Nat.sub_diag. reflexivity.
Qed.

Lemma accumulate_none (ds : list ndarray) : accumulate None ds = None.
Proof. induction ds as [|d ds IH]; simpl; [reflexivity | exact IH]. Qed.

(** *** Closures that return newly allocated arrays *)

(** The loop of [reapply_bwd] once [dX] is bound: [dX] refers to the
    accumulated gradient [acc], [dY] to the latest partial gradient [cur]. *)
Lemma reapply_bwd_loop_fresh {Sgd : Type} (gs : list (ndarray -> ndarray))
    (sgd : option Sgd) :
  forall (h : Heap) (lx ly : loc) (acc cur total : ndarray),
    nth_error h lx = Some acc ->
    nth_error h ly = Some cur ->
    accumulate (Some acc) (replay gs cur) = Some total ->
    exists h',
      reapply_bwd_loop (map fresh_backprop gs) (Some lx) (Some ly) sgd h
      = Some (Some lx, h') /\
      nth_error h' lx = Some total /\
      (forall l, (l < length h)%nat -> l <> lx ->
                 nth_error h' l = nth_error h l).
Proof.
  induction gs as [|g gs IH]; intros h lx ly acc cur total Hx Hy Hacc.
  - simpl in *. injection Hacc as <-.
    exists h. split; [reflexivity|]. split; [exact Hx|]. reflexivity.
  - simpl in Hacc.
    destruct (iadd acc (g cur)) as [acc'|] eqn:Eadd;
      [|rewrite accumulate_none in Hacc; discriminate Hacc].
    assert (Hlx : (lx < length h)%nat)
      by (apply nth_error_Some; rewrite Hx; discriminate).
    cbn [map reapply_bwd_loop]. unfold fresh_backprop at 1.
    rewrite Hy. cbn [bind heap_alloc].
    unfold iadd_inplace.
    rewrite nth_error_alloc_old by exact Hlx.
    rewrite Hx, nth_error_alloc_new. cbn [bind]. rewrite Eadd. cbn [bind].
    destruct (IH (heap_set (h ++ [g cur]) lx acc') lx (length h) acc' (g cur)
                total) as (h' & Hrun & Htotal & Hframe).
    + apply nth_error_heap_set_same. rewrite length_app. simpl. lia.
    + rewrite nth_error_heap_set_other by lia. apply nth_error_alloc_new.
    + exact Hacc.
    + exists h'. split; [exact Hrun|]. split; [exact Htotal|].
      intros l Hl Hne.
      rewrite Hframe by (rewrite ?length_heap_set, ?length_app; simpl; lia).
      rewrite nth_error_heap_set_other by (intros ->; apply Hne; reflexivity).
      apply nth_error_alloc_old. exact Hl.
Qed.

(** When every captured closure returns a newly allocated array,
    [reapply_bwd] returns the sum of the partial gradients of all replay
    steps, and leaves the arrays that existed before the call as they were. *)
Lemma reapply_bwd_fresh {Sgd : Type} (gs : list (ndarray -> ndarray))
    (sgd : option Sgd) (h : Heap) (l : loc) (dY total : ndarray) :
  nth_error h l = Some dY ->
  reapply_bwd_spec gs dY = Some total ->
  exists lx h',
    reapply_bwd (map fresh_backprop gs) (Some l) sgd h = Some (Some lx, h') /\
    nth_error h' lx = Some total /\
    (forall l0, (l0 < length h)%nat -> nth_error h' l0 = nth_error h l0).
Proof.
  intros Hl Hspec. unfold reapply_bwd, reapply_bwd_spec in *.
  rewrite <- map_rev.
  destruct (rev gs) as [|g gs']; simpl in Hspec; [discriminate Hspec|].
  cbn [map reapply_bwd_loop]. unfold fresh_backprop at 1.
  rewrite Hl. cbn [bind heap_alloc].
  destruct (reapply_bwd_loop_fresh gs' sgd (h ++ [g dY]) (length h) (length h)
              (g dY) (g dY) total) as (h' & Hrun & Htotal & Hframe);
    [apply nth_error_alloc_new | apply nth_error_alloc_new | exact Hspec |].
  exists (length h), h'. split; [exact Hrun|]. split; [exact Htotal|].
  intros l0 Hl0.
  rewrite Hframe by (rewrite ?length_app; simpl; lia).
  apply nth_error_alloc_old. exact Hl0.
Qed.

(** The loop of [reapply_fwd] applies the layer [n] times in sequence. *)
Lemma reapply_fwd_loop_sequence {Drop Sgd : Type} (layer : @HLayer Drop Sgd)
    (drop : Drop) :
  forall n X Y backprops h,
    reapply_fwd_loop n layer X Y backprops drop h =
    match apply_in_sequence n layer X drop h with
    | Some (Z, bps, h') =>
        Some (match n with O => Y | S _ => Some Z end, backprops ++ bps, h')
    | None => None
    end.
Proof.
  induction n as [|n IH]; intros X Y backprops h; simpl.
  - rewrite app_nil_r. reflexivity.
  - destruct (h_begin_update layer X drop h) as [[[Y' bp] h']|]; simpl;
      [|reflexivity].
    rewrite IH. destruct n as [|n].
    + simpl. rewrite <- app_assoc. reflexivity.
    + destruct (apply_in_sequence (S n) layer Y' drop h') as [[[Z bps] h'']|];
        simpl; [|reflexivity].
      rewrite <- app_assoc. reflexivity.
Qed.

(** For [n_times >= 1], [reapply_fwd] returns the output of the [n_times]-th
    application, and its closure replays the captured closures. *)
Lemma reapply_fwd_sequence {Drop Sgd : Type} (layer : @HLayer Drop Sgd)
    (n_times : nat) (X : PyVal) (drop : Drop) (h : Heap) :
  (1 <= n_times)%nat ->
  reapply_fwd layer n_times X drop h =
  match apply_in_sequence n_times layer X drop h with
  | Some (Z, bps, h') => Some ((Z, reapply_bwd bps), h')
  | None => None
  end.
Proof.
  intros Hn. unfold reapply_fwd. rewrite reapply_fwd_loop_sequence.
  destruct (apply_in_sequence n_times layer X drop h) as [[[Z bps] h']|];
    simpl; [|reflexivity].
  destruct n_times as [|n]; [lia | reflexivity].
Qed.

(** The forward of [reapply] with [n_times = 0] produces no result: the
    local variable [Y] is never bound. *)
Lemma reapply_fwd_zero_times {Drop Sgd : Type} (layer : @HLayer Drop Sgd)
    (X : PyVal) (drop : Drop) (h : Heap) :
  reapply_fwd layer 0 X drop h = None.
Proof. reflexivity. Qed.

(** C6, evaluated on [reapply(print_shape(...), 3)].  The backward closure
    of [print_shape] returns the array it is given, so the accumulator [dX]
    and the threaded gradient [dY] are one array: after the first replay step
    [dX += dY] doubles it at every step.  For the output gradient [1, 1] the
    closure returns [4, 4] and has overwritten the caller's gradient array,
    where the sum of the three partial gradients is [3, 3]. *)
Theorem reapply_bwd_aliasing :
  exists bwd : @HBackprop unit,
    reapply_fwd print_shape 3 (Some 0%nat) tt [Examples.X_vec]
    = Some ((Some 0%nat, bwd), [Examples.X_vec]) /\
    bwd (Some 1%nat) None [Examples.X_vec; Examples.dY_vec]
    = Some (Some 1%nat, [Examples.X_vec; mk_ndarray [2%nat] [4; 4]]) /\
    reapply_bwd_spec [fun dX => dX; fun dX => dX; fun dX => dX] Examples.dY_vec
    = Some (mk_ndarray [2%nat] [3; 3]).
Proof.
  eexists. split; [reflexivity|]. split; reflexivity.
Qed.

(** * Further properties *)

(** ** _divide_array: chunk count, empty input, chunk size 0 *)

Lemma chunking_tail {T : Type} (size : nat) (c : list T)
    (rest : list (list T)) (X : list T) :
  chunking size X (c :: rest) ->
  X = c ++ concat rest /\ chunking size (concat rest) rest /\
  (rest <> [] -> length c = size) /\ (1 <= length c <= size)%nat.
Proof.
  intros (Hcat & Hlen & Hfull).
  pose proof (Forall_inv Hlen) as Hc.
  pose proof (Forall_inv_tail Hlen) as Hrest.
  split; [symmetry; exact Hcat|].
  destruct rest as [|c' rest'].
  - split; [repeat split; constructor|]. split; [congruence | exact Hc].
  - change (removelast (c :: c' :: rest'))
      with (c :: removelast (c' :: rest')) in Hfull.
    split; [split; [reflexivity | split;
                    [exact Hrest | exact (Forall_inv_tail Hfull)]]|].
    split; [intros _; exact (Forall_inv Hfull) | exact Hc].
Qed.

Lemma chunking_length {T : Type} (size : nat) (parts : list (list T)) :
  (1 <= size)%nat ->
  forall X, chunking size X parts ->
            length parts = ((length X + size - 1) / size)%nat.
Proof.
  intros Hsize.
  induction parts as [|c rest IH]; intros X H.
  - destruct H as (Hcat & _). simpl in Hcat. subst X. simpl.
    symmetry. apply Nat.div_small. lia.
  - destruct (chunking_tail size c rest X H) as (-> & Hrest & Hfull & Hc).
    rewrite length_app. simpl.
    destruct rest as [|c' rest'].
    + simpl. rewrite Nat.add_0_r.
      apply (Nat.div_unique _ _ 1 (length c - 1)); lia.
    + rewrite (IH _ Hrest). rewrite Hfull by discriminate.
      replace (size + length (concat (c' :: rest')) + size - 1)%nat
        with (1 * size + (length (concat (c' :: rest')) + size - 1))%nat by lia.
      rewrite Nat.div_add_l by lia. reflexivity.
Qed.

Lemma chunking_nonempty {T : Type} (size : nat) (X : list T)
    (parts : list (list T)) :
  chunking size X parts -> Forall (fun c => c <> []) parts.
Proof.
  intros (_ & Hlen & _).
  apply (Forall_impl _ (P := fun c => (1 <= length c <= size)%nat));
    [|exact Hlen].
  intros c Hc ->. simpl in Hc. lia.
Qed.

(** With chunk size 0 the loop makes no progress: from an index inside [X]
    no amount of fuel gives a result. *)
Lemma divide_array_loop_size0 {T : Type} (X : list T) :
  forall fuel index parts,
    (index < length X)%nat -> _divide_array_loop fuel X 0 index parts = None.
Proof.
  induction fuel as [|fuel IH]; intros index parts Hi; simpl; [reflexivity|].
  assert (E : (index <? length X)%nat = true) by (apply Nat.ltb_lt; exact Hi).
  rewrite E. apply IH. lia.
Qed.

(** X1.  For a chunk size of at least 1, [_divide_array] terminates; the
    parts, concatenated in order, give back [X]; no part is empty; and there
    are [ceil(len(X) / size)] of them. *)
Theorem divide_array_partition {T : Type} (X : list T) (size : nat) :
  (1 <= size)%nat ->
  exists parts,
    _divide_array X size = Some parts /\
    concat parts = X /\
    Forall (fun c => c <> []) parts /\
    length parts = ((length X + size - 1) / size)%nat.
Proof.
  intros Hsize.
  destruct (divide_array_spec size X Hsize) as (parts & Hrun & Hchunks).
  exists parts. split; [exact Hrun|].
  split; [apply Hchunks|].
  split; [exact (chunking_nonempty size X parts Hchunks)|].
  exact (chunking_length size parts Hsize X Hchunks).
Qed.

Lemma divide_array_partition_witness :
  (1 <= 2)%nat /\
  exists parts,
    _divide_array [1; 2; 3; 4; 5] 2 = Some parts /\
    concat parts = [1; 2; 3; 4; 5] /\
    Forall (fun c => c <> []) parts /\
    length parts = 3%nat.
Proof.
  assert (Hk : (1 <= 2)%nat) by lia.
  split; [exact Hk|].
  exact (divide_array_partition [1; 2; 3; 4; 5] 2 Hk).
Defined.

(** X2.  With chunk size 0, [_divide_array] returns no parts for an empty
    [X], and for a non-empty [X] its loop never finishes: it returns nothing
    however many iterations it is given. *)
Theorem divide_array_size_zero {T : Type} (X : list T) :
  (X = [] -> _divide_array X 0 = Some []) /\
  (X <> [] ->
   forall fuel, _divide_array_loop fuel X 0 0 [] = None).
Proof.
  split.
  - intros ->. reflexivity.
  - intros Hne fuel. apply divide_array_loop_size0.
    destruct X; [contradiction | simpl; lia].
Qed.

Lemma divide_array_size_zero_witness :
  [7; 8] <> @nil Z /\
  forall fuel, _divide_array_loop fuel [7; 8] 0 0 [] = None.
Proof.
  assert (Hne : [7; 8] <> @nil Z) by discriminate.
  split; [exact Hne|].
  exact (proj2 (divide_array_size_zero [7; 8]) Hne).
Defined.

(** ** rebatch: chunk size 0, and the gradient path *)

(** X3.  [rebatch(size, layer)] has a forward result exactly for chunk sizes
    of at least 1: with [size >= 1] the forward returns for every batch, and
    with [size = 0] it never does (an empty batch cannot be unpacked, a
    non-empty one is divided forever). *)
Theorem rebatch_forward_needs_positive_size {A B St Drop Sgd : Type}
    (zero_B : B) (drop_default : Drop)
    (ops_flatten_grads : list (@Gradient A) -> exn + list A)
    (layer : @Layer A B St Drop Sgd) (X : list A) (drop : Drop) (st : St) :
  (forall size, (1 <= size)%nat ->
     exists r,
       rebatch_forward zero_B drop_default ops_flatten_grads size layer X
         drop st = Some r) /\
  rebatch_forward zero_B drop_default ops_flatten_grads 0 layer X drop st
  = None.
Proof.
  split.
  - intros size Hsize.
    destruct (Nat.lt_ge_cases (length X) size) as [Hlt|Hge].
    + unfold rebatch_forward.
      assert (E : (length X <? size)%nat = true) by (apply Nat.ltb_lt; exact Hlt).
      rewrite E. eexists. reflexivity.
    + destruct (rebatch_forward_chunked zero_B drop_default ops_flatten_grads
                  size layer X drop st Hsize Hge) as (parts & _ & _ & Hrun).
      destruct (begin_update_parts layer parts drop st) as [rs st'].
      eexists. exact Hrun.
  - unfold rebatch_forward. simpl.
    destruct X as [|x X]; [reflexivity|].
    unfold _divide_array.
    rewrite divide_array_loop_size0 by (simpl; lia). reflexivity.
Qed.

Lemma rebatch_forward_needs_positive_size_witness :
  (1 <= 3)%nat /\
  (exists r,
      rebatch_forward 0 tt (ops_flatten_optional 0) 3 Examples.doubling_layer
        [1; 2; 3; 4] tt 0%nat = Some r) /\
  rebatch_forward 0 tt (ops_flatten_optional 0) 0 Examples.doubling_layer
    [1; 2; 3; 4] tt 0%nat = None.
Proof.
  assert (Hk : (1 <= 3)%nat) by lia.
  split; [exact Hk|].
  split.
  - exact (proj1 (rebatch_forward_needs_positive_size 0 tt
                    (ops_flatten_optional 0) Examples.doubling_layer
                    [1; 2; 3; 4] tt 0%nat) 3%nat Hk).
  - exact (proj2 (rebatch_forward_needs_positive_size 0 tt
                    (ops_flatten_optional 0) Examples.doubling_layer
                    [1; 2; 3; 4] tt 0%nat)).
Defined.

(** The first [m] chunks of a division of [X] are the first [size * m]
    items of [X]. *)
Lemma chunking_firstn {T : Type} (size : nat) (parts : list (list T)) :
  forall (X : list T) (m : nat),
    chunking size X parts ->
    concat (firstn m parts) = firstn (size * m) X.
Proof.
  induction parts as [|c rest IH]; intros X m H.
  - destruct H as (Hcat & _). simpl in Hcat. subst X.
    rewrite firstn_nil. simpl. rewrite firstn_nil. reflexivity.
  - destruct (chunking_tail size c rest X H) as (-> & Hrest & Hfull & Hc).
    destruct m as [|m].
    + rewrite Nat.mul_0_r. reflexivity.
    + simpl firstn at 1. simpl concat.
      rewrite (IH _ m Hrest).
      rewrite firstn_app.
      destruct rest as [|c' rest'].
      * simpl. rewrite !firstn_nil, !app_nil_r.
        symmetry. apply firstn_all2. nia.
      * assert (Hk : length c = size) by (apply Hfull; discriminate).
        rewrite (firstn_all2 (n := (size * S m)%nat) c) by nia.
        rewrite Hk. f_equal. f_equal. nia.
Qed.

(** The chunk closures of an item-wise layer, called on the chunks of the
    gradient: as many calls as there are closures and chunks. *)
Lemma call_backprops_itemwise {A B St Sgd : Type} (g : B -> A)
    (sgd : option Sgd) (st : St) :
  forall (bps : list (@Backprop A B St Sgd)) (dy_parts : list (list B)),
    Forall (fun bp => forall y s t, bp y s t = (Returns (Some (map g y)), t))
      bps ->
    call_backprops (combine bps dy_parts) sgd st
    = (Returns (map (fun c => Some (map g c)) (firstn (length bps) dy_parts)),
       st).
Proof.
  induction bps as [|bp bps IH]; intros dy_parts Hall; [reflexivity|].
  destruct dy_parts as [|y dy_parts]; [reflexivity|].
  simpl. rewrite (Forall_inv Hall).
  rewrite (IH dy_parts (Forall_inv_tail Hall)). reflexivity.
Qed.

(** X4.  When every chunk closure maps the gradient rows it is given by one
    function [g], and the backend's flatten concatenates present chunks,
    the backward closure of [rebatch] returns [g] of the gradient rows, in
    order, for the rows that the captured closures cover: the first
    [size * len(bp_results)] rows.  Rows beyond that are dropped without an
    error (the [zip] stops at the shorter list). *)
Theorem rebatch_backward_itemwise {A B St Sgd : Type}
    (ops_flatten_grads : list (@Gradient A) -> exn + list A)
    (g : B -> A) (size : nat) (bp_results : list (@Backprop A B St Sgd))
    (dy : list B) (sgd : option Sgd) (st : St) :
  (1 <= size)%nat ->
  (forall chunks, ops_flatten_grads (map Some chunks) = inr (concat chunks)) ->
  Forall (fun bp => forall y s t, bp y s t = (Returns (Some (map g y)), t))
    bp_results ->
  rebatch_backward ops_flatten_grads size bp_results dy sgd st
  = (Returns (Some (map g (firstn (size * length bp_results) dy))), st).
Proof.
  intros Hsize Hflat Hall.
  destruct (divide_array_spec size dy Hsize) as (dy_parts & Hdiv & Hchunks).
  unfold rebatch_backward. rewrite Hdiv.
  rewrite (call_backprops_itemwise g sgd st bp_results dy_parts Hall).
  rewrite <- (map_map (map g) Some), Hflat.
  rewrite <- concat_map.
  rewrite (chunking_firstn size dy_parts dy (length bp_results) Hchunks).
  reflexivity.
Qed.

Lemma rebatch_backward_itemwise_witness :
  (1 <= 2)%nat /\
  (forall chunks : list (list Z),
      ops_flatten_optional 0 (map Some chunks) = inr (concat chunks)) /\
  rebatch_backward (ops_flatten_optional 0) 2
    (map snd (fst (begin_update_parts Examples.doubling_layer
                     [[1; 2]; [3; 4]; [5]] tt 0%nat)))
    [1; 1; 1; 1; 1; 1; 1; 1] None 3%nat
  = (Returns (Some [2; 2; 2; 2; 2; 2]), 3%nat).
Proof.
  assert (Hk : (1 <= 2)%nat) by lia.
  split; [exact Hk|].
  split; [exact (ops_flatten_optional_present 0)|].
  apply (rebatch_backward_itemwise (ops_flatten_optional 0) (Z.mul 2) 2
           (map snd (fst (begin_update_parts Examples.doubling_layer
                            [[1; 2]; [3; 4]; [5]] tt 0%nat)))
           [1; 1; 1; 1; 1; 1; 1; 1] None 3%nat Hk
           (ops_flatten_optional_present 0)).
  repeat constructor.
Defined.

(** ** get_col: bad indices, broadcasting, and the backward as transpose *)

Lemma sum_upto_S (n : nat) (f : nat -> Z) :
  sum_upto (S n) f = sum_upto n f + f n.
Proof.
  unfold sum_upto. rewrite seq_S, map_app. simpl.
  unfold sumZ. rewrite fold_right_app. simpl.
  generalize (map f (seq 0 n)) as l.
  induction l as [|x l IH]; simpl; [lia|]. rewrite IH. lia.
Qed.

Lemma sum_upto_0 (f : nat -> Z) : sum_upto 0 f = 0.
Proof. reflexivity. Qed.

(** A sum with a single non-zero term. *)
Lemma sum_upto_single (n k : nat) (f : nat -> Z) :
  (k < n)%nat ->
  sum_upto n (fun j => if (j =? k)%nat then f j else 0) = f k.
Proof.
  induction n as [|n IH]; intros Hk; [lia|].
  rewrite sum_upto_S.
  destruct (Nat.eq_dec k n) as [->|Hne].
  - rewrite Nat.eqb_refl.
    rewrite (sum_upto_ext _ _ (fun _ => 0)).
    + rewrite sum_upto_zero. lia.
    + intros i Hi. destruct (i =? n)%nat eqn:E; [|reflexivity].
      apply Nat.eqb_eq in E. lia.
  - rewrite IH by lia.
    destruct (n =? k)%nat eqn:E; [apply Nat.eqb_eq in E; lia | lia].
Qed.

(** The backward of [get_col] on a gradient with [m] entries, [m] being the
    number of rows of [X] or 1. *)
Lemma get_col_backward_rows (idx : Z) (X g : ndarray) (r c m : nat) :
  shape X = [r; c] -> 0 <= idx < Z.of_nat c ->
  shape g = [m] -> wf g -> m = r \/ m = 1%nat ->
  exists dX,
    get_col_backward idx X g = Some dX /\
    shape dX = [r; c] /\ wf dX /\
    forall i j, (i < r)%nat -> (j < c)%nat ->
      get dX [i; j] =
      if (j =? Z.to_nat idx)%nat
      then get g [if (m =? 1)%nat then 0%nat else i]
      else 0.
Proof.
  intros HX Hidx Hg Hwg Hm.
  assert (E0 : (0 <=? idx) = true) by (apply Z.leb_le; lia).
  assert (Hn : (Z.to_nat idx < c)%nat) by lia.
  destruct (column_2d (zeros [r; c]) r c (Z.to_nat idx))
    as (zcol & Hzcol & Hszcol & Hwzcol & Hgzcol);
    [reflexivity | apply wf_tabulate | exact Hn |].
  assert (Hok : ((m =? r)%nat || (m =? 1)%nat) = true).
  { destruct Hm as [->| ->]; rewrite Nat.eqb_refl; [reflexivity|].
    apply orb_true_r. }
  unfold get_col_backward, column_iadd. rewrite E0, HX. simpl.
  rewrite Hzcol. simpl.
  unfold iadd. rewrite (wfb_wf _ Hwzcol), (wfb_wf _ Hwg), Hszcol, Hg.
  cbn. rewrite Hok. cbn.
  eexists. split; [reflexivity|].
  split; [reflexivity|]. split; [apply wf_tabulate|].
  intros i j Hi Hj.
  rewrite get_tabulate by (simpl; auto).
  destruct (j =? Z.to_nat idx)%nat eqn:E.
  - rewrite get_tabulate by (simpl; auto).
    cbn. rewrite Hgzcol by exact Hi.
    unfold zeros. rewrite get_tabulate by (simpl; auto). reflexivity.
  - unfold zeros. rewrite get_tabulate by (simpl; auto). reflexivity.
Qed.

(** X5.  [get_col] rejects a negative column number at once (its [assert]
    fails, and so would those of the forward and the backward), and the
    forward fails on a column number that is not below the number of columns
    of [X], or on an array with a single axis. *)
Theorem get_col_rejects_bad_index (idx : Z) :
  (idx < 0 ->
   get_col idx = None /\
   (forall X, get_col_forward idx X = None) /\
   (forall X g, get_col_backward idx X g = None)) /\
  (forall X r c,
      shape X = [r; c] -> Z.of_nat c <= idx -> get_col_forward idx X = None) /\
  (forall X n, shape X = [n] -> get_col_forward idx X = None).
Proof.
  split; [|split].
  - intros Hneg.
    assert (E : (0 <=? idx) = false) by (apply Z.leb_gt; exact Hneg).
    unfold get_col, get_col_forward, get_col_backward. rewrite E.
    repeat split.
  - intros X r c HX Hidx. unfold get_col_forward, column.
    destruct (0 <=? idx); simpl; [|reflexivity].
    rewrite HX.
    assert (E : (Z.to_nat idx <? c)%nat = false) by (apply Nat.ltb_ge; lia).
    rewrite E, andb_false_r. reflexivity.
  - intros X n HX. unfold get_col_forward, column.
    destruct (0 <=? idx); simpl; [|reflexivity].
    rewrite HX. reflexivity.
Qed.

Lemma get_col_rejects_bad_index_witness :
  -1 < 0 /\
  get_col (-1) = None /\
  shape Examples.X_2x3 = [2; 3]%nat /\ Z.of_nat 3 <= 3 /\
  get_col_forward 3 Examples.X_2x3 = None.
Proof.
  assert (Hneg : -1 < 0) by lia.
  assert (Hbig : Z.of_nat 3 <= 3) by (simpl; lia).
  split; [exact Hneg|].
  split; [exact (proj1 (proj1 (get_col_rejects_bad_index (-1)) Hneg))|].
  split; [reflexivity|]. split; [exact Hbig|].
  exact (proj1 (proj2 (get_col_rejects_bad_index 3)) Examples.X_2x3 2%nat
           3%nat eq_refl Hbig).
Defined.

(** X6.  The backward of [get_col] is the transpose of its forward: the
    forward applied to the gradient array that the backward returns gives
    back the gradient [g], and for every [X] the pairing of the forward
    output with [g] equals the pairing of [X] with the backward of [g]:
    [sum_i X[i,idx] * g[i] = sum_i sum_j X[i,j] * dX[i,j]]. *)
Theorem get_col_backward_is_transpose (idx : Z) (X g : ndarray) (r c : nat) :
  shape X = [r; c] -> wf X ->
  0 <= idx < Z.of_nat c ->
  shape g = [r] -> wf g ->
  exists output bwd dX again bwd',
    get_col_forward idx X = Some (output, bwd) /\
    bwd g = Some dX /\
    get_col_forward idx dX = Some (again, bwd') /\
    shape again = [r] /\
    (forall i, (i < r)%nat -> get again [i] = get g [i]) /\
    sum_upto r (fun i => get output [i] * get g [i])
    = sum_upto r (fun i => sum_upto c (fun j => get X [i; j] * get dX [i; j])).
Proof.
  intros HX HwX Hidx Hg Hwg.
  assert (E0 : (0 <=? idx) = true) by (apply Z.leb_le; lia).
  assert (Hn : (Z.to_nat idx < c)%nat) by lia.
  destruct (column_2d X r c _ HX HwX Hn) as (col & Hcol & Hscol & Hwcol & Hgcol).
  destruct (get_col_backward_rows idx X g r c r HX Hidx Hg Hwg (or_introl eq_refl))
    as (dX & HdX & HsdX & HwdX & HgdX).
  destruct (column_2d dX r c _ HsdX HwdX Hn)
    as (col2 & Hcol2 & Hscol2 & Hwcol2 & Hgcol2).
  exists col, (get_col_backward idx X), dX, col2, (get_col_backward idx dX).
  split; [unfold get_col_forward; rewrite E0; simpl; rewrite Hcol; reflexivity|].
  split; [exact HdX|].
  split; [unfold get_col_forward; rewrite E0; simpl; rewrite Hcol2; reflexivity|].
  split; [exact Hscol2|].
  assert (Hsel : forall i, (i < r)%nat ->
                   get dX [i; Z.to_nat idx]
                   = get g [if (r =? 1)%nat then 0%nat else i]).
  { intros i Hi. rewrite HgdX by assumption. rewrite Nat.eqb_refl. reflexivity. }
  assert (Hsame : forall i, (i < r)%nat ->
                    get g [if (r =? 1)%nat then 0%nat else i] = get g [i]).
  { intros i Hi. destruct (r =? 1)%nat eqn:E; [|reflexivity].
    apply Nat.eqb_eq in E. replace i with 0%nat by lia. reflexivity. }
  split.
  { intros i Hi. rewrite Hgcol2, Hsel, Hsame by assumption. reflexivity. }
  apply sum_upto_ext. intros i Hi.
  rewrite Hgcol by exact Hi.
  rewrite (sum_upto_ext c _
             (fun j => if (j =? Z.to_nat idx)%nat
                       then get X [i; j] * get g [i] else 0)).
  - rewrite (sum_upto_single c (Z.to_nat idx)
               (fun j => get X [i; j] * get g [i])) by exact Hn.
    reflexivity.
  - intros j Hj. rewrite HgdX by assumption.
    destruct (j =? Z.to_nat idx)%nat; [rewrite Hsame by exact Hi; reflexivity|].
    apply Z.mul_0_r.
Qed.

Lemma get_col_backward_is_transpose_witness :
  shape Examples.X_2x3 = [2; 3]%nat /\ wf Examples.X_2x3 /\
  0 <= 1 < Z.of_nat 3 /\
  shape (mk_ndarray [2%nat] [7; 8]) = [2%nat] /\
  wf (mk_ndarray [2%nat] [7; 8]) /\
  exists output bwd dX again bwd',
    get_col_forward 1 Examples.X_2x3 = Some (output, bwd) /\
    bwd (mk_ndarray [2%nat] [7; 8]) = Some dX /\
    get_col_forward 1 dX = Some (again, bwd') /\
    data again = [7; 8].
Proof.
  assert (Hi : 0 <= 1 < Z.of_nat 3) by (simpl; lia).
  repeat (split; [first [exact Hi | reflexivity]|]).
  destruct (get_col_backward_is_transpose 1 Examples.X_2x3
              (mk_ndarray [2%nat] [7; 8]) 2 3 eq_refl eq_refl Hi eq_refl
              eq_refl)
    as (output & bwd & dX & again & bwd' & Hf & Hb & Hf2 & _).
  exists output, bwd, dX, again, bwd'.
  split; [exact Hf|]. split; [exact Hb|]. split; [exact Hf2|].
  vm_compute in Hf. injection Hf as <- <-.
  vm_compute in Hb. injection Hb as <-.
  vm_compute in Hf2. injection Hf2 as <- _. reflexivity.
Defined.

(** X7.  The backward of [get_col] accepts a gradient with one entry and
    broadcasts it down column [idx]; a one-axis gradient whose length is
    neither 1 nor the number of rows of [X] is rejected. *)
Theorem get_col_backward_broadcast (idx : Z) (X g : ndarray) (r c m : nat) :
  shape X = [r; c] -> 0 <= idx < Z.of_nat c ->
  shape g = [m] -> wf g ->
  (m = 1%nat ->
   exists dX,
     get_col_backward idx X g = Some dX /\ shape dX = [r; c] /\
     forall i j, (i < r)%nat -> (j < c)%nat ->
       get dX [i; j] = if (j =? Z.to_nat idx)%nat then get g [0%nat] else 0) /\
  (m <> 1%nat -> m <> r -> get_col_backward idx X g = None).
Proof.
  intros HX Hidx Hg Hwg. split.
  - intros ->.
    destruct (get_col_backward_rows idx X g r c 1 HX Hidx Hg Hwg
                (or_intror eq_refl)) as (dX & HdX & HsdX & _ & HgdX).
    exists dX. split; [exact HdX|]. split; [exact HsdX|]. exact HgdX.
  - intros Hm1 Hmr.
    assert (E0 : (0 <=? idx) = true) by (apply Z.leb_le; lia).
    assert (Hn : (Z.to_nat idx < c)%nat) by lia.
    destruct (column_2d (zeros [r; c]) r c (Z.to_nat idx))
      as (zcol & Hzcol & Hszcol & Hwzcol & _);
      [reflexivity | apply wf_tabulate | exact Hn |].
    unfold get_col_backward, column_iadd. rewrite E0, HX. simpl.
    rewrite Hzcol. simpl.
    unfold iadd. rewrite (wfb_wf _ Hwzcol), (wfb_wf _ Hwg), Hszcol, Hg.
    cbn.
    assert (E1 : (m =? r)%nat = false) by (apply Nat.eqb_neq; exact Hmr).
    assert (E2 : (m =? 1)%nat = false) by (apply Nat.eqb_neq; exact Hm1).
    rewrite E1, E2. reflexivity.
Qed.

Lemma get_col_backward_broadcast_witness :
  shape Examples.X_2x3 = [2; 3]%nat /\ 0 <= 1 < Z.of_nat 3 /\
  (exists dX,
      get_col_backward 1 Examples.X_2x3 (mk_ndarray [1%nat] [7]) = Some dX /\
      data dX = [0; 7; 0; 0; 7; 0]) /\
  get_col_backward 1 Examples.X_2x3 (mk_ndarray [3%nat] [7; 8; 9]) = None.
Proof.
  assert (Hi : 0 <= 1 < Z.of_nat 3) by (simpl; lia).
  split; [reflexivity|]. split; [exact Hi|].
  split.
  - destruct (proj1 (get_col_backward_broadcast 1 Examples.X_2x3
                       (mk_ndarray [1%nat] [7]) 2 3 1 eq_refl Hi eq_refl
                       eq_refl) eq_refl) as (dX & HdX & _).
    exists dX. split; [exact HdX|].
    vm_compute in HdX. injection HdX as <-. reflexivity.
  - apply (proj2 (get_col_backward_broadcast 1 Examples.X_2x3
                    (mk_ndarray [3%nat] [7; 8; 9]) 2 3 3 eq_refl Hi eq_refl
                    eq_refl)); lia.
Defined.

(** ** reapply: the forward, and closures with and without aliasing *)

(** X8.  For [n_times >= 1] the forward of [reapply] is the layer applied
    [n_times] times in sequence, each application on the output of the one
    before, with the closures captured in that order; for [n_times = 0] it
    produces no result ([Y] is unbound at the [return]).  With a single
    captured closure the backward of [reapply] is that closure. *)
Theorem reapply_forward_applies_in_sequence {Drop Sgd : Type}
    (layer : @HLayer Drop Sgd) (X : PyVal) (drop : Drop) (h : Heap) :
  (forall n_times, (1 <= n_times)%nat ->
     reapply_fwd layer n_times X drop h =
     match apply_in_sequence n_times layer X drop h with
     | Some (Z, bps, h') => Some ((Z, reapply_bwd bps), h')
     | None => None
     end) /\
  reapply_fwd layer 0 X drop h = None /\
  (forall (backprop : @HBackprop Sgd) dY sgd h0,
     reapply_bwd [backprop] dY sgd h0 = backprop dY sgd h0).
Proof.
  split; [|split].
  - intros n_times Hn. apply reapply_fwd_sequence. exact Hn.
  - reflexivity.
  - intros backprop dY sgd h0. unfold reapply_bwd. simpl.
    destruct (backprop dY sgd h0) as [[dY' h']|]; reflexivity.
Qed.

Lemma reapply_forward_applies_in_sequence_witness :
  (1 <= 3)%nat /\
  exists bwd,
    reapply_fwd MoreExamples.doubling_hlayer 3 (Some 0%nat) tt
      [Examples.dY_vec]
    = Some ((Some 3%nat, bwd),
            [Examples.dY_vec; mk_ndarray [2%nat] [2; 2];
             mk_ndarray [2%nat] [4; 4]; mk_ndarray [2%nat] [8; 8]]).
Proof.
  assert (Hn : (1 <= 3)%nat) by lia.
  split; [exact Hn|].
  pose proof (proj1 (reapply_forward_applies_in_sequence
                       MoreExamples.doubling_hlayer (Some 0%nat) tt
                       [Examples.dY_vec]) 3%nat Hn) as Hrun.
  eexists. rewrite Hrun. reflexivity.
Defined.

(** X9.  When every captured closure writes its result into a newly
    allocated array, the backward of [reapply] returns a new array that
    holds the sum of the partial gradients of all replay steps, and the
    arrays that existed before the call, the caller's gradient among them,
    are left as they were. *)
Theorem reapply_backward_sums_fresh_gradients {Sgd : Type}
    (gs : list (ndarray -> ndarray)) (sgd : option Sgd) (h : Heap) (l : loc)
    (dY total : ndarray) :
  nth_error h l = Some dY ->
  reapply_bwd_spec gs dY = Some total ->
  exists h',
    reapply_bwd (map fresh_backprop gs) (Some l) sgd h
    = Some (Some (length h), h') /\
    nth_error h' (length h) = Some total /\
    (forall l0, (l0 < length h)%nat -> nth_error h' l0 = nth_error h l0).
Proof.
  intros Hl Hspec. unfold reapply_bwd, reapply_bwd_spec in *.
  rewrite <- map_rev.
  destruct (rev gs) as [|g gs']; simpl in Hspec; [discriminate Hspec|].
  cbn [map reapply_bwd_loop]. unfold fresh_backprop at 1.
  rewrite Hl. cbn [bind heap_alloc].
  destruct (reapply_bwd_loop_fresh gs' sgd (h ++ [g dY]) (length h) (length h)
              (g dY) (g dY) total) as (h' & Hrun & Htotal & Hframe);
    [apply nth_error_alloc_new | apply nth_error_alloc_new | exact Hspec |].
  exists h'. split; [exact Hrun|]. split; [exact Htotal|].
  intros l0 Hl0.
  rewrite Hframe by (rewrite ?length_app; simpl; lia).
  apply nth_error_alloc_old. exact Hl0.
Qed.

Lemma reapply_backward_sums_fresh_gradients_witness :
  nth_error [Examples.X_vec; Examples.dY_vec] 1 = Some Examples.dY_vec /\
  reapply_bwd_spec
    [MoreExamples.double; MoreExamples.double; MoreExamples.double]
    Examples.dY_vec = Some (mk_ndarray [2%nat] [14; 14]) /\
  exists h',
    @reapply_bwd unit
      (map fresh_backprop
         [MoreExamples.double; MoreExamples.double; MoreExamples.double])
      (Some 1%nat) None [Examples.X_vec; Examples.dY_vec]
    = Some (Some 2%nat, h') /\
    nth_error h' 2 = Some (mk_ndarray [2%nat] [14; 14]) /\
    nth_error h' 1 = Some Examples.dY_vec.
Proof.
  assert (Hl : nth_error [Examples.X_vec; Examples.dY_vec] 1
               = Some Examples.dY_vec) by reflexivity.
  assert (Hs : reapply_bwd_spec
                 [MoreExamples.double; MoreExamples.double; MoreExamples.double]
                 Examples.dY_vec = Some (mk_ndarray [2%nat] [14; 14]))
    by reflexivity.
  split; [exact Hl|]. split; [exact Hs|].
  destruct (reapply_backward_sums_fresh_gradients (Sgd := unit)
              [MoreExamples.double; MoreExamples.double; MoreExamples.double]
              None [Examples.X_vec; Examples.dY_vec] 1%nat Examples.dY_vec
              (mk_ndarray [2%nat] [14; 14]) Hl Hs)
    as (h' & Hrun & Htotal & Hframe).
  exists h'. split; [exact Hrun|]. split; [exact Htotal|].
  rewrite Hframe by (simpl; lia). reflexivity.
Defined.





(** ** PrecomputableAffine: rejected inputs *)

Lemma norm_index_invalid (n : nat) (k : Z) :
  ~ valid_row n k -> norm_index n k = None.
Proof.
  unfold valid_row, norm_index. intros H.
  destruct (0 <=? k) eqn:E0; destruct (k <? Z.of_nat n) eqn:E1;
    destruct (- Z.of_nat n <=? k) eqn:E2; destruct (k <? 0) eqn:E3;
    simpl; try reflexivity; exfalso; apply H;
    rewrite ?Z.leb_le, ?Z.ltb_lt, ?Z.leb_gt, ?Z.ltb_ge in *; lia.
Qed.

(** X11.  The forward of [PrecomputableAffine] fails on an input whose rows
    do not have [nI] entries, and on an input with a single axis: the
    contraction over the input width cannot be formed. *)
Theorem affine_forward_rejects_wrong_width
    (self : PrecomputableAffine.Model) (X : farray) :
  PrecomputableAffine.resolved self ->
  (forall B w, fshape X = [B; w] -> w <> PrecomputableAffine.nI self ->
               PrecomputableAffine.begin_update self X = None) /\
  (forall n, fshape X = [n] -> PrecomputableAffine.begin_update self X = None).
Proof.
  intros (HW & HwW & _). split.
  - intros B w HX Hw.
    unfold PrecomputableAffine.begin_update, ftensordot, fndim.
    rewrite HX, HW.
    destruct (fwfb X && fwfb (PrecomputableAffine.W self)); [|reflexivity].
    cbn.
    assert (E : (w =? PrecomputableAffine.nI self)%nat = false)
      by (apply Nat.eqb_neq; exact Hw).
    rewrite E. reflexivity.
  - intros n HX.
    unfold PrecomputableAffine.begin_update, ftensordot, fndim.
    rewrite HX, HW.
    destruct (fwfb X && fwfb (PrecomputableAffine.W self)); reflexivity.
Qed.

Lemma affine_forward_rejects_wrong_width_witness :
  PrecomputableAffine.resolved Examples.affine_small /\
  fshape Examples.dY32_2x2 = [2; 2]%nat /\
  2%nat <> PrecomputableAffine.nI Examples.affine_small /\
  PrecomputableAffine.begin_update Examples.affine_small Examples.dY32_2x2
  = None /\
  PrecomputableAffine.begin_update Examples.affine_small (Examples.f32 [2%nat] [1; 1])
  = None.
Proof.
  assert (Hr : PrecomputableAffine.resolved Examples.affine_small)
    by (repeat split; reflexivity).
  assert (Hne : 2%nat <> PrecomputableAffine.nI Examples.affine_small)
    by (simpl; lia).
  split; [exact Hr|]. split; [reflexivity|]. split; [exact Hne|].
  split.
  - exact (proj1 (affine_forward_rejects_wrong_width Examples.affine_small
                    Examples.dY32_2x2 Hr) 2%nat 2%nat eq_refl Hne).
  - exact (proj2 (affine_forward_rejects_wrong_width Examples.affine_small
                    (Examples.f32 [2%nat] [1; 1]) Hr) 2%nat eq_refl).
Defined.

(** X12.  The backward of [PrecomputableAffine] fails, whatever the
    optimizer, when some entry of [ids] is not a row number of the forward
    input (outside [-N, N) for [N] rows), and when [ids] and the output
    gradient differ in their number of rows. *)
Theorem affine_backward_rejects_bad_ids
    (self : PrecomputableAffine.Model) (X dY : farray) (ids : ndarray)
    (sgd : option Optimizer) (N : nat) (rest : list nat) :
  fshape X = N :: rest ->
  (Exists (fun k => ~ valid_row N k) (data ids) ->
   PrecomputableAffine.backward X (dY, ids) sgd self = None) /\
  (forall B B' nO' nF',
      rest = [PrecomputableAffine.nI self] ->
      fshape dY = [B; nO'] -> shape ids = [B'; nF'] -> B <> B' ->
      PrecomputableAffine.backward X (dY, ids) sgd self = None).
Proof.
  intros HX. split.
  - intros Hbad.
    unfold PrecomputableAffine.backward, ftake. rewrite HX.
    destruct (fwfb X && wfb ids); [|reflexivity]. simpl.
    assert (E : forallb (fun k => match norm_index N k with
                                  | Some _ => true
                                  | None => false
                                  end) (data ids) = false).
    { apply Exists_exists in Hbad. destruct Hbad as (k & Hin & Hk).
      destruct (forallb _ (data ids)) eqn:Eall; [|reflexivity].
      rewrite forallb_forall in Eall. specialize (Eall k Hin).
      rewrite (norm_index_invalid N k Hk) in Eall. discriminate Eall. }
    rewrite E. reflexivity.
  - intros B B' nO' nF' -> HdY Hids Hne.
    unfold PrecomputableAffine.backward.
    destruct (ftake X ids) as [Xf|] eqn:Etake; [|reflexivity].
    simpl.
    destruct (ftensordot dY (PrecomputableAffine.W self) [1%nat] [1%nat]);
      [|reflexivity].
    simpl.
    assert (HsXf : fshape Xf = [B'; nF'; PrecomputableAffine.nI self]).
    { unfold ftake in Etake. rewrite HX in Etake.
      destruct (negb (fwfb X && wfb ids)); [discriminate Etake|].
      destruct (negb (forallb _ (data ids))); [discriminate Etake|].
      injection Etake as <-. simpl. rewrite Hids. reflexivity. }
    unfold ftensordot, fndim. rewrite HdY, HsXf.
    destruct (fwfb dY && fwfb Xf); [|reflexivity].
    cbn.
    assert (E : (B =? B')%nat = false) by (apply Nat.eqb_neq; exact Hne).
    rewrite E. reflexivity.
Qed.

Lemma affine_backward_rejects_bad_ids_witness :
  fshape Examples.X32_2x3 = [2; 3]%nat /\
  Exists (fun k => ~ valid_row 2 k) (data (mk_ndarray [2; 2]%nat [0; 1; 2; 0])) /\
  PrecomputableAffine.backward Examples.X32_2x3
    (Examples.dY32_2x2, mk_ndarray [2; 2]%nat [0; 1; 2; 0]) None
    Examples.affine_small = None /\
  PrecomputableAffine.backward Examples.X32_2x3
    (Examples.dY32_2x2, mk_ndarray [1; 2]%nat [0; 1]) None
    Examples.affine_small = None.
Proof.
  assert (Hbad : Exists (fun k => ~ valid_row 2 k)
                   (data (mk_ndarray [2; 2]%nat [0; 1; 2; 0]))).
  { simpl. apply Exists_cons_tl, Exists_cons_tl, Exists_cons_hd.
    unfold valid_row. simpl. lia. }
  split; [reflexivity|]. split; [exact Hbad|].
  split.
  - exact (proj1 (affine_backward_rejects_bad_ids Examples.affine_small
                    Examples.X32_2x3 Examples.dY32_2x2
                    (mk_ndarray [2; 2]%nat [0; 1; 2; 0]) None 2 [3%nat]
                    eq_refl) Hbad).
  - apply (proj2 (affine_backward_rejects_bad_ids Examples.affine_small
                    Examples.X32_2x3 Examples.dY32_2x2
                    (mk_ndarray [1; 2]%nat [0; 1]) None 2 [3%nat] eq_refl)
             2%nat 1%nat 2%nat 2%nat eq_refl eq_refl eq_refl).
    lia.
Defined.

(** ** PrecomputableAffine: accumulation over several backward calls *)

(** One backward call without optimizer on a layer with resolved
    dimensions. *)
Lemma affine_backward_step (self : PrecomputableAffine.Model)
    (call : farray * (farray * ndarray) * option Optimizer) :
  PrecomputableAffine.resolved self ->
  affine_call_ok (PrecomputableAffine.nI self) (PrecomputableAffine.nO self)
    (PrecomputableAffine.nF self) call ->
  exists dXf self',
    PrecomputableAffine.backward (fst (fst call)) (snd (fst call)) (snd call)
      self = Some (dXf, self', []) /\
    PrecomputableAffine.resolved self' /\
    PrecomputableAffine.nI self' = PrecomputableAffine.nI self /\
    PrecomputableAffine.nO self' = PrecomputableAffine.nO self /\
    PrecomputableAffine.nF self' = PrecomputableAffine.nF self /\
    PrecomputableAffine.W self' = PrecomputableAffine.W self /\
    PrecomputableAffine.b self' = PrecomputableAffine.b self /\
    (forall o, (o < PrecomputableAffine.nO self)%nat ->
       fget (PrecomputableAffine.d_b self') [o]
       = Float32.add (fget (PrecomputableAffine.d_b self) [o])
           (call_d_b call o)) /\
    (forall f o i,
       (f < PrecomputableAffine.nF self)%nat ->
       (o < PrecomputableAffine.nO self)%nat ->
       (i < PrecomputableAffine.nI self)%nat ->
       fget (PrecomputableAffine.d_W self') [f; o; i]
       = Float32.add (fget (PrecomputableAffine.d_W self) [f; o; i])
           (call_d_W call f o i)).
Proof.
  destruct call as [[X [dY ids]] sgd].
  intros (HW & HwW & Hb & Hwb & HdW & HwdW & Hdb & Hwdb)
         (HX & HwX & HdY & HwdY & Hids & Hwids & Hvalid & ->).
  cbn [fst snd].
  set (N := nth 0 (fshape X) 0%nat) in *.
  set (B := nth 0 (fshape dY) 0%nat) in *.
  destruct (take_rows X ids N _ B _ HX HwX Hids Hwids Hvalid)
    as (Xf & HXf & HsXf & HwXf & HgXf).
  destruct (tensordot_bo_foi dY (PrecomputableAffine.W self) B _ _ _
              HdY HwdY HW HwW) as (dXf & HdXf & _).
  destruct (tensordot_bo_bfi dY Xf B _ _ _ HdY HwdY HsXf HwXf)
    as (dW & HdWe & HsdW & HwdW' & HgdW).
  destruct (transpose_102 dW _ _ _ HsdW HwdW')
    as (dWt & HdWt & HsdWt & HwdWt & HgdWt).
  destruct (fiadd_same_shape (PrecomputableAffine.d_W self) dWt)
    as (d_W' & Hd_W' & Hsd_W' & Hwd_W' & Hgd_W');
    [rewrite HsdWt, HdW; reflexivity | exact HwdW | exact HwdWt |].
  destruct (sum_axis0_bo dY B _ HdY HwdY) as (s & Hs & Hss & Hws & Hgs).
  destruct (fiadd_same_shape (PrecomputableAffine.d_b self) s)
    as (d_b' & Hd_b' & Hsd_b' & Hwd_b' & Hgd_b');
    [rewrite Hss, Hdb; reflexivity | exact Hwdb | exact Hws |].
  eexists dXf, _.
  split.
  { unfold PrecomputableAffine.backward.
    rewrite HXf. simpl. rewrite HdXf. simpl. rewrite HdWe. simpl.
    rewrite HdWt. simpl. rewrite Hd_W'. simpl. rewrite Hs. simpl.
    rewrite Hd_b'. simpl. reflexivity. }
  split.
  { unfold PrecomputableAffine.resolved. cbn.
    rewrite Hsd_W', Hsd_b'. repeat split; assumption. }
  do 5 (split; [reflexivity|]).
  split.
  - intros o Ho. cbn.
    rewrite Hgd_b' by (rewrite Hdb; simpl; auto).
    rewrite Hgs by assumption. reflexivity.
  - intros f o i Hf Ho Hi. cbn.
    rewrite Hgd_W' by (rewrite HdW; simpl; auto).
    rewrite HgdWt, HgdW by assumption.
    f_equal. apply dot_upto_ext; [reflexivity|]. intros b' Hb'.
    rewrite HgXf by assumption. reflexivity.
Qed.

(** X13.  Gradients accumulate over backward calls: after any run of
    backward calls without optimizer on a layer with resolved dimensions,
    [d_b[o]] and [d_W[f,o,i]] are their values before the run to which the
    contributions of the calls have been added one after the other, in the
    order of the calls and each addition rounded to float32: the sum over
    [b] of [dY[b,o]], and the inner product over [b] of [dY[b,o]] and
    [X[ids[b,f], i]].  The weights [W] and [b] are as before, and no
    optimizer is called. *)
Theorem affine_gradients_accumulate_over_calls
    (calls : list (farray * (farray * ndarray) * option Optimizer)) :
  forall self : PrecomputableAffine.Model,
    PrecomputableAffine.resolved self ->
    Forall (affine_call_ok (PrecomputableAffine.nI self)
              (PrecomputableAffine.nO self) (PrecomputableAffine.nF self))
      calls ->
    exists self',
      PrecomputableAffine.run_backward calls self = Some (self', []) /\
      PrecomputableAffine.W self' = PrecomputableAffine.W self /\
      PrecomputableAffine.b self' = PrecomputableAffine.b self /\
      (forall o, (o < PrecomputableAffine.nO self)%nat ->
         fget (PrecomputableAffine.d_b self') [o]
         = fold_left (fun acc c => Float32.add acc (call_d_b c o)) calls
             (fget (PrecomputableAffine.d_b self) [o])) /\
      (forall f o i,
         (f < PrecomputableAffine.nF self)%nat ->
         (o < PrecomputableAffine.nO self)%nat ->
         (i < PrecomputableAffine.nI self)%nat ->
         fget (PrecomputableAffine.d_W self') [f; o; i]
         = fold_left (fun acc c => Float32.add acc (call_d_W c f o i)) calls
             (fget (PrecomputableAffine.d_W self) [f; o; i])).
Proof.
  induction calls as [|call rest IH]; intros self Hres Hall.
  - exists self. split; [reflexivity|].
    repeat split; intros; reflexivity.
  - destruct (affine_backward_step self call Hres (Forall_inv Hall))
      as (dXf & s1 & Hstep & Hres1 & HnI & HnO & HnF & HW1 & Hb1 & Hdb1 & HdW1).
    destruct (IH s1 Hres1) as (s2 & Hrun & HW2 & Hb2 & Hdb2 & HdW2).
    { rewrite HnI, HnO, HnF. exact (Forall_inv_tail Hall). }
    exists s2. split.
    { destruct call as [[X dY_ids] sgd]. cbn [fst snd] in Hstep.
      cbn [PrecomputableAffine.run_backward].
      rewrite Hstep. cbn [bind]. rewrite Hrun. reflexivity. }
    split; [rewrite HW2; exact HW1|]. split; [rewrite Hb2; exact Hb1|].
    split.
    + intros o Ho. rewrite Hdb2 by (rewrite HnO; exact Ho).
      rewrite Hdb1 by exact Ho. reflexivity.
    + intros f o i Hf Ho Hi.
      rewrite HdW2 by (rewrite ?HnF, ?HnO, ?HnI; assumption).
      rewrite HdW1 by assumption. reflexivity.
Qed.

Lemma affine_gradients_accumulate_over_calls_witness :
  PrecomputableAffine.resolved Examples.affine_small /\
  Forall (affine_call_ok 3 2 2)
    [(Examples.X32_2x3, (Examples.dY32_2x2, Examples.ids_2x2), None);
     (Examples.X32_2x3, (Examples.dY32_2x2, Examples.ids_2x2), None)] /\
  exists self',
    PrecomputableAffine.run_backward
      [(Examples.X32_2x3, (Examples.dY32_2x2, Examples.ids_2x2), None);
       (Examples.X32_2x3, (Examples.dY32_2x2, Examples.ids_2x2), None)]
      Examples.affine_small = Some (self', []) /\
    fget (PrecomputableAffine.d_b self') [1%nat] = Float32.of_Z 17 /\
    fget (PrecomputableAffine.d_W self') [0; 0; 0]%nat = Float32.of_Z 27.
Proof.
  assert (Hr : PrecomputableAffine.resolved Examples.affine_small)
    by (repeat split; reflexivity).
  assert (Hok : affine_call_ok 3 2 2
                  (Examples.X32_2x3, (Examples.dY32_2x2, Examples.ids_2x2),
                   None)).
  { repeat split; try reflexivity.
    repeat constructor; unfold valid_row; simpl; lia. }
  assert (Hall : Forall (affine_call_ok 3 2 2)
                   [(Examples.X32_2x3, (Examples.dY32_2x2, Examples.ids_2x2),
                     None);
                    (Examples.X32_2x3, (Examples.dY32_2x2, Examples.ids_2x2),
                     None)])
    by (constructor; [exact Hok | constructor; [exact Hok | constructor]]).
  split; [exact Hr|]. split; [exact Hall|].
  destruct (affine_gradients_accumulate_over_calls _ Examples.affine_small
              Hr Hall) as (self' & Hrun & _ & _ & Hdb & HdW).
  exists self'. split; [exact Hrun|].
  split.
  - rewrite Hdb by (simpl; lia). vm_compute. reflexivity.
  - rewrite HdW by (simpl; lia). vm_compute. reflexivity.
Defined.

(** ** PrecomputableMaxouts: forward and backward *)

(** The index pairs of a two-axis shape, in row-major order. *)
Lemma indices_2 (n m : nat) :
  indices [n; m]
  = map (fun op => [fst op; snd op]) (list_prod (seq 0 n) (seq 0 m)).
Proof.
  change (indices [n; m])
    with (flat_map (fun i => map (cons i) (indices [m])) (seq 0 n)).
  rewrite indices_1.
  generalize (seq 0 n) as l.
  induction l as [|a l IH]; [reflexivity|].
  cbn [flat_map list_prod]. rewrite map_app, IH, !map_map. reflexivity.
Qed.

Lemma dot_indices_2 (n m : nat) (x y : list nat -> float32) :
  Float32.dot (map x (indices [n; m])) (map y (indices [n; m]))
  = Float32.dot_pairs n m (fun o p => x [o; p]) (fun o p => y [o; p]).
Proof.
  unfold Float32.dot_pairs. rewrite indices_2, !map_map. reflexivity.
Qed.

(** [tensordot(X, W, axes=[[1], [3]])] with [X : (B, nI)],
    [W : (nF, nO, nP, nI)]. *)
Lemma tensordot_bi_fopi (X W : farray) (B nF nO nP nI : nat) :
  fshape X = [B; nI] -> fwf X -> fshape W = [nF; nO; nP; nI] -> fwf W ->
  exists Y, ftensordot X W [1%nat] [3%nat] = Some Y /\
    fshape Y = [B; nF; nO; nP] /\ fwf Y /\
    forall b f o p,
      (b < B)%nat -> (f < nF)%nat -> (o < nO)%nat -> (p < nP)%nat ->
      fget Y [b; f; o; p]
      = Float32.dot_upto nI (fun i => fget X [b; i])
          (fun i => fget W [f; o; p; i]).
Proof.
  intros HX HwX HW HwW.
  unfold ftensordot, fndim.
  rewrite (fwfb_fwf _ HwX), (fwfb_fwf _ HwW), HX, HW.
  cbn. rewrite Nat.eqb_refl. cbn.
  eexists. split; [reflexivity|].
  split; [reflexivity|]. split; [apply fwf_ftabulate|].
  intros b f o p Hb Hf Ho Hp.
  rewrite fget_ftabulate by (simpl; auto).
  cbn.
  apply (dot_indices_1 nI
           (fun k => fget X [b; nth 0 k 0%nat])
           (fun k => fget W [f; o; p; nth 0 k 0%nat])).
Qed.

(** [Yfp += b] with [Yfp : (B, nF, nO, nP)] and [b : (nO, nP)]. *)
Lemma iadd_bias_pieces (A b : farray) (B nF nO nP : nat) :
  fshape A = [B; nF; nO; nP] -> fwf A -> fshape b = [nO; nP] -> fwf b ->
  exists C, fiadd A b = Some C /\ fshape C = [B; nF; nO; nP] /\ fwf C /\
    forall x f o p,
      (x < B)%nat -> (f < nF)%nat -> (o < nO)%nat -> (p < nP)%nat ->
      fget C [x; f; o; p] = Float32.add (fget A [x; f; o; p]) (fget b [o; p]).
Proof.
  intros HA HwA Hb Hwb.
  unfold fiadd. rewrite (fwfb_fwf _ HwA), (fwfb_fwf _ Hwb), HA, Hb.
  cbn. rewrite !Nat.eqb_refl. cbn.
  eexists. split; [reflexivity|].
  split; [reflexivity|]. split; [apply fwf_ftabulate|].
  intros x f o p Hx Hf Ho Hp.
  rewrite fget_ftabulate by (simpl; auto).
  cbn.
  destruct (nO =? 1)%nat eqn:EO; destruct (nP =? 1)%nat eqn:EP;
    rewrite ?Nat.eqb_eq in *;
    repeat match goal with
           | H : ?n = 1%nat, L : (?i < ?n)%nat |- _ =>
               replace i with 0%nat by lia; clear L
           end;
    reflexivity.
Qed.

(** X14.  For a maxout layer with resolved dimensions and a float32 input
    [X] of shape [(B, nI)], [begin_update] returns [Y] of shape
    [(B, nF, nO, nP)] whose entry [Y[b,f,o,p]] is the inner product of
    [X[b,:]] and [W[f,o,p,:]], accumulated in float32, plus [b[o,p]], the
    addition rounded to float32: every piece of every output of every
    feature, and no maximum is taken. *)
Theorem maxouts_forward_contraction (self : PrecomputableMaxouts.Model)
    (X : farray) (B : nat) :
  maxouts_resolved self ->
  fshape X = [B; PrecomputableMaxouts.nI self] -> fwf X ->
  exists Y bwd,
    PrecomputableMaxouts.begin_update self X = Some (Y, bwd) /\
    fshape Y = [B; PrecomputableMaxouts.nF self; PrecomputableMaxouts.nO self;
                PrecomputableMaxouts.nP self] /\
    fwf Y /\
    forall b f o p,
      (b < B)%nat -> (f < PrecomputableMaxouts.nF self)%nat ->
      (o < PrecomputableMaxouts.nO self)%nat ->
      (p < PrecomputableMaxouts.nP self)%nat ->
      fget Y [b; f; o; p]
      = Float32.add
          (Float32.dot_upto (PrecomputableMaxouts.nI self)
             (fun i => fget X [b; i])
             (fun i => fget (PrecomputableMaxouts.W self) [f; o; p; i]))
          (fget (PrecomputableMaxouts.b self) [o; p]).
Proof.
  intros (HW & HwW & Hb & Hwb & _) HX HwX.
  destruct (tensordot_bi_fopi X (PrecomputableMaxouts.W self) B _ _ _ _
              HX HwX HW HwW) as (Yf & HYf & HsYf & HwYf & HgYf).
  destruct (iadd_bias_pieces Yf (PrecomputableMaxouts.b self) B _ _ _
              HsYf HwYf Hb Hwb) as (Y & HY & HsY & HwY & HgY).
  exists Y, (PrecomputableMaxouts.backward X).
  split.
  { unfold PrecomputableMaxouts.begin_update.
    rewrite HYf. simpl. rewrite HY. reflexivity. }
  split; [exact HsY|]. split; [exact HwY|].
  intros b f o p Hb' Hf Ho Hp.
  rewrite HgY, HgYf by assumption. reflexivity.
Qed.

Lemma maxouts_forward_contraction_witness :
  maxouts_resolved Examples.maxouts_small /\
  fshape Examples.X32_2x3
  = [2%nat; PrecomputableMaxouts.nI Examples.maxouts_small] /\
  fwf Examples.X32_2x3 /\
  exists Y bwd,
    PrecomputableMaxouts.begin_update Examples.maxouts_small Examples.X32_2x3
    = Some (Y, bwd) /\
    fshape Y = [2; 2; 2; 2]%nat /\
    fget Y [1; 1; 0; 1]%nat = Float32.of_Z 34.
Proof.
  assert (Hr : maxouts_resolved Examples.maxouts_small)
    by (repeat split; reflexivity).
  split; [exact Hr|]. split; [reflexivity|]. split; [reflexivity|].
  destruct (maxouts_forward_contraction Examples.maxouts_small
              Examples.X32_2x3 2 Hr eq_refl eq_refl)
    as (Y & bwd & Hrun & Hs & _ & Hg).
  exists Y, bwd. split; [exact Hrun|]. split; [exact Hs|].
  rewrite Hg by (simpl; lia). vm_compute. reflexivity.
Defined.

(** [tensordot(dYp, W, axes=[[1, 2], [1, 2]])] with [dYp : (B, nO, nP)],
    [W : (nF, nO, nP, nI)]. *)
Lemma tensordot_bop_fopi (dYp W : farray) (B nF nO nP nI : nat) :
  fshape dYp = [B; nO; nP] -> fwf dYp ->
  fshape W = [nF; nO; nP; nI] -> fwf W ->
  exists D, ftensordot dYp W [1; 2]%nat [1; 2]%nat = Some D /\
    fshape D = [B; nF; nI] /\ fwf D /\
    forall b f i, (b < B)%nat -> (f < nF)%nat -> (i < nI)%nat ->
      fget D [b; f; i]
      = Float32.dot_pairs nO nP (fun o p => fget dYp [b; o; p])
          (fun o p => fget W [f; o; p; i]).
Proof.
  intros HX HwX HW HwW.
  unfold ftensordot, fndim.
  rewrite (fwfb_fwf _ HwX), (fwfb_fwf _ HwW), HX, HW.
  cbn. rewrite !Nat.eqb_refl. cbn.
  eexists. split; [reflexivity|].
  split; [reflexivity|]. split; [apply fwf_ftabulate|].
  intros b f i Hb Hf Hi.
  rewrite fget_ftabulate by (simpl; auto).
  cbn.
  apply (dot_indices_2 nO nP
           (fun k => fget dYp [b; nth 0 k 0%nat; nth 1 k 0%nat])
           (fun k => fget W [f; nth 0 k 0%nat; nth 1 k 0%nat; i])).
Qed.

(** [tensordot(dYp, Xf, axes=[[0], [0]])] with [dYp : (B, nO, nP)],
    [Xf : (B, nF, nI)]. *)
Lemma tensordot_bop_bfi (dYp Xf : farray) (B nF nO nP nI : nat) :
  fshape dYp = [B; nO; nP] -> fwf dYp -> fshape Xf = [B; nF; nI] -> fwf Xf ->
  exists D, ftensordot dYp Xf [0%nat] [0%nat] = Some D /\
    fshape D = [nO; nP; nF; nI] /\ fwf D /\
    forall o p f i,
      (o < nO)%nat -> (p < nP)%nat -> (f < nF)%nat -> (i < nI)%nat ->
      fget D [o; p; f; i]
      = Float32.dot_upto B (fun b => fget dYp [b; o; p])
          (fun b => fget Xf [b; f; i]).
Proof.
  intros HX HwX HW HwW.
  unfold ftensordot, fndim.
  rewrite (fwfb_fwf _ HwX), (fwfb_fwf _ HwW), HX, HW.
  cbn. rewrite Nat.eqb_refl. cbn.
  eexists. split; [reflexivity|].
  split; [reflexivity|]. split; [apply fwf_ftabulate|].
  intros o p f i Ho Hp Hf Hi.
  rewrite fget_ftabulate by (simpl; auto).
  cbn.
  apply (dot_indices_1 B
           (fun k => fget dYp [nth 0 k 0%nat; o; p])
           (fun k => fget Xf [nth 0 k 0%nat; f; i])).
Qed.

(** [dW.transpose((2, 0, 1, 3))]. *)
Lemma transpose_2013 (A : farray) (n0 n1 n2 n3 : nat) :
  fshape A = [n0; n1; n2; n3] -> fwf A ->
  exists T, ftranspose A [2; 0; 1; 3]%nat = Some T /\
    fshape T = [n2; n0; n1; n3] /\ fwf T /\
    forall f o p i,
      (f < n2)%nat -> (o < n0)%nat -> (p < n1)%nat -> (i < n3)%nat ->
      fget T [f; o; p; i] = fget A [o; p; f; i].
Proof.
  intros HA HwA.
  unfold ftranspose, fndim. rewrite (fwfb_fwf _ HwA), HA. cbn.
  eexists. split; [reflexivity|].
  split; [reflexivity|]. split; [apply fwf_ftabulate|].
  intros f o p i Hf Ho Hp Hi.
  rewrite fget_ftabulate by (simpl; auto). reflexivity.
Qed.

(** [dYp.sum(axis=0)] with [dYp : (B, nO, nP)]. *)
Lemma sum_axis0_bop (dYp : farray) (B nO nP : nat) :
  fshape dYp = [B; nO; nP] -> fwf dYp ->
  exists S, fsum_axis0 dYp = Some S /\ fshape S = [nO; nP] /\ fwf S /\
    forall o p, (o < nO)%nat -> (p < nP)%nat ->
      fget S [o; p] = Float32.sum_upto B (fun b => fget dYp [b; o; p]).
Proof.
  intros HA HwA.
  unfold fsum_axis0. rewrite HA, (fwfb_fwf _ HwA).
  eexists. split; [reflexivity|].
  split; [reflexivity|]. split; [apply fwf_ftabulate|].
  intros o p Ho Hp. rewrite fget_ftabulate by (simpl; auto). reflexivity.
Qed.

(** X15.  For a maxout layer with resolved dimensions, a forward input
    [X : (N, nI)], an output gradient [dYp : (B, nO, nP)] and row numbers
    [ids : (B, nF)], the backward closure returns [dXf : (B, nF, nI)] whose
    entry [dXf[b,f,i]] is the inner product over all [(o, p)] of
    [dYp[b,o,p]] and [W[f,o,p,i]]; it adds to [d_W[f,o,p,i]] the inner
    product over [b] of [dYp[b,o,p]] and [X[ids[b,f], i]], and to [d_b[o,p]]
    the sum over [b] of [dYp[b,o,p]], every operation in float32.  The
    weights are left as they were and the layer's dimensions stay
    resolved. *)
Theorem maxouts_backward_accumulates
    (self : PrecomputableMaxouts.Model) (X dYp : farray) (ids : ndarray)
    (N B : nat) :
  maxouts_resolved self ->
  fshape X = [N; PrecomputableMaxouts.nI self] -> fwf X ->
  fshape dYp = [B; PrecomputableMaxouts.nO self; PrecomputableMaxouts.nP self] ->
  fwf dYp ->
  shape ids = [B; PrecomputableMaxouts.nF self] -> wf ids ->
  Forall (valid_row N) (data ids) ->
  exists dXf self',
    PrecomputableMaxouts.backward X (dYp, ids) None self
    = Some (dXf, self', []) /\
    fshape dXf = [B; PrecomputableMaxouts.nF self; PrecomputableMaxouts.nI self] /\
    fwf dXf /\
    (forall b f i,
        (b < B)%nat -> (f < PrecomputableMaxouts.nF self)%nat ->
        (i < PrecomputableMaxouts.nI self)%nat ->
        fget dXf [b; f; i] =
        Float32.dot_pairs (PrecomputableMaxouts.nO self)
          (PrecomputableMaxouts.nP self)
          (fun o p => fget dYp [b; o; p])
          (fun o p => fget (PrecomputableMaxouts.W self) [f; o; p; i])) /\
    (forall f o p i,
        (f < PrecomputableMaxouts.nF self)%nat ->
        (o < PrecomputableMaxouts.nO self)%nat ->
        (p < PrecomputableMaxouts.nP self)%nat ->
        (i < PrecomputableMaxouts.nI self)%nat ->
        fget (PrecomputableMaxouts.d_W self') [f; o; p; i] =
        Float32.add (fget (PrecomputableMaxouts.d_W self) [f; o; p; i])
          (Float32.dot_upto B
             (fun b => fget dYp [b; o; p])
             (fun b => fget X [row_of N (get ids [b; f]); i]))) /\
    (forall o p,
        (o < PrecomputableMaxouts.nO self)%nat ->
        (p < PrecomputableMaxouts.nP self)%nat ->
        fget (PrecomputableMaxouts.d_b self') [o; p] =
        Float32.add (fget (PrecomputableMaxouts.d_b self) [o; p])
          (Float32.sum_upto B (fun b => fget dYp [b; o; p]))) /\
    PrecomputableMaxouts.W self' = PrecomputableMaxouts.W self /\
    PrecomputableMaxouts.b self' = PrecomputableMaxouts.b self /\
    maxouts_resolved self'.
Proof.
  intros (HW & HwW & Hb & Hwb & HdW & HwdW & Hdb & Hwdb)
         HX HwX HdY HwdY Hids Hwids Hvalid.
  destruct (take_rows X ids N _ B _ HX HwX Hids Hwids Hvalid)
    as (Xf & HXf & HsXf & HwXf & HgXf).
  destruct (tensordot_bop_fopi dYp (PrecomputableMaxouts.W self) B _ _ _ _
              HdY HwdY HW HwW) as (dXf & HdXf & HsdXf & HwdXf & HgdXf).
  destruct (tensordot_bop_bfi dYp Xf B _ _ _ _ HdY HwdY HsXf HwXf)
    as (dW & HdWe & HsdW & HwdW' & HgdW).
  destruct (transpose_2013 dW _ _ _ _ HsdW HwdW')
    as (dWt & HdWt & HsdWt & HwdWt & HgdWt).
  destruct (fiadd_same_shape (PrecomputableMaxouts.d_W self) dWt)
    as (d_W' & Hd_W' & Hsd_W' & Hwd_W' & Hgd_W');
    [rewrite HsdWt, HdW; reflexivity | exact HwdW | exact HwdWt |].
  destruct (sum_axis0_bop dYp B _ _ HdY HwdY) as (s & Hs & Hss & Hws & Hgs).
  destruct (fiadd_same_shape (PrecomputableMaxouts.d_b self) s)
    as (d_b' & Hd_b' & Hsd_b' & Hwd_b' & Hgd_b');
    [rewrite Hss, Hdb; reflexivity | exact Hwdb | exact Hws |].
  eexists dXf, _.
  split.
  { unfold PrecomputableMaxouts.backward.
    rewrite HXf. simpl. rewrite HdXf. simpl. rewrite HdWe. simpl.
    rewrite HdWt. simpl. rewrite Hd_W'. simpl. rewrite Hs. simpl.
    rewrite Hd_b'. simpl. reflexivity. }
  split; [exact HsdXf|]. split; [exact HwdXf|].
  split; [exact HgdXf|].
  split.
  { intros f o p i Hf Ho Hp Hi. cbn.
    rewrite Hgd_W' by (rewrite HdW; simpl; auto).
    rewrite HgdWt, HgdW by assumption.
    f_equal. apply dot_upto_ext; [reflexivity|]. intros b' Hb'.
    rewrite HgXf by assumption. reflexivity. }
  split.
  { intros o p Ho Hp. cbn.
    rewrite Hgd_b' by (rewrite Hdb; simpl; auto).
    rewrite Hgs by assumption. reflexivity. }
  split; [reflexivity|]. split; [reflexivity|].
  unfold maxouts_resolved. cbn.
  rewrite Hsd_W', Hsd_b'.
  repeat split; assumption.
Qed.

Lemma maxouts_backward_accumulates_witness :
  maxouts_resolved Examples.maxouts_small /\
  fshape Examples.X32_2x3 = [2; 3]%nat /\ fwf Examples.X32_2x3 /\
  fshape Examples.dYp32_2x2x2 = [2; 2; 2]%nat /\ fwf Examples.dYp32_2x2x2 /\
  shape Examples.ids_2x2 = [2; 2]%nat /\ wf Examples.ids_2x2 /\
  Forall (valid_row 2) (data Examples.ids_2x2) /\
  exists dXf self',
    PrecomputableMaxouts.backward Examples.X32_2x3
      (Examples.dYp32_2x2x2, Examples.ids_2x2) None Examples.maxouts_small
    = Some (dXf, self', []) /\
    fget dXf [0; 1; 2]%nat = Float32.of_Z 30 /\
    fget (PrecomputableMaxouts.d_W self') [0; 0; 1; 0]%nat = Float32.of_Z 26 /\
    fget (PrecomputableMaxouts.d_b self') [1; 0]%nat = Float32.of_Z 10.
Proof.
  assert (Hr : maxouts_resolved Examples.maxouts_small)
    by (repeat split; reflexivity).
  assert (Hv : Forall (valid_row 2) (data Examples.ids_2x2))
    by (repeat constructor; unfold valid_row; simpl; lia).
  repeat (split; [first [exact Hr | exact Hv | reflexivity]|]).
  destruct (maxouts_backward_accumulates Examples.maxouts_small
              Examples.X32_2x3 Examples.dYp32_2x2x2 Examples.ids_2x2 2 2
              Hr eq_refl eq_refl eq_refl eq_refl eq_refl eq_refl Hv)
    as (dXf & self' & Hrun & _ & _ & HdXf & HdW & Hdb & _).
  exists dXf, self'.
  split; [exact Hrun|].
  split; [rewrite HdXf by (simpl; lia); vm_compute; reflexivity|].
  split; [rewrite HdW by (simpl; lia); vm_compute; reflexivity|].
  rewrite Hdb by (simpl; lia). vm_compute. reflexivity.
Defined.

(** ** Initialization of a zero buffer, and zero initialization *)

(** [_init_for_precomputed] on a buffer whose sum of squares is zero. *)
Lemma init_for_precomputed_zero_buffer_aux (W : ndarray) (ops : Ops) :
  sumsq W = 0 ->
  (forall nF nO nI,
      shape W = [nF; nO; nI] -> wf W ->
      let reshaped := mk_ndarray [nO; (nF * nI)%nat] (data W) in
      let filled := xavier_uniform_init ops reshaped in
      (length (data filled) = length (data W) ->
       _init_for_precomputed W ops
       = Some (mk_ndarray [nF; nO; nI] (data filled), [reshaped])) /\
      (length (data filled) <> length (data W) ->
       _init_for_precomputed W ops = None)) /\
  (forall n0 n1, shape W = [n0; n1] -> _init_for_precomputed W ops = None).
Proof.
  intros Hzero.
  assert (E : (sumsq W =? 0) = true) by (apply Z.eqb_eq; exact Hzero).
  split.
  - intros nF nO nI HW HwW reshaped filled.
    assert (Hsize : size [nO; (nF * nI)%nat] = length (data W)).
    { rewrite HwW, HW. unfold size. simpl. lia. }
    assert (Hsize' : size [nF; nO; nI] = length (data W)).
    { rewrite HwW, HW. reflexivity. }
    split; intros Hlen;
      unfold _init_for_precomputed; rewrite E, HW; simpl;
      unfold reshape at 1; rewrite Hsize, Nat.eqb_refl; simpl;
      unfold reshape; rewrite Hsize'.
    + fold reshaped. fold filled.
      rewrite <- Hlen, Nat.eqb_refl. reflexivity.
    + match goal with
      | |- context [(?a =? ?b)%nat] =>
          destruct (Nat.eqb_spec a b) as [Heq|Hne]
      end; [exfalso; apply Hlen; symmetry; exact Heq | reflexivity].
  - intros n0 n1 HW. unfold _init_for_precomputed. rewrite E, HW. reflexivity.
Qed.

(** X16.  On a weight buffer [W : (nF, nO, nI)] whose sum of squares is
    zero, [_init_for_precomputed] hands the backend's Xavier routine the same
    buffer viewed as [(nO, nF * nI)], entries in unchanged order, and writes
    what the routine leaves back into [W], position by position and with
    the shape of [W]; it fails when the routine changes the number of
    entries.  On a zero buffer with only two axes it fails ([W.shape[2]]
    does not exist). *)
Theorem init_for_precomputed_zero_buffer (W : ndarray) (ops : Ops) :
  sumsq W = 0 ->
  (forall nF nO nI,
      shape W = [nF; nO; nI] -> wf W ->
      let reshaped := mk_ndarray [nO; (nF * nI)%nat] (data W) in
      let filled := xavier_uniform_init ops reshaped in
      (length (data filled) = length (data W) ->
       _init_for_precomputed W ops
       = Some (mk_ndarray [nF; nO; nI] (data filled), [reshaped])) /\
      (length (data filled) <> length (data W) ->
       _init_for_precomputed W ops = None)) /\
  (forall n0 n1, shape W = [n0; n1] -> _init_for_precomputed W ops = None).
Proof. exact (init_for_precomputed_zero_buffer_aux W ops). Qed.

Lemma init_for_precomputed_zero_buffer_witness :
  sumsq (zeros [2; 1; 2]%nat) = 0 /\
  shape (zeros [2; 1; 2]%nat) = [2; 1; 2]%nat /\ wf (zeros [2; 1; 2]%nat) /\
  _init_for_precomputed (zeros [2; 1; 2]%nat) Examples.ops_sampling
  = Some (mk_ndarray [2; 1; 2]%nat [0; 1; -1; 0],
          [mk_ndarray [1; 4]%nat [0; 0; 0; 0]]) /\
  _init_for_precomputed (zeros [2; 2]%nat) Examples.ops_sampling = None.
Proof.
  assert (Hz : sumsq (zeros [2; 1; 2]%nat) = 0) by reflexivity.
  assert (Hz2 : sumsq (zeros [2; 2]%nat) = 0) by reflexivity.
  split; [exact Hz|]. split; [reflexivity|]. split; [reflexivity|].
  split.
  - exact (proj1 (proj1 (init_for_precomputed_zero_buffer
                           (zeros [2; 1; 2]%nat) Examples.ops_sampling Hz)
                    2%nat 1%nat 2%nat eq_refl eq_refl) eq_refl).
  - exact (proj2 (init_for_precomputed_zero_buffer (zeros [2; 2]%nat)
                    Examples.ops_sampling Hz2) 2%nat 2%nat eq_refl).
Defined.

Lemma fill_zero_facts (A : ndarray) :
  shape (ZeroInit.fill A 0) = shape A /\
  length (data (ZeroInit.fill A 0)) = length (data A) /\
  Forall (fun x => x = 0) (data (ZeroInit.fill A 0)) /\
  sumsq (ZeroInit.fill A 0) = 0.
Proof.
  unfold ZeroInit.fill, sumsq. simpl.
  split; [reflexivity|]. split; [apply length_map|].
  split.
  - apply Forall_forall. intros x Hx. apply in_map_iff in Hx.
    destruct Hx as (y & <- & _). reflexivity.
  - unfold sumZ. induction (data A) as [|x l IH]; simpl; [reflexivity|].
    exact IH.
Qed.

(** X17.  [_zero_init] and [zero_init] both register the zeroing hook after
    the hooks that are there, but only [_zero_init] zeroes allocated weights
    at once: these keep their shape and every entry becomes 0, while
    [zero_init] leaves the weights as they are until the hook runs.  The hook
    itself zeroes allocated weights and raises on a model whose weights are
    not allocated, where [_zero_init] does not.  Zeroed weights have sum of
    squares 0, so the guard of [_init_for_precomputed] no longer protects
    them: that initializer then runs the backend's Xavier routine on
    them. *)
Theorem zero_init_variants (model : ZeroInit.Model) :
  ZeroInit.on_data_hooks (ZeroInit._zero_init model)
  = ZeroInit.on_data_hooks model ++ [ZeroInit._zero_init_impl] /\
  ZeroInit.on_data_hooks (ZeroInit.zero_init model)
  = ZeroInit.on_data_hooks model ++ [ZeroInit._zero_init_impl] /\
  ZeroInit.W (ZeroInit.zero_init model) = ZeroInit.W model /\
  (ZeroInit.W model = None ->
   ZeroInit.W (ZeroInit._zero_init model) = None /\
   ZeroInit._zero_init_impl (ZeroInit.W model) = None) /\
  (forall A, ZeroInit.W model = Some A ->
     exists A0,
       ZeroInit.W (ZeroInit._zero_init model) = Some A0 /\
       ZeroInit._zero_init_impl (ZeroInit.W model) = Some (Some A0) /\
       shape A0 = shape A /\ (wf A -> wf A0) /\
       Forall (fun x => x = 0) (data A0) /\
       (forall ops nF nO nI,
          shape A = [nF; nO; nI] -> wf A ->
          length (data (xavier_uniform_init ops
                          (mk_ndarray [nO; (nF * nI)%nat] (data A0))))
          = length (data A0) ->
          exists W' reshaped,
            _init_for_precomputed A0 ops = Some (W', [reshaped]))).
Proof.
  unfold ZeroInit._zero_init, ZeroInit.zero_init.
  destruct (ZeroInit.W model) as [A|] eqn:EW; simpl.
  - split; [reflexivity|]. split; [reflexivity|]. split; [reflexivity|].
    split; [discriminate|].
    intros A' HA'. injection HA' as <-.
    destruct (fill_zero_facts A) as (Hs & Hl & Hall & Hsq).
    exists (ZeroInit.fill A 0).
    split; [reflexivity|]. split; [reflexivity|]. split; [exact Hs|].
    assert (Hwf : wf A -> wf (ZeroInit.fill A 0)).
    { unfold wf. rewrite Hs, Hl. tauto. }
    split; [exact Hwf|]. split; [exact Hall|].
    intros ops nF nO nI HA HwA Hlen.
    destruct (proj1 (init_for_precomputed_zero_buffer_aux
                       (ZeroInit.fill A 0) ops Hsq)
                nF nO nI) as (Hrun & _);
      [rewrite Hs; exact HA | apply Hwf; exact HwA |].
    eexists _, _. apply Hrun. exact Hlen.
  - split; [reflexivity|]. split; [reflexivity|]. split; [reflexivity|].
    split; [intros _; split; reflexivity|]. discriminate.
Qed.

Lemma zero_init_variants_witness :
  ZeroInit.W (ZeroInit.mk_Model (Some Examples.W_trained_3d) [])
  = Some Examples.W_trained_3d /\
  shape Examples.W_trained_3d = [1; 2; 1]%nat /\ wf Examples.W_trained_3d /\
  ZeroInit.W (ZeroInit.zero_init
                (ZeroInit.mk_Model (Some Examples.W_trained_3d) []))
  = Some Examples.W_trained_3d /\
  exists A0,
    ZeroInit.W (ZeroInit._zero_init
                  (ZeroInit.mk_Model (Some Examples.W_trained_3d) []))
    = Some A0 /\
    data A0 = [0; 0] /\
    _init_for_precomputed Examples.W_trained_3d Examples.ops_sampling
    = Some (Examples.W_trained_3d, []) /\
    exists W' reshaped,
      _init_for_precomputed A0 Examples.ops_sampling = Some (W', [reshaped]).
Proof.
  pose proof (zero_init_variants
                (ZeroInit.mk_Model (Some Examples.W_trained_3d) []))
    as (_ & _ & Hkeep & _ & Hzero).
  destruct (Hzero Examples.W_trained_3d eq_refl)
    as (A0 & HA0 & _ & _ & _ & _ & Hinit).
  split; [reflexivity|]. split; [reflexivity|]. split; [reflexivity|].
  split; [exact Hkeep|].
  exists A0. split; [exact HA0|].
  assert (Hdata : data A0 = [0; 0]).
  { vm_compute in HA0. injection HA0 as <-. reflexivity. }
  split; [exact Hdata|]. split; [reflexivity|].
  apply (Hinit Examples.ops_sampling 1%nat 2%nat 1%nat eq_refl eq_refl).
  rewrite Hdata. reflexivity.
Defined.

(** ** _preprocess_doc *)

Lemma map_option_hd_shape (arrs : list ndarray) (rest : list nat) :
  Forall (fun A => exists n, shape A = n :: rest) arrs ->
  map_option (fun A => hd_error (shape A)) arrs
  = Some (map (fun A => hd 0%nat (shape A)) arrs).
Proof.
  induction arrs as [|A arrs IH]; intros H; [reflexivity|].
  simpl. destruct (Forall_inv H) as (n & Hn). rewrite Hn. simpl.
  rewrite (IH (Forall_inv_tail H)). reflexivity.
Qed.

Lemma length_concat_data (arrs : list ndarray) (rest : list nat) :
  Forall (fun A => wf A /\ exists n, shape A = n :: rest) arrs ->
  length (concat (map data arrs))
  = (fold_right Nat.add 0 (map (fun A => hd 0 (shape A)) arrs)
     * size rest)%nat.
Proof.
  induction arrs as [|A arrs IH]; intros H; [reflexivity|].
  simpl. rewrite length_app, (IH (Forall_inv_tail H)).
  destruct (Forall_inv H) as (Hw & n & Hn).
  rewrite Hw, Hn. simpl.
  change (size (n :: rest)) with (n * size rest)%nat. lia.
Qed.

Lemma xp_concatenate_rows (arrs : list ndarray) (rest : list nat) :
  arrs <> [] ->
  Forall (fun A => wf A /\ exists n, shape A = n :: rest) arrs ->
  xp_concatenate arrs
  = Some (mk_ndarray
            (fold_right Nat.add 0%nat (map (fun A => hd 0%nat (shape A)) arrs)
             :: rest)
            (concat (map data arrs))).
Proof.
  intros Hne Hall. unfold xp_concatenate.
  destruct arrs as [|first others]; [contradiction|].
  destruct (Forall_inv Hall) as (_ & n0 & Hn0). rewrite Hn0.
  assert (E : forallb (fun A => wfb A &&
                                match shape A with
                                | [] => false
                                | _ :: r => list_eqb r rest
                                end) (first :: others) = true).
  { apply forallb_forall. intros A HA.
    rewrite Forall_forall in Hall.
    destruct (Hall A HA) as (Hw & n & Hn).
    rewrite (wfb_wf _ Hw), Hn, list_eqb_refl. reflexivity. }
  rewrite E. reflexivity.
Qed.

(** X18.  [_preprocess_doc] fails on an empty batch (there is nothing to
    concatenate).  On a non-empty batch whose documents give arrays that
    agree on all axes but the first, it returns the arrays concatenated in
    order as [keys], a [vals] vector with one entry 1 for every row of
    [keys], and [lengths] with the number of rows of each document, so that
    the lengths add up to the number of rows of [keys] and of [vals]; it
    returns no backward closure.  [preprocess_doc] does the same. *)
Theorem preprocess_doc_keys_vals_lengths {Doc : Type}
    (to_array : Doc -> list Z -> ndarray) (LOWER : Z) :
  _preprocess_doc to_array LOWER [] = None /\
  (forall docs rest,
      docs <> [] ->
      Forall (fun doc => wf (to_array doc [LOWER]) /\
                         exists n, shape (to_array doc [LOWER]) = n :: rest)
        docs ->
      let rows := map (fun doc => hd 0%nat (shape (to_array doc [LOWER]))) docs in
      let total := fold_right Nat.add 0%nat rows in
      exists keys vals lengths,
        _preprocess_doc to_array LOWER docs
        = Some ((keys, vals, lengths), None) /\
        preprocess_doc to_array LOWER docs
        = Some ((keys, vals, lengths), None) /\
        shape keys = total :: rest /\ wf keys /\
        data keys = concat (map (fun doc => data (to_array doc [LOWER])) docs) /\
        shape vals = [total] /\ wf vals /\
        Forall (fun v => v = 1) (data vals) /\
        lengths = mk_ndarray [length docs] (map Z.of_nat rows)).
Proof.
  split; [reflexivity|].
  intros docs rest Hne Hall rows total.
  set (keys := map (fun doc => to_array doc [LOWER]) docs).
  assert (Hkeys : Forall (fun A => wf A /\ exists n, shape A = n :: rest) keys).
  { unfold keys. apply Forall_map. exact Hall. }
  assert (Hkne : keys <> []).
  { unfold keys. destruct docs; [contradiction | discriminate]. }
  assert (Hrows : map (fun A => hd 0%nat (shape A)) keys = rows).
  { unfold keys, rows. rewrite map_map. reflexivity. }
  assert (Hlens : map_option (fun A => hd_error (shape A)) keys = Some rows).
  { rewrite <- Hrows. apply (map_option_hd_shape keys rest).
    apply (Forall_impl _ (P := fun A => wf A /\ exists n, shape A = n :: rest));
      [tauto | exact Hkeys]. }
  pose proof (xp_concatenate_rows keys rest Hkne Hkeys) as Hcat.
  rewrite Hrows in Hcat. fold total in Hcat.
  assert (Hrun : _preprocess_doc to_array LOWER docs
                 = Some ((mk_ndarray (total :: rest) (concat (map data keys)),
                          mk_ndarray [total]
                            (map (fun x => x + 1) (data (zeros [total]))),
                          mk_ndarray [length rows] (map Z.of_nat rows)), None)).
  { unfold _preprocess_doc. fold keys. rewrite Hlens. cbn [bind].
    rewrite Hcat. reflexivity. }
  eexists _, _, _. split; [exact Hrun|].
  split; [exact Hrun|].
  split; [reflexivity|].
  split.
  { unfold wf. cbn [data shape].
    rewrite (length_concat_data keys rest Hkeys), Hrows. reflexivity. }
  split; [unfold keys; rewrite map_map; reflexivity|].
  split; [reflexivity|].
  split.
  { unfold wf. cbn [data shape]. rewrite length_map.
    apply (wf_tabulate [total]). }
  split.
  { apply Forall_forall. intros v Hv.
    apply in_map_iff in Hv. destruct Hv as (x & <- & Hx).
    unfold zeros, tabulate in Hx. cbn [data] in Hx.
    apply in_map_iff in Hx. destruct Hx as (? & <- & _). reflexivity. }
  unfold rows. rewrite length_map. reflexivity.
Qed.

Lemma preprocess_doc_keys_vals_lengths_witness :
  [[11; 12; 13]; []; [14; 15]] <> @nil (list Z) /\
  Forall (fun doc => wf (TableExamples.lower_column doc [3]) /\
                     exists n, shape (TableExamples.lower_column doc [3])
                               = n :: [1%nat])
    [[11; 12; 13]; []; [14; 15]] /\
  _preprocess_doc TableExamples.lower_column 3 [[11; 12; 13]; []; [14; 15]]
  = Some ((mk_ndarray [5; 1]%nat [11; 12; 13; 14; 15],
           mk_ndarray [5%nat] [1; 1; 1; 1; 1],
           mk_ndarray [3%nat] [3; 0; 2]), None).
Proof.
  assert (Hne : [[11; 12; 13]; []; [14; 15]] <> @nil (list Z)) by discriminate.
  assert (Hall : Forall (fun doc =>
                           wf (TableExamples.lower_column doc [3]) /\
                           exists n, shape (TableExamples.lower_column doc [3])
                                     = n :: [1%nat])
                   [[11; 12; 13]; []; [14; 15]]).
  { repeat constructor; try (unfold wf; simpl; reflexivity);
      eexists; reflexivity. }
  split; [exact Hne|]. split; [exact Hall|].
  destruct (proj2 (preprocess_doc_keys_vals_lengths
                     TableExamples.lower_column 3) _ _ Hne Hall)
    as (keys & vals & lengths & Hrun & _).
  rewrite Hrun. vm_compute in Hrun. injection Hrun as <- <- <-. reflexivity.
Defined.

(** ** Dicts *)

Section DictFacts.

Context {K V : Type}.
Variable eqb : K -> K -> bool.
Hypothesis eqb_eq : forall a b, eqb a b = true <-> a = b.

Lemma dict_get_set_same (k : K) (v : V) (d : list (K * V)) :
  dict_get eqb k (dict_set eqb k v d) = Some v.
Proof.
  induction d as [|[k' v'] d IH]; simpl.
  - assert (E : eqb k k = true) by (apply eqb_eq; reflexivity).
    rewrite E. reflexivity.
  - destruct (eqb k' k) eqn:E; simpl; rewrite E; [reflexivity | exact IH].
Qed.

Lemma dict_get_set_other (k k0 : K) (v : V) (d : list (K * V)) :
  k0 <> k -> dict_get eqb k0 (dict_set eqb k v d) = dict_get eqb k0 d.
Proof.
  intros Hne.
  assert (Hkk0 : eqb k k0 = false).
  { destruct (eqb k k0) eqn:E; [|reflexivity].
    apply eqb_eq in E. congruence. }
  induction d as [|[k' v'] d IH]; simpl.
  - rewrite Hkk0. reflexivity.
  - destruct (eqb k' k) eqn:E; simpl.
    + apply eqb_eq in E. subst k'. rewrite Hkk0. reflexivity.
    + rewrite IH. reflexivity.
Qed.

Lemma dict_set_twice (k : K) (v : V) (d : list (K * V)) :
  dict_set eqb k v (dict_set eqb k v d) = dict_set eqb k v d.
Proof.
  induction d as [|[k' v'] d IH]; simpl.
  - assert (E : eqb k k = true) by (apply eqb_eq; reflexivity).
    rewrite E. reflexivity.
  - destruct (eqb k' k) eqn:E; simpl; rewrite E; [reflexivity|].
    rewrite IH. reflexivity.
Qed.

Lemma dict_get_In (k : K) (v : V) (d : list (K * V)) :
  dict_get eqb k d = Some v -> In (k, v) d.
Proof.
  induction d as [|[k' v'] d IH]; simpl; [discriminate|].
  destruct (eqb k' k) eqn:E.
  - intros H. injection H as ->. apply eqb_eq in E. subst k'. left. reflexivity.
  - intros H. right. apply IH. exact H.
Qed.

End DictFacts.

Lemma vkey_eqb_eq (a b : String.string * String.string) :
  vkey_eqb a b = true <-> a = b.
Proof.
  destruct a as [a1 a2], b as [b1 b2]. unfold vkey_eqb. simpl.
  rewrite andb_true_iff, !String.eqb_eq.
  split; [intros [-> ->]; reflexivity | intros H; injection H; auto].
Qed.

(** ** link_vectors_to_models *)

(** X19.  After [link_vectors_to_models] every word of the vocabulary has
    kept its [orth] and its place, and its [rank] is its row in the vector
    table, 0 for a word without a row; the table is stored in [VECTORS]
    under the key (device, 'spacy_pretrained_vectors'), replacing what was
    there, and every other entry of [VECTORS] is as before.  Linking again
    changes nothing. *)
Theorem link_vectors_to_models_ranks (ops_device : String.string)
    (vocab : Vocabulary.Vocab)
    (VECTORS : list ((String.string * String.string) * ndarray)) :
  let linked := link_vectors_to_models ops_device vocab VECTORS in
  Vocabulary.vectors (fst linked) = Vocabulary.vectors vocab /\
  map Vocabulary.orth (Vocabulary.lexemes (fst linked))
  = map Vocabulary.orth (Vocabulary.lexemes vocab) /\
  Forall (fun word =>
            Vocabulary.rank word
            = row_of_word (Vocabulary.vectors vocab) (Vocabulary.orth word))
    (Vocabulary.lexemes (fst linked)) /\
  dict_get vkey_eqb (ops_device, VECTORS_KEY) (snd linked)
  = Some (Vocabulary.data (Vocabulary.vectors vocab)) /\
  (forall key, key <> (ops_device, VECTORS_KEY) ->
               dict_get vkey_eqb key (snd linked)
               = dict_get vkey_eqb key VECTORS) /\
  link_vectors_to_models ops_device (fst linked) (snd linked) = linked.
Proof.
  unfold link_vectors_to_models. cbn [fst snd].
  cbn [Vocabulary.vectors Vocabulary.lexemes].
  split; [reflexivity|].
  split.
  { rewrite map_map. apply map_ext. intros word.
    destruct (dict_get Z.eqb (Vocabulary.orth word) _); reflexivity. }
  split.
  { apply Forall_forall. intros word Hin.
    apply in_map_iff in Hin. destruct Hin as (w0 & <- & _).
    unfold row_of_word.
    destruct (dict_get Z.eqb (Vocabulary.orth w0) _) as [row|] eqn:E;
      cbn [Vocabulary.orth Vocabulary.rank]; rewrite E; reflexivity. }
  split; [apply (dict_get_set_same vkey_eqb vkey_eqb_eq)|].
  split; [intros key Hne; apply (dict_get_set_other vkey_eqb vkey_eqb_eq);
          exact Hne|].
  f_equal.
  - f_equal. rewrite map_map. apply map_ext. intros word.
    destruct (dict_get Z.eqb (Vocabulary.orth word) _) as [row|] eqn:E;
      cbn [Vocabulary.orth]; rewrite E; reflexivity.
  - apply (dict_set_twice vkey_eqb vkey_eqb_eq).
Qed.

(** ** SpacyVectors *)

Lemma get_1d (n : nat) (l : list Z) (t : nat) :
  get (mk_ndarray [n] l) [t] = nth t l 0.
Proof.
  unfold get, ravel, size. simpl.
  replace (t * 1 + 0)%nat with t by lia. reflexivity.
Qed.

Lemma row_index_entries (vectors : Vocabulary.Vectors) (ws : list Z) :
  map (fun orth => match dict_get Z.eqb orth (Vocabulary.key2row vectors) with
                   | Some row => Z.of_nat row
                   | None => 0
                   end) ws
  = map (fun orth => Z.of_nat (row_of_word vectors orth)) ws.
Proof.
  apply map_ext. intros orth. unfold row_of_word.
  destruct (dict_get Z.eqb orth (Vocabulary.key2row vectors)); reflexivity.
Qed.

Lemma row_of_word_lt (vectors : Vocabulary.Vectors) (R w : nat) (orth : Z) :
  table_ok vectors R w -> (row_of_word vectors orth < R)%nat.
Proof.
  intros (_ & _ & HR & Hrows). unfold row_of_word.
  destruct (dict_get Z.eqb orth (Vocabulary.key2row vectors)) as [row|] eqn:E;
    [|lia].
  apply (dict_get_In Z.eqb Z.eqb_eq) in E.
  rewrite Forall_forall in Hrows. exact (Hrows _ E).
Qed.

Lemma row_of_of_nat (R r : nat) : (r < R)%nat -> row_of R (Z.of_nat r) = r.
Proof.
  intros H. unfold row_of, norm_index.
  assert (E0 : (0 <=? Z.of_nat r) = true) by (apply Z.leb_le; lia).
  assert (E1 : (Z.of_nat r <? Z.of_nat R) = true) by (apply Z.ltb_lt; lia).
  rewrite E0, E1. simpl. apply Nat2Z.id.
Qed.

(** [X[ids]] with [X : (R, w)] and a vector [ids : (n,)] of row numbers. *)
Lemma take_rows_1d (X : ndarray) (R w : nat) (rows : list nat) :
  shape X = [R; w] -> wf X ->
  Forall (fun r => (r < R)%nat) rows ->
  exists V, take X (mk_ndarray [length rows] (map Z.of_nat rows)) = Some V /\
    shape V = [length rows; w] /\ wf V /\
    forall t j, (t < length rows)%nat -> (j < w)%nat ->
      get V [t; j] = get X [nth t rows 0%nat; j].
Proof.
  intros HX HwX Hrows.
  assert (Hwids : wf (mk_ndarray [length rows] (map Z.of_nat rows))).
  { unfold wf, size. simpl. rewrite length_map. lia. }
  unfold take, ndim. rewrite HX, (wfb_wf _ HwX), (wfb_wf _ Hwids).
  assert (Hall : forallb (fun k => match norm_index R k with
                                   | Some _ => true
                                   | None => false
                                   end)
                   (data (mk_ndarray [length rows] (map Z.of_nat rows)))
                 = true).
  { apply forallb_forall. intros k Hk. simpl in Hk.
    apply in_map_iff in Hk. destruct Hk as (r & <- & Hr).
    rewrite Forall_forall in Hrows.
    assert (Hv : valid_row R (Z.of_nat r)).
    { unfold valid_row. specialize (Hrows r Hr). lia. }
    destruct (norm_index_valid R _ Hv) as (r' & Hr' & _).
    rewrite Hr'. reflexivity. }
  rewrite Hall. simpl.
  eexists. split; [reflexivity|].
  split; [reflexivity|]. split; [apply wf_tabulate|].
  intros t j Ht Hj.
  rewrite get_tabulate by (simpl; auto).
  cbn [length firstn skipn]. rewrite get_1d.
  change 0 with (Z.of_nat 0). rewrite map_nth.
  assert (Hlt : (nth t rows 0 < R)%nat).
  { rewrite Forall_forall in Hrows. apply Hrows. apply nth_In. exact Ht. }
  pose proof (row_of_of_nat R _ Hlt) as Hrow. unfold row_of in Hrow.
  destruct (norm_index R (Z.of_nat (nth t rows 0%nat))) as [r|] eqn:E.
  - rewrite Hrow. reflexivity.
  - destruct (norm_index_valid R (Z.of_nat (nth t rows 0%nat))) as (r & Hr & _);
      [unfold valid_row; lia | congruence].
Qed.

Lemma map_option_Forall2 {S T : Type} (f : S -> option T)
    (P : S -> T -> Prop) (xs : list S) :
  Forall (fun x => exists y, f x = Some y /\ P x y) xs ->
  exists ys, map_option f xs = Some ys /\ Forall2 P xs ys.
Proof.
  induction xs as [|x xs IH]; intros H.
  - exists []. split; [reflexivity | constructor].
  - pose proof (Forall_inv H) as (y & Hy & HP).
    destruct (IH (Forall_inv_tail H)) as (ys & Hys & HF).
    exists (y :: ys). split.
    + simpl. rewrite Hy. simpl. rewrite Hys. reflexivity.
    + constructor; assumption.
Qed.


(** X20.  When every document's vector table has [R >= 1] rows of width [w]
    and its [key2row] only names rows of the table, [SpacyVectors] returns
    [(batch, None)] with one array per document, in order: for a document of
    [n] words an array of shape [(n, w)] whose row [t] is the table's row of
    the [t]-th word, row 0 for a word without a row of its own.  The row is
    the one [link_vectors_to_models] stores as the word's [rank]. *)
Theorem SpacyVectors_rows (docs : list Vocabulary.Doc) :
  Forall (fun doc =>
            exists R w, table_ok (Vocabulary.vectors (Vocabulary.vocab doc)) R w)
    docs ->
  exists batch,
    SpacyVectors docs = Some (batch, None) /\
    Forall2
      (fun doc V =>
         let vectors := Vocabulary.vectors (Vocabulary.vocab doc) in
         let n := length (Vocabulary.words doc) in
         exists R w,
           shape (Vocabulary.data vectors) = [R; w] /\
           shape V = [n; w] /\ wf V /\
           forall t j, (t < n)%nat -> (j < w)%nat ->
             get V [t; j]
             = get (Vocabulary.data vectors)
                 [row_of_word vectors (nth t (Vocabulary.words doc) 0); j])
      docs batch.
Proof.
  intros Hdocs. unfold SpacyVectors.
  match goal with
  | |- exists batch, bind (map_option ?f docs) _ = _ /\ Forall2 ?P docs batch =>
      destruct (map_option_Forall2 f P docs) as (batch & Hbatch & HF)
  end.
  - apply Forall_forall. intros doc Hin.
    rewrite Forall_forall in Hdocs.
    destruct (Hdocs doc Hin) as (R & w & Hok).
    pose proof Hok as (Hsh & Hwf & HR & Hrows).
    cbv zeta. rewrite row_index_entries.
    rewrite <- (length_map (row_of_word (Vocabulary.vectors (Vocabulary.vocab doc)))
                  (Vocabulary.words doc)).
    rewrite <- (map_map (row_of_word (Vocabulary.vectors (Vocabulary.vocab doc)))
                  Z.of_nat).
    destruct (take_rows_1d (Vocabulary.data (Vocabulary.vectors (Vocabulary.vocab doc)))
                R w
                (map (row_of_word (Vocabulary.vectors (Vocabulary.vocab doc)))
                   (Vocabulary.words doc)) Hsh Hwf)
      as (V & HV & HshV & HwV & Hget).
    { apply Forall_forall. intros r Hr. apply in_map_iff in Hr.
      destruct Hr as (orth & <- & _). apply (row_of_word_lt _ R w). exact Hok. }
    exists V. split; [exact HV|].
    exists R, w. rewrite !length_map. rewrite length_map in HshV, Hget.
    split; [exact Hsh|]. split; [exact HshV|]. split; [exact HwV|].
    intros t j Ht Hj. rewrite (Hget t j Ht Hj).
    f_equal. f_equal.
    rewrite (nth_indep _ 0%nat
               (row_of_word (Vocabulary.vectors (Vocabulary.vocab doc)) 0))
      by (rewrite length_map; exact Ht).
    apply map_nth.
  - exists batch. split; [|exact HF].
    rewrite Hbatch. reflexivity.
Qed.

Lemma SpacyVectors_rows_witness :
  exists batch,
    SpacyVectors [TableExamples.doc3] = Some (batch, None) /\
    Forall2
      (fun doc V =>
         let vectors := Vocabulary.vectors (Vocabulary.vocab doc) in
         let n := length (Vocabulary.words doc) in
         exists R w,
           shape (Vocabulary.data vectors) = [R; w] /\
           shape V = [n; w] /\ wf V /\
           forall t j, (t < n)%nat -> (j < w)%nat ->
             get V [t; j]
             = get (Vocabulary.data vectors)
                 [row_of_word vectors (nth t (Vocabulary.words doc) 0); j])
      [TableExamples.doc3] batch.
Proof.
  apply (SpacyVectors_rows [TableExamples.doc3]).
  constructor; [|constructor].
  exists 3%nat, 2%nat. unfold table_ok. simpl.
  split; [reflexivity|]. split; [reflexivity|]. split; [lia|].
  repeat constructor.
Defined.


